(** * Mora + DeerFlow: chunking, embedding index and topic filtering

    A shallow embedding of
      - [scripts/chunk_and_embed.py]  ([chunk_text], [process_file],
        [read_content_files], [create_embeddings_batch], [save_index],
        [main]),
      - [scripts/vector_temas_manager.py]  ([VectorTemasManager]) and
      - [scripts/enhanced_chunking.py]  ([EnhancedChunker]),
    with the properties the specification states about them.

    Conventions.
      - A Python [str] is a list of Unicode code points ([N]); [len] is the
        list length as a [Z].
      - Python [int] arguments ([min_length], [max_length], [batch_size],
        [max_chunks]) are [Z]: the command line accepts any integer.
      - A Python exception is a value of [exn]; a function that can raise
        returns a [result].
      - The embedding provider and the cosine similarity are parameters.
        A finite float is the rational it stands for; where NumPy converts
        an operand before it compares, the conversion is spelled out. *)

From Stdlib Require Import ZArith List Lia QArith Ascii String Permutation Sorted.
From Stdlib Require Import DecimalString DecimalNat.
From stdpp Require Import gmap strings list fin_maps.
Import ListNotations.

Local Open Scope Z_scope.

(** ** Python values shared by the three components *)

Definition char := N.
Definition str := list char.

(** [py "abc"] is the Python string ['abc'] (code points below 256). *)
Definition py (s : string) : str := map N_of_ascii (list_ascii_of_string s).

Definition len {A} (l : list A) : Z := Z.of_nat (length l).

(** Truthiness of a sequence: [if s] holds when [s] is not empty. *)
Definition truthy {A} (l : list A) : bool :=
  match l with [] => false | _ :: _ => true end.

Definition space : char := 32%N.
Definition newline : char := 10%N.

(** [str.isspace] on one code point, which is also what [\s] matches in a
    [str] pattern: the code points CPython lists as whitespace. *)
Definition isspace (c : char) : bool :=
  ((9 <=? c) && (c <=? 13) || (28 <=? c) && (c <=? 32) ||
   (c =? 133) || (c =? 160) || (c =? 5760) ||
   (8192 <=? c) && (c <=? 8202) ||
   (c =? 8232) || (c =? 8233) || (c =? 8239) || (c =? 8287) || (c =? 12288))%N.

(** The class [[.!?]]. *)
Definition is_terminator (c : char) : bool :=
  ((c =? 46) || (c =? 33) || (c =? 63))%N.

Fixpoint lstrip (s : str) : str :=
  match s with
  | c :: s' => if isspace c then lstrip s' else s
  | [] => []
  end.

Definition rstrip (s : str) : str := rev (lstrip (rev s)).

(** [s.strip()] *)
Definition strip (s : str) : str := rstrip (lstrip s).

(** ** Exceptions, and a state monad that can raise *)

Inductive exn :=
| KeyError (key : string)
| TypeError
| ValueError
| ZeroDivisionError
| AttributeError
| FileNotFoundError
| ProviderError.

Inductive result (A : Type) :=
| Ok (a : A)
| Err (e : exn).
Arguments Ok {A} a.
Arguments Err {A} e.

(** A computation over a mutable state [S] that returns or raises; what it
    did to the state before raising stays done. *)
Definition M (S A : Type) : Type := S -> result A * S.

Definition ret {S A} (a : A) : M S A := fun s => (Ok a, s).
Definition bind {S A B} (c : M S A) (k : A -> M S B) : M S B :=
  fun s => match c s with
           | (Ok a, s') => k a s'
           | (Err e, s') => (Err e, s')
           end.
Definition lift {S A} (r : result A) : M S A := fun s => (r, s).

Notation "'let*' x ':=' c 'in' k" := (bind c (fun x => k))
  (at level 10, x name, c at level 100, k at level 200).

(** [for x in l: body] with an accumulator threaded through the body. *)
Fixpoint for_each {S A B} (l : list A) (body : B -> A -> M S B) (acc : B) : M S B :=
  match l with
  | [] => ret acc
  | x :: l' => let* acc' := body acc x in for_each l' body acc'
  end.

(** ** Slices and ranges *)

(** A slice bound, as Python normalises it against the length [n]. *)
Definition clamp_index (n i : Z) : Z :=
  if i <? 0 then Z.max 0 (i + n) else Z.min i n.

(** [l[lo:hi]] *)
Definition slice {A} (l : list A) (lo hi : Z) : list A :=
  let lo' := clamp_index (len l) lo in
  let hi' := clamp_index (len l) hi in
  firstn (Z.to_nat (hi' - lo')) (skipn (Z.to_nat lo') l).

(** [range(0, stop, step)] *)
Definition range0 (stop step : Z) : result (list Z) :=
  if step =? 0 then Err ValueError
  else
    let count :=
      if step >? 0 then (stop + step - 1) / step
      else (- stop + - step - 1) / - step in
    Ok (map (fun k => Z.of_nat k * step) (seq 0 (Z.to_nat count))).

(** [a // b] *)
Definition floordiv (a b : Z) : result Z :=
  if b =? 0 then Err ZeroDivisionError else Ok (a / b).

(** * The chunker ([chunk_and_embed.py], [chunk_text]) *)

Module Chunker.

(** After a newline, the pattern [\n\s*\n] matches when the maximal
    whitespace run that follows contains another newline; the greedy [\s*]
    then ends the match at the LAST newline of that run.  [blank_tail rest]
    is the number of characters of [rest] the match covers. *)
Fixpoint blank_tail_aux (rest : str) (pos : nat) (last : option nat) : option nat :=
  match rest with
  | c :: rest' =>
      if isspace c
      then blank_tail_aux rest' (S pos)
             (if (c =? newline)%N then Some (S pos) else last)
      else last
  | [] => last
  end.

Definition blank_tail (rest : str) : option nat := blank_tail_aux rest 0 None.

(** [re.split(r'\n\s*\n', s)]: scan left to right; [skip] counts the
    characters of the current match still to drop, [cur] is the piece being
    read (reversed). *)
Fixpoint split_paragraphs_aux (skip : nat) (cur : str) (s : str) : list str :=
  match s with
  | [] => [rev cur]
  | c :: rest =>
      match skip with
      | S k => split_paragraphs_aux k cur rest
      | O =>
          if (c =? newline)%N then
            match blank_tail rest with
            | Some k => rev cur :: split_paragraphs_aux k [] rest
            | None => split_paragraphs_aux O (c :: cur) rest
            end
          else split_paragraphs_aux O (c :: cur) rest
      end
  end.

Definition split_paragraphs (s : str) : list str := split_paragraphs_aux O [] s.

(** [re.sub(r'\s+', ' ', s)]: every maximal whitespace run becomes one
    space; [in_run] says that the previous character was whitespace. *)
Fixpoint collapse_aux (in_run : bool) (s : str) : str :=
  match s with
  | [] => []
  | c :: rest =>
      if isspace c
      then (if in_run then collapse_aux true rest else space :: collapse_aux true rest)
      else c :: collapse_aux false rest
  end.

Definition collapse_whitespace (s : str) : str := collapse_aux false s.

(** [re.split(r'[.!?]+', s)]: split at every maximal run of terminators;
    empty pieces at either end are kept, as Python keeps them. *)
Fixpoint split_sentences_aux (in_run : bool) (cur : str) (s : str) : list str :=
  match s with
  | [] => [rev cur]
  | c :: rest =>
      if is_terminator c
      then (if in_run then split_sentences_aux true cur rest
            else rev cur :: split_sentences_aux true [] rest)
      else split_sentences_aux false (c :: cur) rest
  end.

Definition split_sentences (s : str) : list str := split_sentences_aux false [] s.

(** One turn of [for sentence in sentences]; the state is
    [(valid_chunks, current_chunk)]. *)
Definition sentence_step (min_length max_length : Z)
    (st : list str * str) (sentence : str) : list str * str :=
  let '(valid_chunks, current_chunk) := st in
  let sentence := strip sentence in
  if negb (truthy sentence) then st
  else if (len current_chunk + len sentence >? max_length) && truthy current_chunk
  then ((if len current_chunk >=? min_length
         then valid_chunks ++ [strip current_chunk] else valid_chunks),
        sentence)
  else (valid_chunks,
        if truthy current_chunk then current_chunk ++ space :: sentence else sentence).

(** The body of [for paragraph in paragraphs]: the new [valid_chunks]. *)
Definition paragraph_step (min_length max_length : Z)
    (valid_chunks : list str) (paragraph : str) : list str :=
  let paragraph := strip paragraph in
  if len paragraph <? min_length then valid_chunks
  else
    let paragraph := collapse_whitespace paragraph in
    if len paragraph >? max_length then
      let sentences := split_sentences paragraph in
      let '(valid_chunks, current_chunk) :=
        fold_left (sentence_step min_length max_length) sentences
          (valid_chunks, ([] : str)) in
      if truthy current_chunk && (len current_chunk >=? min_length)
      then valid_chunks ++ [strip current_chunk]
      else valid_chunks
    else valid_chunks ++ [paragraph].

Definition chunk_text (text : str) (min_length max_length : Z) : list str :=
  if negb (truthy text) || (len (strip text) <? min_length) then []
  else
    let paragraphs := split_paragraphs (strip text) in
    fold_left (paragraph_step min_length max_length) paragraphs [].

(** A line feed, and [s * n], for writing the tests' texts. *)

Definition nl : string := String (ascii_of_nat 10) EmptyString.

Fixpoint repeat_str (s : str) (n : nat) : str :=
  match n with O => [] | S n' => s ++ repeat_str s n' end.

(** *** Vocabulary of the properties *)

Definition starts_clean (s : str) : bool :=
  match s with c :: _ => negb (isspace c) | [] => false end.

(** A clean string is not empty and has no whitespace at either end. *)
Definition clean (s : str) : bool := starts_clean s && starts_clean (rev s).

(** The trimmed paragraphs of a text, as the outer loop sees them. *)
Definition paragraphs_of (text : str) : list str :=
  map strip (split_paragraphs (strip text)).

(** A sentence fragment of a (normalised) paragraph: a non-empty trimmed
    piece of the split on terminators. *)
Definition is_fragment (para f : str) : Prop :=
  exists s, In s (split_sentences para) /\ f = strip s /\ truthy f = true.

(** The values [current_chunk] takes: one fragment, or a buffer to which a
    fragment was appended after the length test let it through. *)
Inductive buffer (para : str) (max_length : Z) : str -> Prop :=
| buffer_start f :
    is_fragment para f -> buffer para max_length f
| buffer_append cur f :
    buffer para max_length cur -> is_fragment para f ->
    len cur + len f <= max_length ->
    buffer para max_length (cur ++ space :: f).

(** Where a returned chunk comes from. *)
Inductive chunk_origin (text : str) (min_length max_length : Z) (c : str) : Prop :=
| whole_paragraph p :
    In p (paragraphs_of text) -> min_length <= len p ->
    c = collapse_whitespace p -> len c <= max_length ->
    chunk_origin text min_length max_length c
| sentence_buffer p :
    In p (paragraphs_of text) -> min_length <= len p ->
    max_length < len (collapse_whitespace p) ->
    buffer (collapse_whitespace p) max_length c -> min_length <= len c ->
    chunk_origin text min_length max_length c.

(** The exception the specification documents: [c] is a whole normalised
    paragraph of the text, longer than [max_length], with no sentence
    terminator in it. *)
Definition punctuation_free_oversized (text : str) (max_length : Z) (c : str) : Prop :=
  exists p, In p (paragraphs_of text) /\ c = collapse_whitespace p /\
            max_length < len c /\
            forallb (fun ch => negb (is_terminator ch)) c = true.

(** The bound as the specification states it, at one input. *)
Definition bounds_as_specified (text : str) (min_length max_length : Z) : Prop :=
  0 < min_length < max_length -> text <> [] ->
  forall c, In c (chunk_text text min_length max_length) ->
    min_length <= len c <= max_length \/
    punctuation_free_oversized text max_length c.

(** A whole paragraph whose length was tested before its whitespace runs
    were collapsed, and which the collapse made shorter. *)
Definition shortened_paragraph (text : str) (min_length : Z) (c : str) : Prop :=
  exists p, In p (paragraphs_of text) /\ c = collapse_whitespace p /\
            min_length <= len p /\ len c < len p.

(** One sentence fragment that is by itself longer than [max_length]. *)
Definition oversized_fragment (text : str) (max_length : Z) (c : str) : Prop :=
  exists p, In p (paragraphs_of text) /\
            max_length < len (collapse_whitespace p) /\
            is_fragment (collapse_whitespace p) c /\ max_length < len c.

(** A buffer of several fragments whose contents fill [max_length] exactly,
    so that the joining space, which the length test leaves out, makes it
    one character longer. *)
Definition separator_overrun (text : str) (max_length : Z) (c : str) : Prop :=
  exists p cur f, In p (paragraphs_of text) /\
    buffer (collapse_whitespace p) max_length cur /\
    is_fragment (collapse_whitespace p) f /\
    c = cur ++ space :: f /\ len cur + len f = max_length.

(** The chunks one paragraph contributes. *)
Definition paragraph_chunks (min_length max_length : Z) (paragraph : str) : list str :=
  paragraph_step min_length max_length [] paragraph.

(** Every whitespace character of the string is a space, and no space
    follows another ([after_space]: the character before was a space). *)
Fixpoint tidy_aux (after_space : bool) (s : str) : bool :=
  match s with
  | [] => true
  | c :: s' =>
      if isspace c
      then (c =? space)%N && negb after_space && tidy_aux true s'
      else tidy_aux false s'
  end.

Definition tidy (s : str) : bool := tidy_aux false s.

Definition no_terminator (s : str) : bool :=
  forallb (fun ch => negb (is_terminator ch)) s.

(** *** The tests of [tests/test_chunk_and_embed.py], run on the model *)

Example test_basic_chunking :
  chunk_text
    (py ("First paragraph with some content." ++ nl ++
         "This is still the first paragraph." ++ nl ++ nl ++
         "Second paragraph here." ++ nl ++
         "More content in second paragraph." ++ nl ++ nl ++
         "Third paragraph content.")) 10 200
  = [ py "First paragraph with some content. This is still the first paragraph.";
      py "Second paragraph here. More content in second paragraph.";
      py "Third paragraph content." ].
Proof. vm_compute. reflexivity. Qed.

Example test_min_length_filtering :
  chunk_text
    (py ("Long enough paragraph with sufficient content." ++ nl ++ nl ++
         "Short." ++ nl ++ nl ++
         "Another long enough paragraph with sufficient content.")) 20 200
  = [ py "Long enough paragraph with sufficient content.";
      py "Another long enough paragraph with sufficient content." ].
Proof. vm_compute. reflexivity. Qed.

Example test_max_length_splitting :
  let chunks := chunk_text (repeat_str (py "This is a sentence. ") 50) 10 100 in
  length chunks = 10%nat /\
  Forall (fun c => c = py "This is a sentence This is a sentence This is a sentence This is a sentence This is a sentence") chunks.
Proof. vm_compute. split; [reflexivity | repeat constructor]. Qed.

Example test_empty_text : chunk_text [] 10 200 = [].
Proof. reflexivity. Qed.

(** *** Facts about [strip] *)

Lemma lstrip_split (s : str) :
  exists ws, s = ws ++ lstrip s /\ Forall (fun c => isspace c = true) ws.
Proof.
  induction s as [|c s [ws [E F]]]; simpl.
  - exists []. split; [reflexivity | constructor].
  - destruct (isspace c) eqn:Hc.
    + exists (c :: ws). split; [simpl; congruence | constructor; assumption].
    + exists []. split; [reflexivity | constructor].
Qed.

Lemma lstrip_head (s : str) : lstrip s = [] \/ starts_clean (lstrip s) = true.
Proof.
  induction s as [|c s IH]; simpl; [left; reflexivity|].
  destruct (isspace c) eqn:Hc; [exact IH|].
  right. simpl. rewrite Hc. reflexivity.
Qed.

Lemma lstrip_starts_clean (s : str) : starts_clean s = true -> lstrip s = s.
Proof.
  destruct s as [|c s]; simpl; [discriminate|].
  destruct (isspace c); [discriminate | reflexivity].
Qed.

Lemma starts_clean_app (a b : str) :
  starts_clean a = true -> starts_clean (a ++ b) = true.
Proof. destruct a; simpl; [discriminate | trivial]. Qed.

Lemma length_lstrip (s : str) : (length (lstrip s) <= length s)%nat.
Proof.
  induction s as [|c s IH]; simpl; [lia|].
  destruct (isspace c); simpl; lia.
Qed.

Lemma len_strip (s : str) : len (strip s) <= len s.
Proof.
  unfold len, strip, rstrip. rewrite length_rev.
  pose proof (length_lstrip (rev (lstrip s))) as H1.
  rewrite length_rev in H1. pose proof (length_lstrip s). lia.
Qed.

Lemma clean_strip (s : str) : clean s = true -> strip s = s.
Proof.
  unfold clean, strip, rstrip. intros H.
  apply andb_prop in H as [H1 H2].
  rewrite (lstrip_starts_clean s H1), (lstrip_starts_clean _ H2).
  apply rev_involutive.
Qed.

Lemma strip_clean (s : str) : truthy (strip s) = true -> clean (strip s) = true.
Proof.
  unfold strip, rstrip, clean. intros H.
  set (t := lstrip s) in *.
  destruct (lstrip_split (rev t)) as [ws [E _]].
  set (u := lstrip (rev t)) in *.
  assert (Hu : starts_clean u = true).
  { destruct (lstrip_head (rev t)) as [E0|E0]; [|exact E0].
    fold u in E0. rewrite E0 in H. discriminate. }
  rewrite rev_involutive, Hu, andb_true_r.
  assert (Et : t = rev u ++ rev ws).
  { rewrite <- (rev_involutive t), E, rev_app_distr. reflexivity. }
  destruct (rev u) as [|c r] eqn:Er; [simpl in H; discriminate|].
  destruct (lstrip_head s) as [E0|E0]; fold t in E0.
  - rewrite E0 in Et. discriminate.
  - rewrite Et in E0. exact E0.
Qed.

Lemma clean_join (a b : str) :
  clean a = true -> clean b = true -> clean (a ++ space :: b) = true.
Proof.
  unfold clean. intros Ha Hb.
  apply andb_prop in Ha as [Ha _]. apply andb_prop in Hb as [_ Hb].
  rewrite (starts_clean_app _ _ Ha). simpl.
  rewrite rev_app_distr. simpl. rewrite <- app_assoc.
  apply starts_clean_app. exact Hb.
Qed.

Lemma truthy_true {A} (l : list A) : truthy l = true <-> l <> [].
Proof. destruct l; simpl; split; congruence. Qed.

Lemma truthy_false {A} (l : list A) : truthy l = false <-> l = [].
Proof. destruct l; simpl; split; congruence. Qed.

(** *** Every returned chunk has an origin *)

Lemma fragment_clean para f : is_fragment para f -> clean f = true.
Proof. intros [s [_ [-> H]]]. apply strip_clean, H. Qed.

Lemma buffer_clean para max_length c : buffer para max_length c -> clean c = true.
Proof.
  induction 1 as [f Hf | cur f _ IH Hf _].
  - eapply fragment_clean, Hf.
  - apply clean_join; [exact IH | eapply fragment_clean, Hf].
Qed.

Lemma buffer_strip para max_length c : buffer para max_length c -> strip c = c.
Proof. intros H. eapply clean_strip, buffer_clean, H. Qed.

Lemma len_app_space (a b : str) : len (a ++ space :: b) = len a + 1 + len b.
Proof. unfold len. rewrite length_app. simpl. lia. Qed.

(** A buffer is a single fragment, or it is at most one character (the last
    joining space) over [max_length]. *)
Lemma buffer_length para max_length c :
  buffer para max_length c ->
  is_fragment para c \/
  (exists cur f, c = cur ++ space :: f /\ buffer para max_length cur /\
                 is_fragment para f /\ len c <= max_length + 1).
Proof.
  destruct 1 as [f Hf | cur f Hc Hf Hle]; [left; exact Hf|].
  right. exists cur, f. rewrite len_app_space. repeat split; trivial. lia.
Qed.

(** The sentence loop keeps [current_chunk] empty or a buffer, and only
    appends buffers of at least [min_length] characters. *)
Lemma sentence_loop_invariant para min_length max_length sentences :
  forall (valid : list str) (cur : str),
    (forall s, In s sentences -> In s (split_sentences para)) ->
    cur = [] \/ buffer para max_length cur ->
    exists new cur',
      fold_left (sentence_step min_length max_length) sentences (valid, cur)
        = (valid ++ new, cur') /\
      (cur' = [] \/ buffer para max_length cur') /\
      Forall (fun c => buffer para max_length c /\ min_length <= len c) new.
Proof.
  induction sentences as [|s ss IH]; intros valid cur Hin Hcur; simpl.
  - exists [], cur. rewrite app_nil_r. repeat split; [exact Hcur | constructor].
  - assert (Hss : forall s0, In s0 ss -> In s0 (split_sentences para))
      by (intros; apply Hin; right; assumption).
    destruct (truthy (strip s)) eqn:Hs; simpl.
    2:{ apply IH; assumption. }
    assert (Hf : is_fragment para (strip s)).
    { exists s. repeat split; [apply Hin; left; reflexivity | exact Hs]. }
    destruct (truthy cur) eqn:Hc.
    + destruct Hcur as [->|Hb]; [discriminate|].
      destruct (len cur + len (strip s) >? max_length) eqn:Hgt; simpl.
      * destruct (len cur >=? min_length) eqn:Hmin; simpl.
        -- destruct (IH (valid ++ [strip cur]) (strip s) Hss
                       (or_intror (buffer_start _ _ _ Hf)))
             as [new [cur' [E [Hc' Hnew]]]].
           exists (strip cur :: new), cur'. split; [|split; [exact Hc'|]].
           ++ rewrite <- app_assoc in E. exact E.
           ++ constructor; [|exact Hnew].
              rewrite (buffer_strip _ _ _ Hb). split; [exact Hb | lia].
        -- apply IH; [exact Hss | right; apply buffer_start, Hf].
      * apply IH; [exact Hss|]. right.
        apply buffer_append; [exact Hb | exact Hf | lia].
    + rewrite andb_false_r. apply IH; [exact Hss|].
      right. apply buffer_start, Hf.
Qed.

(** One turn of the paragraph loop appends chunks that all have an origin. *)
Lemma paragraph_step_origin text min_length max_length valid paragraph :
  In paragraph (split_paragraphs (strip text)) ->
  exists new,
    paragraph_step min_length max_length valid paragraph = valid ++ new /\
    Forall (chunk_origin text min_length max_length) new.
Proof.
  intros Hin. unfold paragraph_step.
  assert (Hp : In (strip paragraph) (paragraphs_of text))
    by (apply in_map, Hin).
  destruct (len (strip paragraph) <? min_length) eqn:Hmin.
  { exists []. rewrite app_nil_r. split; [reflexivity | constructor]. }
  set (para := collapse_whitespace (strip paragraph)).
  destruct (len para >? max_length) eqn:Hmax.
  - destruct (sentence_loop_invariant para min_length max_length
                (split_sentences para) valid [] (fun _ H => H) (or_introl eq_refl))
      as [new [cur' [E [Hc' Hnew]]]].
    rewrite E.
    assert (Hnew' : Forall (chunk_origin text min_length max_length) new).
    { eapply List.Forall_impl; [|exact Hnew]. intros c [Hb Hl].
      eapply sentence_buffer; eauto; fold para; lia. }
    destruct (truthy cur' && (len cur' >=? min_length)) eqn:Hlast.
    + apply andb_prop in Hlast as [Ht Hl].
      destruct Hc' as [->|Hb]; [discriminate|].
      exists (new ++ [strip cur']). split; [rewrite app_assoc; reflexivity|].
      apply List.Forall_app. split; [exact Hnew'|].
      constructor; [|constructor]. rewrite (buffer_strip _ _ _ Hb).
      eapply sentence_buffer; eauto; fold para; lia.
    + exists new. split; [reflexivity | exact Hnew'].
  - exists [para]. split; [reflexivity|].
    constructor; [|constructor].
    eapply whole_paragraph; eauto; lia.
Qed.

Lemma paragraph_loop_origin text min_length max_length paragraphs :
  forall valid,
    (forall p, In p paragraphs -> In p (split_paragraphs (strip text))) ->
    Forall (chunk_origin text min_length max_length) valid ->
    Forall (chunk_origin text min_length max_length)
      (fold_left (paragraph_step min_length max_length) paragraphs valid).
Proof.
  induction paragraphs as [|p ps IH]; intros valid Hin Hv; simpl; [exact Hv|].
  destruct (paragraph_step_origin text min_length max_length valid p)
    as [new [E Hnew]]; [apply Hin; left; reflexivity|].
  rewrite E. apply IH.
  - intros; apply Hin; right; assumption.
  - apply List.Forall_app. split; assumption.
Qed.

(** Every chunk [chunk_text] returns has an origin. *)
Lemma chunk_text_origin text min_length max_length c :
  In c (chunk_text text min_length max_length) ->
  chunk_origin text min_length max_length c.
Proof.
  unfold chunk_text.
  destruct (negb (truthy text) || (len (strip text) <? min_length)); [intros []|].
  intros Hin.
  pose proof (paragraph_loop_origin text min_length max_length
                (split_paragraphs (strip text)) [] (fun _ H => H) (List.Forall_nil _)) as HF.
  rewrite List.Forall_forall in HF. apply HF, Hin.
Qed.

(** *** Length bounds of the returned chunks *)

Lemma origin_lower text min_length max_length c :
  chunk_origin text min_length max_length c ->
  min_length <= len c \/ shortened_paragraph text min_length c.
Proof.
  intros [p Hp Hmin -> Hmax | p Hp Hmin Hlong Hb Hc]; [|left; exact Hc].
  destruct (Z_lt_le_dec (len (collapse_whitespace p)) (len p)) as [Hlt|Hge].
  - right. exists p. repeat split; assumption.
  - left. lia.
Qed.

Lemma origin_upper text min_length max_length c :
  chunk_origin text min_length max_length c ->
  len c <= max_length \/ oversized_fragment text max_length c \/
  separator_overrun text max_length c.
Proof.
  intros [p Hp Hmin -> Hmax | p Hp Hmin Hlong Hb Hc]; [left; exact Hmax|].
  destruct (Z_le_gt_dec (len c) max_length) as [Hle|Hgt]; [left; exact Hle|].
  right. destruct Hb as [f Hf | cur f Hcur Hf Hle].
  - left. exists p. repeat split; trivial. lia.
  - right. exists p, cur, f. rewrite len_app_space in Hgt.
    repeat split; trivial. lia.
Qed.

(** *** The loops as list functions *)

Lemma sentence_loop_app min_length max_length sentences :
  forall (valid : list str) (cur : str),
    fold_left (sentence_step min_length max_length) sentences (valid, cur) =
    (valid ++ fst (fold_left (sentence_step min_length max_length) sentences ([], cur)),
     snd (fold_left (sentence_step min_length max_length) sentences ([], cur))).
Proof.
  induction sentences as [|s ss IH]; intros valid cur; simpl.
  - rewrite app_nil_r. reflexivity.
  - destruct (negb (truthy (strip s))); [apply IH|].
    destruct ((len cur + len (strip s) >? max_length) && truthy cur); [|apply IH].
    destruct (len cur >=? min_length); [|apply IH].
    rewrite (IH (valid ++ [strip cur])), (IH ([] ++ [strip cur])).
    simpl. rewrite <- app_assoc. reflexivity.
Qed.

Lemma paragraph_step_app min_length max_length valid paragraph :
  paragraph_step min_length max_length valid paragraph =
  valid ++ paragraph_chunks min_length max_length paragraph.
Proof.
  unfold paragraph_chunks, paragraph_step.
  destruct (len (strip paragraph) <? min_length); [rewrite app_nil_r; reflexivity|].
  destruct (len (collapse_whitespace (strip paragraph)) >? max_length); [|reflexivity].
  rewrite sentence_loop_app.
  match goal with
  | |- context [fold_left ?f ?l ?a] => destruct (fold_left f l a) as [new cur']
  end. simpl.
  destruct (truthy cur' && (len cur' >=? min_length));
    rewrite ?List.app_assoc; reflexivity.
Qed.

Lemma paragraph_loop_flat_map min_length max_length paragraphs :
  forall valid,
    fold_left (paragraph_step min_length max_length) paragraphs valid =
    valid ++ flat_map (paragraph_chunks min_length max_length) paragraphs.
Proof.
  induction paragraphs as [|p ps IH]; intros valid; simpl.
  - rewrite app_nil_r. reflexivity.
  - rewrite IH, paragraph_step_app, <- app_assoc. reflexivity.
Qed.

Lemma chunk_text_flat_map text min_length max_length :
  chunk_text text min_length max_length =
  if negb (truthy text) || (len (strip text) <? min_length) then []
  else flat_map (paragraph_chunks min_length max_length)
         (split_paragraphs (strip text)).
Proof.
  unfold chunk_text.
  destruct (negb (truthy text) || (len (strip text) <? min_length)); [reflexivity|].
  apply paragraph_loop_flat_map.
Qed.

(** *** A paragraph without terminators is one fragment *)

Lemma split_sentences_no_terminator (s : str) :
  forall cur,
    forallb (fun ch => negb (is_terminator ch)) s = true ->
    split_sentences_aux false cur s = [rev cur ++ s].
Proof.
  induction s as [|c s IH]; intros cur H; simpl in *.
  - rewrite app_nil_r. reflexivity.
  - apply andb_prop in H as [Hc Hs].
    destruct (is_terminator c); [discriminate|].
    rewrite (IH (c :: cur) Hs). simpl. rewrite <- app_assoc. reflexivity.
Qed.

Lemma collapse_aux_snoc (s : str) (c : char) :
  isspace c = false ->
  forall b, collapse_aux b (s ++ [c]) = collapse_aux b s ++ [c].
Proof.
  intros Hc. induction s as [|d s IH]; intros b; simpl.
  - rewrite Hc. reflexivity.
  - destruct (isspace d); [destruct b|]; rewrite IH; reflexivity.
Qed.

Lemma clean_collapse (p : str) :
  clean p = true -> clean (collapse_whitespace p) = true.
Proof.
  unfold clean, collapse_whitespace. intros H.
  apply andb_prop in H as [H1 H2]. apply andb_true_intro. split.
  - destruct p as [|c p]; simpl in *; [discriminate|].
    destruct (isspace c) eqn:Hc; [discriminate | simpl; rewrite Hc; reflexivity].
  - destruct (rev p) as [|c r] eqn:Er; simpl in H2; [discriminate|].
    assert (Ep : p = rev r ++ [c])
      by (rewrite <- (rev_involutive p), Er; reflexivity).
    apply negb_true_iff in H2.
    rewrite Ep, (collapse_aux_snoc _ _ H2), rev_app_distr. simpl.
    rewrite H2. reflexivity.
Qed.

Lemma length_collapse_aux (s : str) :
  forall b, (length (collapse_aux b s) <= length s)%nat.
Proof.
  induction s as [|c s IH]; intros b; simpl; [lia|].
  destruct (isspace c); [destruct b|]; simpl;
    [pose proof (IH true) | pose proof (IH true) | pose proof (IH false)]; lia.
Qed.

Lemma len_collapse (s : str) : len (collapse_whitespace s) <= len s.
Proof. unfold len, collapse_whitespace. pose proof (length_collapse_aux s false). lia. Qed.

(** No piece of the paragraph split is longer than what was split. *)
Lemma split_paragraphs_aux_length (s : str) :
  forall skip cur p,
    In p (split_paragraphs_aux skip cur s) ->
    (length p <= length cur + length s)%nat.
Proof.
  induction s as [|c s IH]; intros skip cur p; simpl.
  - intros [<-|[]]. rewrite length_rev. lia.
  - destruct skip as [|k].
    + destruct (c =? newline)%N; [destruct (blank_tail s)|].
      * intros [<-|H]; [rewrite length_rev; lia|].
        apply IH in H. simpl in H. lia.
      * intros H. apply IH in H. simpl in H. lia.
      * intros H. apply IH in H. simpl in H. lia.
    + intros H. apply IH in H. lia.
Qed.

Lemma paragraphs_of_length text p :
  In p (paragraphs_of text) -> len p <= len (strip text).
Proof.
  unfold paragraphs_of. rewrite in_map_iff. intros [p0 [<- H]].
  apply split_paragraphs_aux_length in H. simpl in H.
  pose proof (len_strip p0). unfold len in *. lia.
Qed.

(** A paragraph without terminators that is longer than [max_length]
    contributes itself, whole. *)
Lemma paragraph_chunks_punctuation_free min_length max_length p0 :
  min_length < max_length ->
  max_length < len (collapse_whitespace (strip p0)) ->
  forallb (fun ch => negb (is_terminator ch)) (collapse_whitespace (strip p0)) = true ->
  truthy (strip p0) = true ->
  paragraph_chunks min_length max_length p0 = [collapse_whitespace (strip p0)].
Proof.
  intros Hmm Hlong Hnt Hne.
  unfold paragraph_chunks, paragraph_step.
  pose proof (len_collapse (strip p0)) as Hlc.
  set (c := collapse_whitespace (strip p0)) in *.
  assert (Hclean : clean c = true) by (apply clean_collapse, strip_clean, Hne).
  assert (Hc : truthy c = true).
  { unfold clean in Hclean. destruct c; [discriminate | reflexivity]. }
  replace (len (strip p0) <? min_length) with false by (symmetry; apply Z.ltb_ge; lia).
  replace (len c >? max_length) with true by (symmetry; apply Z.gtb_lt; lia).
  unfold split_sentences. rewrite (split_sentences_no_terminator c [] Hnt).
  simpl. rewrite (clean_strip c Hclean), Hc. simpl.
  rewrite andb_false_r, Hc. simpl.
  replace (len c >=? min_length) with true by (symmetry; apply Z.geb_le; lia).
  rewrite (clean_strip c Hclean). reflexivity.
Qed.

(** The documented exception is an instance of [oversized_fragment]: the
    paragraph is its own single fragment. *)
Lemma punctuation_free_is_fragment text max_length c :
  0 <= max_length ->
  punctuation_free_oversized text max_length c ->
  oversized_fragment text max_length c.
Proof.
  intros Hmax [p [Hp [-> [Hlong Hnt]]]].
  exists p. repeat split; trivial.
  unfold paragraphs_of in Hp. apply in_map_iff in Hp as [p0 [<- _]].
  assert (Hne : truthy (strip p0) = true).
  { apply truthy_true. intros E. rewrite E in Hlong.
    unfold len in Hlong. simpl in Hlong. lia. }
  set (c := collapse_whitespace (strip p0)) in *.
  assert (Hclean : clean c = true) by (apply clean_collapse, strip_clean, Hne).
  exists c. unfold split_sentences.
  rewrite (split_sentences_no_terminator c [] Hnt). simpl.
  rewrite (clean_strip c Hclean). repeat split; [left; reflexivity|].
  unfold clean in Hclean. destruct c; [discriminate | reflexivity].
Qed.

(** C1 (as amended).  For [0 < min_length < max_length] and a non-empty text:
    every chunk [chunk_text] returns is at least [min_length] characters long
    unless it is a whole paragraph that whitespace normalisation shortened
    after its length was tested, and at most [max_length] characters long
    unless it is one sentence fragment that is by itself longer than
    [max_length], or a buffer of several fragments that the uncounted joining
    space made exactly one character longer; and a paragraph longer than
    [max_length] without sentence terminators is returned whole, as such an
    oversized fragment. *)
Theorem chunk_text_bounds (text : str) (min_length max_length : Z) :
  0 < min_length < max_length -> text <> [] ->
  (forall c, In c (chunk_text text min_length max_length) ->
     (min_length <= len c \/ shortened_paragraph text min_length c) /\
     (len c <= max_length \/ oversized_fragment text max_length c \/
      separator_overrun text max_length c)) /\
  (forall c, punctuation_free_oversized text max_length c ->
     In c (chunk_text text min_length max_length) /\
     oversized_fragment text max_length c).
Proof.
  intros Hmm Htext. split.
  - intros c Hin. apply chunk_text_origin in Hin.
    split; [eapply origin_lower | eapply origin_upper]; exact Hin.
  - intros c Hpf. split; [|apply punctuation_free_is_fragment; [lia | exact Hpf]].
    destruct Hpf as [p [Hp [-> [Hlong Hnt]]]].
    pose proof (paragraphs_of_length _ _ Hp) as Hlen.
    pose proof (len_collapse p) as Hlc.
    rewrite chunk_text_flat_map.
    replace (truthy text) with true by (symmetry; apply truthy_true, Htext).
    replace (len (strip text) <? min_length) with false
      by (symmetry; apply Z.ltb_ge; lia).
    simpl. unfold paragraphs_of in Hp. apply in_map_iff in Hp as [p0 [<- Hp0]].
    apply in_flat_map. exists p0. split; [exact Hp0|].
    rewrite paragraph_chunks_punctuation_free; trivial; [left; reflexivity | lia |].
    apply truthy_true. intros E. rewrite E in Hlong.
    unfold len in Hlong. simpl in Hlong. lia.
Qed.

Lemma chunk_text_bounds_witness :
  let text := py "No full stop in this paragraph" in
  (forall c, In c (chunk_text text 5 20) ->
     (5 <= len c \/ shortened_paragraph text 5 c) /\
     (len c <= 20 \/ oversized_fragment text 20 c \/ separator_overrun text 20 c)) /\
  (forall c, punctuation_free_oversized text 20 c ->
     In c (chunk_text text 5 20) /\ oversized_fragment text 20 c).
Proof.
  exact (chunk_text_bounds (py "No full stop in this paragraph") 5 20
           ltac:(lia) ltac:(discriminate)).
Defined.

(** The bound as the specification states it fails in three ways: a sentence
    longer than [max_length] inside a paragraph that does have terminators
    (12 characters, [max_length = 5]); a paragraph that passes the
    [min_length] test with its whitespace run and is returned collapsed
    (3 characters, [min_length = 10]); two fragments of 5 characters joined
    by a space under [max_length = 10] (11 characters). *)
Lemma chunk_text_bounds_counterexample :
  (chunk_text (py "aaaaaaaaaaaa. bb") 2 5 = [py "aaaaaaaaaaaa"; py "bb"] /\
   ~ bounds_as_specified (py "aaaaaaaaaaaa. bb") 2 5) /\
  (chunk_text (py "a          b") 10 200 = [py "a b"] /\
   ~ bounds_as_specified (py "a          b") 10 200) /\
  (chunk_text (py "aaaaa. bbbbb. ccccc") 3 10 = [py "aaaaa bbbbb"; py "ccccc"] /\
   ~ bounds_as_specified (py "aaaaa. bbbbb. ccccc") 3 10).
Proof.
  repeat split; try (vm_compute; reflexivity).
  - intros H.
    destruct (H ltac:(lia) ltac:(discriminate) (py "aaaaaaaaaaaa")
                ltac:(vm_compute; left; reflexivity))
      as [[_ Hle] | [p [Hp [Hc _]]]].
    + vm_compute in Hle. apply Hle. reflexivity.
    + vm_compute in Hp. destruct Hp as [<-|[]]. vm_compute in Hc. discriminate.
  - intros H.
    destruct (H ltac:(lia) ltac:(discriminate) (py "a b")
                ltac:(vm_compute; left; reflexivity))
      as [[Hge _] | [p [_ [_ [Hlt _]]]]].
    + vm_compute in Hge. apply Hge. reflexivity.
    + vm_compute in Hlt. discriminate.
  - intros H.
    destruct (H ltac:(lia) ltac:(discriminate) (py "aaaaa bbbbb")
                ltac:(vm_compute; left; reflexivity))
      as [[_ Hle] | [p [Hp [Hc _]]]].
    + vm_compute in Hle. apply Hle. reflexivity.
    + vm_compute in Hp. destruct Hp as [<-|[]]. vm_compute in Hc. discriminate.
Qed.

(** The first exception of the specification: the last buffer of a paragraph
    is dropped when it is shorter than [min_length]. *)
Example final_buffer_dropped :
  chunk_text (py "aaaaaaaa. bbbbbbbb. ccc") 4 10 = [py "aaaaaaaa"; py "bbbbbbbb"].
Proof. vm_compute. reflexivity. Qed.

(** C10.  When the whole text, stripped of surrounding whitespace, is shorter
    than [min_length], [chunk_text] returns the empty list, whatever the
    paragraphs in it: the test comes before the split. *)
Theorem chunk_text_short_text (text : str) (min_length max_length : Z) :
  len (strip text) < min_length -> chunk_text text min_length max_length = [].
Proof.
  intros H. unfold chunk_text.
  replace (len (strip text) <? min_length) with true
    by (symmetry; apply Z.ltb_lt, H).
  rewrite orb_true_r. reflexivity.
Qed.

Lemma chunk_text_short_text_witness :
  let text := py ("ab" ++ nl ++ nl ++ "cd" ++ nl ++ nl ++ "ef") in
  split_paragraphs (strip text) = [py "ab"; py "cd"; py "ef"] /\
  chunk_text text 12 200 = [].
Proof.
  split; [vm_compute; reflexivity|].
  apply chunk_text_short_text. vm_compute. reflexivity.
Defined.

(** The same three paragraphs are inspected one by one, and those of at
    least [min_length] characters returned, once the whole text reaches
    [min_length]. *)
Example chunk_text_long_enough :
  chunk_text (py ("ab" ++ nl ++ nl ++ "cd" ++ nl ++ nl ++ "ef")) 2 200
  = [py "ab"; py "cd"; py "ef"].
Proof. vm_compute. reflexivity. Qed.

(** *** Paragraphs that need no splitting *)

Lemma paragraph_chunks_short min_length max_length p0 :
  len (collapse_whitespace (strip p0)) <= max_length ->
  paragraph_chunks min_length max_length p0
  = if min_length <=? len (strip p0) then [collapse_whitespace (strip p0)] else [].
Proof.
  intros Hle. unfold paragraph_chunks, paragraph_step.
  destruct (Z.ltb_spec (len (strip p0)) min_length) as [Hlt|Hge].
  - replace (min_length <=? len (strip p0)) with false
      by (symmetry; apply Z.leb_gt; lia). reflexivity.
  - replace (min_length <=? len (strip p0)) with true
      by (symmetry; apply Z.leb_le; lia).
    replace (len (collapse_whitespace (strip p0)) >? max_length) with false
      by (symmetry; rewrite Z.gtb_ltb; apply Z.ltb_ge; lia).
    reflexivity.
Qed.

Lemma flat_map_short_paragraphs min_length max_length (ps : list str) :
  (forall p0, In p0 ps -> len (collapse_whitespace (strip p0)) <= max_length) ->
  flat_map (paragraph_chunks min_length max_length) ps
  = map collapse_whitespace
      (List.filter (fun p => min_length <=? len p) (map strip ps)).
Proof.
  induction ps as [|p0 ps IH]; intros Hall; simpl; [reflexivity|].
  rewrite paragraph_chunks_short by (apply Hall; left; reflexivity).
  rewrite IH by (intros; apply Hall; right; assumption).
  destruct (min_length <=? len (strip p0)); reflexivity.
Qed.

(** X1.  When no paragraph of the text is longer than [max_length] once its
    whitespace is normalised, and [min_length] is positive, the chunks are
    exactly the normalised paragraphs whose trimmed length is at least
    [min_length], one chunk per paragraph, in the order of the text. *)
Theorem chunk_text_short_paragraphs (text : str) (min_length max_length : Z) :
  0 < min_length ->
  (forall p, In p (paragraphs_of text) -> len (collapse_whitespace p) <= max_length) ->
  chunk_text text min_length max_length
  = map collapse_whitespace
      (List.filter (fun p => min_length <=? len p) (paragraphs_of text)).
Proof.
  intros Hmin Hall. rewrite chunk_text_flat_map.
  destruct (negb (truthy text) || (len (strip text) <? min_length)) eqn:Hguard.
  - assert (Hshort : len (strip text) < min_length).
    { apply orb_prop in Hguard as [Ht|Hl]; [|apply Z.ltb_lt, Hl].
      apply negb_true_iff, truthy_false in Ht. subst text.
      unfold len. simpl. lia. }
    assert (Hnone : forall p, In p (paragraphs_of text) ->
                      (min_length <=? len p) = false).
    { intros p Hp. apply Z.leb_gt.
      pose proof (paragraphs_of_length _ _ Hp). lia. }
    clear -Hnone. induction (paragraphs_of text) as [|p ps IH]; simpl.
    + reflexivity.
    + rewrite (Hnone p (or_introl eq_refl)). apply IH.
      intros; apply Hnone; right; assumption.
  - apply flat_map_short_paragraphs. intros p0 Hp0. apply Hall.
    unfold paragraphs_of. apply in_map, Hp0.
Qed.

(** *** Chunks built from sentences have lost their punctuation *)

Lemma no_terminator_app (a b : str) :
  no_terminator (a ++ b) = no_terminator a && no_terminator b.
Proof. apply forallb_app. Qed.

Lemma no_terminator_rev (a : str) : no_terminator (rev a) = no_terminator a.
Proof.
  induction a as [|c a IH]; simpl; [reflexivity|].
  rewrite no_terminator_app, IH. simpl. rewrite andb_true_r. apply andb_comm.
Qed.

Lemma split_sentences_no_terminator_pieces (s : str) :
  forall in_run cur,
    no_terminator cur = true ->
    List.Forall (fun p => no_terminator p = true) (split_sentences_aux in_run cur s).
Proof.
  induction s as [|c s IH]; intros in_run cur Hcur; simpl.
  - constructor; [rewrite no_terminator_rev; exact Hcur | constructor].
  - destruct (is_terminator c) eqn:Hc.
    + destruct in_run; [apply IH, Hcur|].
      constructor; [rewrite no_terminator_rev; exact Hcur | apply IH; reflexivity].
    + apply IH. simpl. rewrite Hc, Hcur. reflexivity.
Qed.

Lemma no_terminator_strip (s : str) :
  no_terminator s = true -> no_terminator (strip s) = true.
Proof.
  assert (Hl : forall t, no_terminator t = true -> no_terminator (lstrip t) = true).
  { intros t Ht. destruct (lstrip_split t) as [ws [E _]].
    rewrite E, no_terminator_app in Ht. apply andb_prop in Ht as [_ Ht]. exact Ht. }
  intros H. unfold strip, rstrip.
  rewrite no_terminator_rev. apply Hl. rewrite no_terminator_rev. apply Hl, H.
Qed.

Lemma fragment_no_terminator para f : is_fragment para f -> no_terminator f = true.
Proof.
  intros [s [Hs [-> _]]]. apply no_terminator_strip.
  pose proof (split_sentences_no_terminator_pieces para false [] eq_refl) as HF.
  rewrite List.Forall_forall in HF. apply HF, Hs.
Qed.

Lemma buffer_no_terminator para max_length c :
  buffer para max_length c -> no_terminator c = true.
Proof.
  induction 1 as [f Hf | cur f _ IH Hf _].
  - eapply fragment_no_terminator, Hf.
  - rewrite no_terminator_app, IH. simpl.
    eapply fragment_no_terminator, Hf.
Qed.

(** X2.  Every chunk [chunk_text] returns is either a whole normalised
    paragraph of at most [max_length] characters, or has no [.], [!] or [?]
    in it: the chunks built from the sentences of a longer paragraph do not
    get their sentence punctuation back. *)
Theorem chunk_text_split_chunks_lose_punctuation (text : str)
    (min_length max_length : Z) :
  List.Forall
    (fun c =>
       (exists p, In p (paragraphs_of text) /\ c = collapse_whitespace p /\
                  len c <= max_length) \/
       no_terminator c = true)
    (chunk_text text min_length max_length).
Proof.
  apply List.Forall_forall. intros c Hc.
  destruct (chunk_text_origin _ _ _ _ Hc) as [p Hp _ E Hle | p _ _ _ Hb _].
  - left. exists p. repeat split; assumption.
  - right. eapply buffer_no_terminator, Hb.
Qed.

(** *** Chunks are single-spaced *)

Lemma tidy_aux_weaken (s : str) : tidy_aux true s = true -> tidy_aux false s = true.
Proof.
  destruct s as [|c s]; simpl; [trivial|].
  destruct (isspace c); [|trivial].
  rewrite andb_false_r. discriminate.
Qed.

Lemma tidy_aux_factor (a s : str) :
  forall b, tidy_aux b (a ++ s) = true ->
            tidy_aux b a = true /\ tidy_aux false s = true.
Proof.
  induction a as [|c a IH]; intros b H; simpl in *.
  - split; [reflexivity|]. destruct b; [apply tidy_aux_weaken|]; exact H.
  - destruct (isspace c).
    + apply andb_prop in H as [H1 H2]. apply IH in H2 as [H2 H3].
      rewrite H1, H2. split; [reflexivity | exact H3].
    + apply IH, H.
Qed.

Lemma tidy_strip (s : str) : tidy s = true -> tidy (strip s) = true.
Proof.
  unfold tidy, strip, rstrip. intros H.
  assert (H1 : tidy_aux false (lstrip s) = true).
  { destruct (lstrip_split s) as [ws [E _]]. rewrite E in H.
    apply tidy_aux_factor in H as [_ H]. exact H. }
  destruct (lstrip_split (rev (lstrip s))) as [ws [E _]].
  assert (E' : lstrip s = rev (lstrip (rev (lstrip s))) ++ rev ws).
  { rewrite <- (rev_involutive (lstrip s)) at 1. rewrite E at 1.
    apply rev_app_distr. }
  rewrite E' in H1. apply tidy_aux_factor in H1 as [H1 _]. exact H1.
Qed.

Lemma tidy_collapse_aux (s : str) :
  forall after_space in_run,
    (after_space = true -> in_run = true) ->
    tidy_aux after_space (collapse_aux in_run s) = true.
Proof.
  induction s as [|c s IH]; intros p r Hpr; simpl; [reflexivity|].
  destruct (isspace c) eqn:Hc.
  - destruct r.
    + apply IH. trivial.
    + destruct p; [specialize (Hpr eq_refl); discriminate|].
      simpl. rewrite (IH true true) by trivial. reflexivity.
  - simpl. rewrite Hc. apply IH. discriminate.
Qed.

Lemma tidy_collapse (s : str) : tidy (collapse_whitespace s) = true.
Proof. apply tidy_collapse_aux. discriminate. Qed.

Lemma split_sentences_tidy_pieces (s : str) :
  forall in_run cur,
    (in_run = true -> cur = []) ->
    tidy (rev cur ++ s) = true ->
    List.Forall (fun p => tidy p = true) (split_sentences_aux in_run cur s).
Proof.
  unfold tidy.
  induction s as [|c s IH]; intros in_run cur Hrun H; simpl.
  - rewrite app_nil_r in H. constructor; [exact H | constructor].
  - assert (Hs : tidy_aux false s = true).
    { apply tidy_aux_factor in H as [_ H].
      apply (tidy_aux_factor [c] s false), H. }
    destruct (is_terminator c).
    + destruct in_run.
      * rewrite (Hrun eq_refl). apply IH; [trivial | exact Hs].
      * constructor; [apply tidy_aux_factor in H as [H _]; exact H|].
        apply IH; [trivial | exact Hs].
    + apply IH; [discriminate|].
      simpl. rewrite <- List.app_assoc. exact H.
Qed.

Lemma fragment_tidy para f : tidy para = true -> is_fragment para f -> tidy f = true.
Proof.
  intros Hp [s [Hs [-> _]]]. apply tidy_strip.
  pose proof (split_sentences_tidy_pieces para false [] (fun H => eq_refl) Hp) as HF.
  rewrite List.Forall_forall in HF. apply HF, Hs.
Qed.

Lemma starts_clean_rev_cons (c : char) (a : str) :
  a <> [] -> starts_clean (rev (c :: a)) = starts_clean (rev a).
Proof.
  intros Ha. simpl. destruct (rev a) as [|d r] eqn:E; [|reflexivity].
  apply (f_equal (@rev char)) in E. rewrite rev_involutive in E. contradiction.
Qed.

Lemma tidy_aux_append (a t : str) :
  forall b,
    starts_clean (rev a) = true -> tidy_aux b a = true ->
    tidy_aux false t = true -> tidy_aux b (a ++ t) = true.
Proof.
  induction a as [|c a IH]; intros b Hlast Ha Ht; [discriminate|].
  destruct a as [|d a].
  - simpl in *. destruct (isspace c); [discriminate | exact Ht].
  - rewrite starts_clean_rev_cons in Hlast by discriminate.
    change ((c :: d :: a) ++ t) with (c :: (d :: a) ++ t).
    cbn [tidy_aux] in Ha |- *.
    destruct (isspace c).
    + apply andb_prop in Ha as [H1 H2]. rewrite H1. apply IH; assumption.
    + apply IH; assumption.
Qed.

Lemma tidy_join (a f : str) :
  clean a = true -> tidy a = true -> clean f = true -> tidy f = true ->
  tidy (a ++ space :: f) = true.
Proof.
  unfold clean, tidy. intros Ha Hta Hf Htf.
  apply andb_prop in Ha as [_ Ha]. apply andb_prop in Hf as [Hf _].
  apply tidy_aux_append; [exact Ha | exact Hta|].
  destruct f as [|d f]; [discriminate|]. simpl in *.
  destruct (isspace d); [discriminate | exact Htf].
Qed.

Lemma buffer_tidy para max_length c :
  tidy para = true -> buffer para max_length c -> tidy c = true.
Proof.
  intros Hp. induction 1 as [f Hf | cur f Hcur IH Hf _].
  - apply (fragment_tidy para); assumption.
  - apply tidy_join; [eapply buffer_clean, Hcur | exact IH
                      | eapply fragment_clean, Hf
                      | apply (fragment_tidy para); assumption].
Qed.

(** X3.  With a positive [min_length], every chunk [chunk_text] returns is
    not empty, has no whitespace at either end, has no whitespace character
    other than the space, and has no two spaces in a row. *)
Theorem chunk_text_chunks_single_spaced (text : str) (min_length max_length : Z) :
  0 < min_length ->
  List.Forall (fun c => clean c = true /\ tidy c = true)
    (chunk_text text min_length max_length).
Proof.
  intros Hmin. apply List.Forall_forall. intros c Hc.
  destruct (chunk_text_origin _ _ _ _ Hc) as [p Hp Hlen -> _ | p _ _ _ Hb _].
  - split; [|apply tidy_collapse].
    apply clean_collapse. unfold paragraphs_of in Hp.
    apply in_map_iff in Hp as [p0 [<- _]]. apply strip_clean.
    apply truthy_true. intros E. rewrite E in Hlen.
    unfold len in Hlen. simpl in Hlen. lia.
  - split; [eapply buffer_clean, Hb|].
    eapply buffer_tidy; [apply tidy_collapse | exact Hb].
Qed.

Lemma chunk_text_short_paragraphs_witness :
  let text := py ("First   paragraph," ++ nl ++ "two lines." ++ nl ++ nl ++
                  "Short." ++ nl ++ nl ++ "Third paragraph here.") in
  chunk_text text 10 200
  = map collapse_whitespace
      (List.filter (fun p => 10 <=? len p) (paragraphs_of text)) /\
  chunk_text text 10 200
  = [py "First paragraph, two lines."; py "Third paragraph here."].
Proof.
  split; [|vm_compute; reflexivity].
  apply chunk_text_short_paragraphs; [lia|].
  intros p Hp. vm_compute in Hp.
  destruct Hp as [<-|[<-|[<-|[]]]]; vm_compute; discriminate.
Defined.

Lemma chunk_text_chunks_single_spaced_witness :
  List.Forall (fun c => clean c = true /\ tidy c = true)
    (chunk_text (py ("One.  Two!   Three?" ++ nl ++ "Four.")) 3 8) /\
  chunk_text (py ("One.  Two!   Three?" ++ nl ++ "Four.")) 3 8
  = [py "One Two"; py "Three"; py "Four"].
Proof.
  split; [|vm_compute; reflexivity].
  apply chunk_text_chunks_single_spaced. lia.
Defined.

End Chunker.

(** * The embedding indexer ([chunk_and_embed.py]) *)

Module Indexer.

(** A chunk record, with the fields [process_file] gives it. *)
Record chunk := Chunk {
  text : str;
  source : str;
  chunk_id : str;
  chunk_length : Z;
  file_type : str;
  chunk_index : Z
}.

Record processing_stats := ProcessingStats {
  min_chunk_length : Z;
  max_chunk_length : Z;
  total_sources : Z;
  sources : gmap str Z
}.

(** [created_at] (the clock) and [avg_chunk_length] (a rounded float) are
    left out of the metadata: nothing below reads them. *)
Record snapshot_metadata := SnapshotMetadata {
  model : str;
  total_chunks : Z;
  embedding_dim : Z;
  stats : processing_stats;
  version : str
}.

(** Effects on the files: what [save_index] asks of the operating system,
    one request after the other. *)
Inductive fs_op :=
| Makedirs (name : str)             (* os.makedirs(name, exist_ok=True) *)
| OpenW (path : str)                (* open(p, 'w'): creates or truncates *)
| FWrite (path : str) (data : str)  (* f.write(data) *)
| FClose (path : str).

(** [os.path.dirname(p)] for a POSIX path: what stands before the last
    slash, without its trailing slashes unless it is made of slashes only;
    empty for a path without a slash.  [head_rev] is that part read
    backwards. *)
Fixpoint head_rev (reversed : str) : str :=
  match reversed with
  | [] => []
  | c :: rest => if (c =? 47)%N then reversed else head_rev rest
  end.

Fixpoint drop_slashes (s : str) : str :=
  match s with
  | c :: rest => if (c =? 47)%N then drop_slashes rest else s
  | [] => []
  end.

Definition dirname (p : str) : str :=
  let head := head_rev (rev p) in
  if forallb (fun c => (c =? 47)%N) head then rev head else rev (drop_slashes head).

(** The content of each file, by path, after a request, or the exception
    the request raises.  [os.makedirs] raises [FileNotFoundError] for the
    empty name; apart from that the file system is taken to grant every
    request (the directory can be made, the file can be opened and
    written). *)
Definition apply_op (fs : gmap str str) (op : fs_op) : result (gmap str str) :=
  match op with
  | Makedirs name => if truthy name then Ok fs else Err FileNotFoundError
  | OpenW p => Ok (<[p := []]> fs)
  | FWrite p data => Ok (alter (fun content => content ++ data) p fs)
  | FClose _ => Ok fs
  end.

(** The requests in turn, up to the first that raises: how the execution
    ends, and the files it leaves. *)
Fixpoint run (ops : list fs_op) (fs : gmap str str) : result unit * gmap str str :=
  match ops with
  | [] => (Ok tt, fs)
  | op :: ops' =>
      match apply_op fs op with
      | Ok fs' => run ops' fs'
      | Err e => (Err e, fs)
      end
  end.

Definition run_ops (ops : list fs_op) (fs : gmap str str) : gmap str str :=
  snd (run ops fs).

(** [min(l) if l else 0] and [max(l) if l else 0] *)
Definition min_or_0 (l : list Z) : Z :=
  match l with [] => 0 | x :: l' => fold_left Z.min l' x end.
Definition max_or_0 (l : list Z) : Z :=
  match l with [] => 0 | x :: l' => fold_left Z.max l' x end.

(** Batch number [k], of [b] texts from position [k * b]. *)
Definition batch_at {A} (l : list A) (b k : nat) : list A :=
  firstn b (skipn (k * b) l).

(** The number of batches: [len] divided by [batch_size], rounded up. *)
Definition batch_count (n batch_size : Z) : nat :=
  Z.to_nat ((n + batch_size - 1) / batch_size).

(** A file of the content directory, as [process_file] meets it: its name,
    its stem, its suffix in lower case, and what reading it gives: for a
    [.txt] file the text [f.read()] returns, or the exception it raises; for
    a [.pdf] file the text [extract_text_from_pdf] returns (which is empty
    when the extraction fails). *)
Record file := File {
  file_name : str;
  file_stem : str;
  file_suffix : str;
  file_content : result str
}.

(** [str(i)] for an index. *)
Definition str_of_nat (i : nat) : str :=
  py (NilEmpty.string_of_uint (Nat.to_uint i)).

(** [for i, chunk in enumerate(chunks)], from index [i] on. *)
Fixpoint chunk_objects (f : file) (i : nat) (chunks : list str) : list chunk :=
  match chunks with
  | [] => []
  | chunk :: rest =>
      {| text := chunk;
         source := file_name f;
         chunk_id := file_stem f ++ py "_" ++ str_of_nat i;
         chunk_length := len chunk;
         file_type := skipn 1 (file_suffix f);
         chunk_index := Z.of_nat i |}
      :: chunk_objects f (S i) rest
  end.

(** [process_file], without the processing time: the file name and the chunk
    records.  Any exception ends in the [except] branch, with no records. *)
Definition process_file (PDF_AVAILABLE : bool) (f : file) (min_length max_length : Z)
  : str * list chunk :=
  let file_ext := file_suffix f in
  if bool_decide (file_ext = py ".pdf") then
    if negb PDF_AVAILABLE then (file_name f, [])
    else
      match file_content f with
      | Err _ => (file_name f, [])
      | Ok content =>
          if negb (truthy content) then (file_name f, [])
          else (file_name f,
                chunk_objects f 0 (Chunker.chunk_text content min_length max_length))
      end
  else if bool_decide (file_ext = py ".txt") then
    match file_content f with
    | Err _ => (file_name f, [])
    | Ok content =>
        (file_name f,
         chunk_objects f 0 (Chunker.chunk_text content min_length max_length))
    end
  else (file_name f, []).

(** [read_content_files], from whether the directory exists and the files
    the two globs found.  [pool.map] returns its results in the order of its
    inputs, so the two branches collect the same way. *)
Definition read_content_files (dir_exists : bool) (all_files : list file)
    (parallel : bool) (PDF_AVAILABLE : bool) (min_length max_length : Z)
  : list chunk :=
  if negb dir_exists then []
  else if negb (truthy all_files) then []
  else if parallel && (len all_files >? 1) then
    let results :=
      map (fun f => process_file PDF_AVAILABLE f min_length max_length) all_files in
    fold_left (fun all_chunks result => all_chunks ++ snd result) results []
  else
    fold_left
      (fun all_chunks f =>
         all_chunks ++ snd (process_file PDF_AVAILABLE f min_length max_length))
      all_files [].

(** The chunks of a file: [chunk_text] of its content when the file is a
    [.txt] file that can be read or a [.pdf] file with PDF support, and none
    otherwise. *)
Definition file_chunks (PDF_AVAILABLE : bool) (f : file) (min_length max_length : Z)
  : list str :=
  match file_content f with
  | Ok content =>
      if bool_decide (file_suffix f = py ".txt")
         || (bool_decide (file_suffix f = py ".pdf") && PDF_AVAILABLE)
      then Chunker.chunk_text content min_length max_length
      else []
  | Err _ => []
  end.

(** *** Slices of consecutive batches *)

Lemma firstn_add_app {A} (a b : nat) (l : list A) :
  firstn (a + b) l = firstn a l ++ firstn b (skipn a l).
Proof.
  revert l. induction a as [|a IH]; intros l; simpl; [reflexivity|].
  destruct l as [|x l]; simpl; [rewrite firstn_nil; reflexivity|].
  rewrite IH. reflexivity.
Qed.

Lemma slice_nonneg {A} (l : list A) (lo hi : Z) :
  0 <= lo -> 0 <= hi ->
  slice l lo hi = firstn (Z.to_nat hi - Z.to_nat lo) (skipn (Z.to_nat lo) l).
Proof.
  intros Hlo Hhi. unfold slice, clamp_index, len.
  replace (lo <? 0) with false by (symmetry; apply Z.ltb_ge; lia).
  replace (hi <? 0) with false by (symmetry; apply Z.ltb_ge; lia).
  destruct (Z_le_gt_dec (Z.of_nat (length l)) lo) as [Hge|Hlt].
  - rewrite !(skipn_all2 l) by lia. rewrite !firstn_nil. reflexivity.
  - replace (Z.to_nat (Z.min lo (Z.of_nat (length l)))) with (Z.to_nat lo) by lia.
    destruct (Z_le_gt_dec (Z.of_nat (length l)) hi) as [Hge'|Hlt'].
    + rewrite !firstn_all2; [reflexivity | |]; rewrite length_skipn; lia.
    + f_equal. lia.
Qed.

Lemma concat_batches {A} (l : list A) (b cnt : nat) :
  concat (map (batch_at l b) (seq 0 cnt)) = firstn (cnt * b) l.
Proof.
  induction cnt as [|cnt IH]; [reflexivity|].
  rewrite seq_S, map_app, concat_app, IH. simpl.
  rewrite app_nil_r. unfold batch_at.
  rewrite <- firstn_add_app. f_equal. lia.
Qed.

Lemma batch_count_covers (n bs : Z) :
  0 <= n -> 0 < bs -> (Z.to_nat n <= batch_count n bs * Z.to_nat bs)%nat.
Proof.
  intros Hn Hbs. unfold batch_count.
  pose proof (Z.div_mod (n + bs - 1) bs ltac:(lia)) as E.
  pose proof (Z.mod_pos_bound (n + bs - 1) bs Hbs) as B.
  assert (0 <= (n + bs - 1) / bs) by (apply Z.div_pos; lia).
  nia.
Qed.

Lemma batch_count_inside (n bs : Z) (k : nat) :
  0 <= n -> 0 < bs -> (k < batch_count n bs)%nat -> Z.of_nat k * bs < n.
Proof.
  intros Hn Hbs Hk. unfold batch_count in Hk.
  pose proof (Z.div_mod (n + bs - 1) bs ltac:(lia)) as E.
  pose proof (Z.mod_pos_bound (n + bs - 1) bs Hbs) as B.
  assert (0 <= (n + bs - 1) / bs) by (apply Z.div_pos; lia).
  nia.
Qed.

Lemma range0_positive (n bs : Z) :
  0 < bs ->
  range0 n bs = Ok (map (fun k => Z.of_nat k * bs) (seq 0 (batch_count n bs))).
Proof.
  intros Hbs. unfold range0, batch_count.
  replace (bs =? 0) with false by (symmetry; apply Z.eqb_neq; lia).
  replace (bs >? 0) with true by (symmetry; apply Z.gtb_lt; lia).
  reflexivity.
Qed.

(** The slice the loop takes at index [k * batch_size] is batch [k]. *)
Lemma slice_batch {A} (l : list A) (bs : Z) (k : nat) :
  0 < bs ->
  slice l (Z.of_nat k * bs) (Z.of_nat k * bs + bs) = batch_at l (Z.to_nat bs) k.
Proof.
  intros Hbs. rewrite slice_nonneg by nia. unfold batch_at.
  f_equal; [nia | f_equal; nia].
Qed.

Lemma batches_partition {A} (l : list A) (bs : Z) :
  0 < bs ->
  concat (map (batch_at l (Z.to_nat bs)) (seq 0 (batch_count (len l) bs))) = l.
Proof.
  intros Hbs. rewrite concat_batches. apply firstn_all2.
  pose proof (batch_count_covers (len l) bs ltac:(unfold len; lia) Hbs).
  unfold len in *. lia.
Qed.


(** *** The records [process_file] builds *)

Lemma py_inj (s1 s2 : string) : py s1 = py s2 -> s1 = s2.
Proof.
  unfold py. intros H.
  rewrite <- (string_of_list_ascii_of_string s1),
          <- (string_of_list_ascii_of_string s2).
  f_equal. revert H.
  generalize (list_ascii_of_string s1) (list_ascii_of_string s2).
  induction l as [|a l IH]; intros [|b l']; simpl; try discriminate; [reflexivity|].
  intros [= Hab Hl]. f_equal; [|apply IH, Hl].
  rewrite <- (ascii_N_embedding a), <- (ascii_N_embedding b), Hab. reflexivity.
Qed.

Lemma str_of_nat_inj (i j : nat) : str_of_nat i = str_of_nat j -> i = j.
Proof.
  unfold str_of_nat. intros H. apply py_inj in H.
  apply (f_equal NilEmpty.uint_of_string) in H. rewrite !NilEmpty.usu in H.
  injection H as H. apply (f_equal Nat.of_uint) in H.
  rewrite !Unsigned.of_to in H. exact H.
Qed.

Lemma chunk_objects_lookup (f : file) (chunks : list str) :
  forall (start i : nat) (o : chunk),
    chunk_objects f start chunks !! i = Some o ->
    chunks !! i = Some (text o) /\
    source o = file_name f /\
    chunk_id o = file_stem f ++ py "_" ++ str_of_nat (start + i) /\
    chunk_length o = len (text o) /\
    file_type o = skipn 1 (file_suffix f) /\
    chunk_index o = Z.of_nat (start + i).
Proof.
  induction chunks as [|c chunks IH]; intros start i o; simpl.
  - rewrite lookup_nil. discriminate.
  - destruct i as [|i]; simpl.
    + intros [= <-]. simpl. rewrite Nat.add_0_r. repeat split.
    + intros H. apply IH in H. replace (start + S i)%nat with (S start + i)%nat by lia.
      exact H.
Qed.

Lemma map_text_chunk_objects (f : file) (chunks : list str) :
  forall start, map text (chunk_objects f start chunks) = chunks.
Proof.
  induction chunks as [|c chunks IH]; intros start; simpl; [|rewrite IH]; reflexivity.
Qed.

Lemma chunk_objects_ids (f : file) (chunks : list str) :
  forall start,
    List.NoDup (map chunk_id (chunk_objects f start chunks)).
Proof.
  induction chunks as [|c chunks IH]; intros start;
    cbn [chunk_objects map chunk_id]; constructor; [|apply IH].
  rewrite in_map_iff. intros [o [E Ho]].
  apply list_elem_of_In, list_elem_of_lookup in Ho as [i Hi].
  apply chunk_objects_lookup in Hi as [_ [_ [Hid _]]].
  rewrite Hid in E. apply app_inv_head, app_inv_head, str_of_nat_inj in E. lia.
Qed.

Lemma process_file_objects (pdf : bool) (f : file) (min_length max_length : Z) :
  process_file pdf f min_length max_length
  = (file_name f, chunk_objects f 0 (file_chunks pdf f min_length max_length)).
Proof.
  unfold process_file, file_chunks.
  destruct (decide (file_suffix f = py ".pdf")) as [E|E].
  - rewrite (bool_decide_eq_true_2 _ E).
    assert (E' : file_suffix f <> py ".txt") by (rewrite E; discriminate).
    rewrite (bool_decide_eq_false_2 _ E'). simpl.
    destruct pdf; simpl; [|destruct (file_content f); reflexivity].
    destruct (file_content f) as [content|e]; [|reflexivity].
    destruct content; reflexivity.
  - rewrite (bool_decide_eq_false_2 _ E). simpl. rewrite orb_false_r.
    destruct (bool_decide (file_suffix f = py ".txt"));
      destruct (file_content f); reflexivity.
Qed.

(** X10.  The texts of the records [process_file] returns are the chunks of
    the file's content, in order, for a [.txt] file that can be read and for
    a [.pdf] file when PDF support is there; a file of another type, a file
    that cannot be read and a [.pdf] file without PDF support give no record
    (and no exception). *)
Theorem process_file_texts (pdf : bool) (f : file) (min_length max_length : Z) :
  fst (process_file pdf f min_length max_length) = file_name f /\
  map text (snd (process_file pdf f min_length max_length))
  = match file_content f with
    | Ok content =>
        if bool_decide (file_suffix f = py ".txt")
           || (bool_decide (file_suffix f = py ".pdf") && pdf)
        then Chunker.chunk_text content min_length max_length
        else []
    | Err _ => []
    end.
Proof.
  rewrite process_file_objects. simpl. split; [reflexivity|].
  apply map_text_chunk_objects.
Qed.

(** X11.  In the records [process_file] returns for one file, the record at
    position [i] has [chunk_index] [i], the file's name as [source], the
    identifier [<stem>_<i>] and the length of its own text as [length]; no
    two records have the same [chunk_id]. *)
Theorem process_file_records (pdf : bool) (f : file) (min_length max_length : Z) :
  let records := snd (process_file pdf f min_length max_length) in
  List.NoDup (map chunk_id records) /\
  forall (i : nat) (o : chunk),
    records !! i = Some o ->
    chunk_index o = Z.of_nat i /\
    source o = file_name f /\
    chunk_id o = file_stem f ++ py "_" ++ str_of_nat i /\
    chunk_length o = len (text o).
Proof.
  rewrite process_file_objects. simpl. split; [apply chunk_objects_ids|].
  intros i o H. apply chunk_objects_lookup in H as [_ [H1 [H2 [H3 [_ H4]]]]].
  simpl in *. repeat split; assumption.
Qed.

Lemma read_content_files_flat_map (all_files : list file) (parallel pdf : bool)
    (min_length max_length : Z) :
  read_content_files true all_files parallel pdf min_length max_length
  = flat_map (fun f => snd (process_file pdf f min_length max_length)) all_files.
Proof.
  unfold read_content_files. simpl negb. cbv iota.
  assert (Hseq : forall l acc,
            fold_left
              (fun all_chunks f =>
                 all_chunks ++ snd (process_file pdf f min_length max_length))
              l acc
            = acc ++ flat_map (fun f => snd (process_file pdf f min_length max_length)) l).
  { induction l as [|f fs IH]; intros acc; simpl.
    - rewrite app_nil_r. reflexivity.
    - rewrite IH, <- List.app_assoc. reflexivity. }
  assert (Hpar : forall l acc,
            fold_left (fun all_chunks result => all_chunks ++ snd result)
              (map (fun f => process_file pdf f min_length max_length) l) acc
            = acc ++ flat_map (fun f => snd (process_file pdf f min_length max_length)) l).
  { induction l as [|f fs IH]; intros acc; simpl.
    - rewrite app_nil_r. reflexivity.
    - rewrite IH, <- List.app_assoc. reflexivity. }
  destruct all_files as [|f0 fs]; [reflexivity|].
  cbn [truthy negb].
  destruct (parallel && (len (f0 :: fs) >? 1)); [apply Hpar | apply Hseq].
Qed.

Section Provider.

(** The embedding provider: a float type, and what [model.encode] returns
    (or raises) for a batch of texts. *)
Variable flt : Type.
Definition vec : Type := list flt.

(** What the provider returns for one text: a row of the array that
    [SentenceTransformer.encode] returns, which has a [tolist] method, or
    a plain Python list, which has none. *)
Inductive embedding :=
| Array (v : vec)
| PyList (v : vec).

Variable encode : list str -> result (list embedding).

Record IndexSnapshot := Snapshot {
  texts : list str;
  embeddings : list vec;
  metadata : snapshot_metadata;
  chunks_metadata : list chunk
}.

(** The pieces [json.dump] writes for a snapshot, in order. *)
Variable json_chunks : IndexSnapshot -> list str.

(** The provider's state is the log of the batches it was asked to encode. *)
Definition call_encode (batch : list str) : M (list (list str)) (list embedding) :=
  fun log => (encode batch, log ++ [batch]).

(** [embedding.tolist()] *)
Definition tolist (e : embedding) : result vec :=
  match e with
  | Array v => Ok v
  | PyList _ => Err AttributeError
  end.

(** [[embedding.tolist() for embedding in all_embeddings]]: the first
    embedding without the method ends the comprehension. *)
Fixpoint tolist_all (all_embeddings : list embedding) : result (list vec) :=
  match all_embeddings with
  | [] => Ok []
  | e :: rest =>
      match tolist e with
      | Err x => Err x
      | Ok v =>
          match tolist_all rest with
          | Err x => Err x
          | Ok vs => Ok (v :: vs)
          end
      end
  end.

(** The body of [for i in range(0, len(texts), batch_size)]. *)
Definition embed_batch (texts : list str) (batch_size : Z)
    (all_embeddings : list embedding) (i : Z)
  : M (list (list str)) (list embedding) :=
  let batch_texts := slice texts i (i + batch_size) in
  let* batch_embeddings := call_encode batch_texts in
  ret (all_embeddings ++ batch_embeddings).

Definition create_embeddings_batch (chunks : list chunk) (batch_size : Z)
  : M (list (list str)) (list str * list vec) :=
  if negb (truthy chunks) then ret ([], [])
  else
    let texts := map text chunks in
    let* total_batches := lift (floordiv (len texts + batch_size - 1) batch_size) in
    let* indices := lift (range0 (len texts) batch_size) in
    let* all_embeddings := for_each indices (embed_batch texts batch_size) [] in
    let* embeddings_list := lift (tolist_all all_embeddings) in
    ret (texts, embeddings_list).

(** [sources[source] += 1], from 0 for a new source. *)
Definition count_sources (chunks_metadata : list chunk) : gmap str Z :=
  fold_left
    (fun sources chunk =>
       <[source chunk := default 0 (sources !! source chunk) + 1]> sources)
    chunks_metadata ∅.

(** The document [save_index] builds. *)
Definition index_data (texts : list str) (embeddings : list vec)
    (chunks_metadata : list chunk) : IndexSnapshot :=
  let chunk_lengths := map len texts in
  let sources := count_sources chunks_metadata in
  {| texts := texts;
     embeddings := embeddings;
     metadata :=
       {| model := py "all-MiniLM-L6-v2";
          total_chunks := len texts;
          embedding_dim := match embeddings with e :: _ => len e | [] => 0 end;
          stats :=
            {| min_chunk_length := min_or_0 chunk_lengths;
               max_chunk_length := max_or_0 chunk_lengths;
               total_sources := Z.of_nat (size sources);
               sources := sources |};
          version := py "7.0.0-local" |};
     chunks_metadata := chunks_metadata |}.

(** What [save_index] asks of the file system: it makes the directory of
    [output_path], opens [output_path] itself for writing and lets
    [json.dump] write the document into it. *)
Definition save_index (texts : list str) (embeddings : list vec)
    (chunks_metadata : list chunk) (output_path : str) : list fs_op :=
  [Makedirs (dirname output_path); OpenW output_path]
  ++ map (FWrite output_path) (json_chunks (index_data texts embeddings chunks_metadata))
  ++ [FClose output_path].


(** [main], from the chunks [read_content_files] returned: the snapshot
    handed to [save_index], if the run gets that far, and the files the run
    leaves.  No chunks: [main] returns before embedding.  An exception,
    of the provider or of [save_index]: [main] re-raises it. *)
Definition persisted_snapshot (chunks : list chunk) (batch_size : Z)
  : option IndexSnapshot :=
  if negb (truthy chunks) then None
  else
    match create_embeddings_batch chunks batch_size [] with
    | (Ok (texts, embeddings), _) => Some (index_data texts embeddings chunks)
    | (Err _, _) => None
    end.

Definition main (chunks : list chunk) (batch_size : Z) (output_path : str)
    (fs : gmap str str) : gmap str str :=
  if negb (truthy chunks) then fs
  else
    match create_embeddings_batch chunks batch_size [] with
    | (Ok (texts, embeddings), _) =>
        run_ops (save_index texts embeddings chunks output_path) fs
    | (Err _, _) => fs
    end.

(** How many of the chunk records come from source [s]. *)
Definition occurrences (s : str) (chunks_metadata : list chunk) : Z :=
  len (List.filter (fun c => bool_decide (source c = s)) chunks_metadata).


(** *** The embedding loop *)

Lemma embed_loop_ok (texts : list str) (batch_size : Z) (indices : list Z) :
  forall acc log embs log',
    for_each indices (embed_batch texts batch_size) acc log = (Ok embs, log') ->
    exists answers,
      Forall2 (fun i vs => encode (slice texts i (i + batch_size)) = Ok vs)
        indices answers /\
      embs = acc ++ concat answers /\
      log' = log ++ map (fun i => slice texts i (i + batch_size)) indices.
Proof.
  induction indices as [|i rest IH]; intros acc log embs log'; simpl.
  - unfold ret. intros [= <- <-]. exists [].
    rewrite !app_nil_r. repeat split. constructor.
  - unfold bind at 1, embed_batch at 1, bind at 1, call_encode.
    destruct (encode (slice texts i (i + batch_size))) as [vs|e] eqn:E;
      [|discriminate].
    unfold ret at 1. intros H. apply IH in H as [answers [HF [-> ->]]].
    exists (vs :: answers). split; [constructor; assumption|].
    simpl. rewrite <- !List.app_assoc. split; reflexivity.
Qed.



(** *** The conversion to lists *)


Lemma tolist_all_ok (l : list embedding) (vs : list vec) :
  tolist_all l = Ok vs -> l = map Array vs.
Proof.
  revert vs. induction l as [|e l IH]; intros vs; simpl.
  - intros [= <-]. reflexivity.
  - destruct e as [v|v]; simpl; [|discriminate].
    destruct (tolist_all l) as [vs'|x]; [|discriminate].
    intros [= <-]. simpl. rewrite (IH vs' eq_refl). reflexivity.
Qed.

Lemma arrays_concat (ess : list (list embedding)) :
  forall embs : list vec,
    concat ess = map Array embs ->
    exists vss : list (list vec), ess = map (map Array) vss /\ embs = concat vss.
Proof.
  induction ess as [|es ess IH]; intros embs; simpl.
  - intros E. symmetry in E. apply map_eq_nil in E. subst embs.
    exists []. split; reflexivity.
  - intros E. symmetry in E. apply map_eq_app in E as [vs [rest [-> [<- E]]]].
    symmetry in E. destruct (IH rest E) as [vss [-> ->]].
    exists (vs :: vss). split; reflexivity.
Qed.

(** *** What [create_embeddings_batch] returns *)

Lemma create_embeddings_batch_unfold (chunks : list chunk) (batch_size : Z)
    (log : list (list str)) :
  0 < batch_size -> chunks <> [] ->
  create_embeddings_batch chunks batch_size log =
  match for_each (map (fun k => Z.of_nat k * batch_size)
                    (seq 0 (batch_count (len (map text chunks)) batch_size)))
          (embed_batch (map text chunks) batch_size) [] log with
  | (Ok all_embeddings, log') =>
      (match tolist_all all_embeddings with
       | Ok embeddings_list => Ok (map text chunks, embeddings_list)
       | Err e => Err e
       end, log')
  | (Err e, log') => (Err e, log')
  end.
Proof.
  intros Hbs Hne. unfold create_embeddings_batch.
  destruct chunks as [|c chunks]; [congruence|].
  cbn [truthy negb]. unfold bind, lift, floordiv.
  replace (batch_size =? 0) with false by (symmetry; apply Z.eqb_neq; lia).
  rewrite (range0_positive _ _ Hbs).
  destruct (for_each _ _ _ _) as [[a|e] s']; [|reflexivity].
  destruct (tolist_all a); reflexivity.
Qed.

(** The run of [create_embeddings_batch] for a positive [batch_size], when
    it returns: the provider was called on batch 0, 1, ... in turn, it
    answered with arrays, and the embeddings are its answers, concatenated. *)
Lemma create_embeddings_batch_ok (chunks : list chunk) (batch_size : Z)
    (texts' : list str) (embs : list vec) (calls : list (list str)) :
  0 < batch_size ->
  create_embeddings_batch chunks batch_size [] = (Ok (texts', embs), calls) ->
  texts' = map text chunks /\
  calls = map (batch_at (map text chunks) (Z.to_nat batch_size))
            (seq 0 (length calls)) /\
  (length calls <= batch_count (len (map text chunks)) batch_size)%nat /\
  concat calls = map text chunks /\
  exists answers : list (list vec),
    Forall2 (fun batch vs => encode batch = Ok (map Array vs)) calls answers /\
    embs = concat answers.
Proof.
  intros Hbs.
  destruct chunks as [|c chunks].
  { unfold create_embeddings_batch, ret. intros [= <- <- <-]. simpl.
    split; [reflexivity|]. split; [reflexivity|]. split; [lia|].
    split; [reflexivity|]. exists []. split; [constructor | reflexivity]. }
  rewrite create_embeddings_batch_unfold by (trivial; discriminate).
  set (texts := map text (c :: chunks)).
  match goal with
  | |- context [for_each ?l ?f ?a ?s] =>
      destruct (for_each l f a s) as [[all_embeddings|e] log'] eqn:Eloop
  end; [|discriminate].
  destruct (tolist_all all_embeddings) as [embeddings_list|e] eqn:Elist;
    [|discriminate].
  intros [= <- <- <-].
  apply embed_loop_ok in Eloop as [answers0 [HF0 [-> ->]]].
  apply tolist_all_ok in Elist. simpl in Elist.
  destruct (arrays_concat _ _ Elist) as [answers [-> ->]].
  assert (HF : Forall2
                 (fun i vs => encode (slice texts i (i + batch_size)) = Ok (map Array vs))
                 (map (fun k => Z.of_nat k * batch_size)
                    (seq 0 (batch_count (len texts) batch_size))) answers).
  { apply Forall2_fmap_r in HF0. exact HF0. }
  clear HF0 Elist.
  simpl. rewrite map_map.
  assert (Ecalls :
    map (fun k : nat =>
           slice texts (Z.of_nat k * batch_size) (Z.of_nat k * batch_size + batch_size))
        (seq 0 (batch_count (len texts) batch_size))
    = map (batch_at texts (Z.to_nat batch_size))
        (seq 0 (batch_count (len texts) batch_size))).
  { apply map_ext. intros k. apply slice_batch, Hbs. }
  rewrite Ecalls, length_map, length_seq.
  repeat split; trivial.
  - apply batches_partition, Hbs.
  - exists answers. split.
    + rewrite <- Ecalls. apply Forall2_fmap_l.
      apply Forall2_fmap_l in HF. exact HF.
    + reflexivity.
Qed.


(** C2 (as amended).  With a [batch_size] that is not negative and a
    provider that returns one vector per text, a run that gets as far as
    writing a snapshot writes one whose [texts], [embeddings] and
    [chunks_metadata] have the same length.  (With [batch_size = 0] no run
    gets that far.) *)
Theorem persisted_snapshot_aligned (chunks : list chunk) (batch_size : Z)
    (snap : IndexSnapshot) :
  0 <= batch_size ->
  (forall batch vs, encode batch = Ok vs -> length vs = length batch) ->
  persisted_snapshot chunks batch_size = Some snap ->
  length (texts snap) = length (embeddings snap) /\
  length (embeddings snap) = length (chunks_metadata snap).
Proof.
  intros Hbs0 Hprov. unfold persisted_snapshot.
  destruct (negb (truthy chunks)) eqn:Hchunks; [discriminate|].
  destruct (Z.eq_dec batch_size 0) as [->|Hnz].
  { unfold create_embeddings_batch. rewrite Hchunks.
    unfold bind, lift, floordiv. simpl. discriminate. }
  assert (Hbs : 0 < batch_size) by lia.
  destruct (create_embeddings_batch chunks batch_size [])
    as [[[texts' embs]|e] calls] eqn:Erun; [|discriminate].
  intros [= <-]. simpl.
  destruct (create_embeddings_batch_ok _ _ _ _ _ Hbs Erun)
    as [-> [_ [_ [Hconcat [answers [HF ->]]]]]].
  assert (Hlen : length (concat answers) = length chunks).
  { rewrite <- (length_map text chunks), <- Hconcat.
    clear -HF Hprov. induction HF as [|b vs bs vss E _ IH]; simpl; [reflexivity|].
    pose proof (Hprov _ _ E) as Hl. rewrite length_map in Hl.
    rewrite !length_app, IH, Hl. reflexivity. }
  rewrite length_map. lia.
Qed.

(** *** What [save_index] does to the output file *)

Lemma run_app (ops1 ops2 : list fs_op) :
  forall fs,
    run (ops1 ++ ops2) fs
    = match run ops1 fs with
      | (Ok _, fs') => run ops2 fs'
      | (Err e, fs') => (Err e, fs')
      end.
Proof.
  induction ops1 as [|op ops1 IH]; intros fs; simpl; [reflexivity|].
  destruct (apply_op fs op) as [fs'|e]; [apply IH | reflexivity].
Qed.

Lemma nonempty_truthy {A} (l : list A) : l <> [] -> truthy l = true.
Proof. destruct l; [congruence | reflexivity]. Qed.

Lemma run_writes (path : str) (pieces : list str) :
  forall (content : str) (fs : gmap str str),
    run (map (FWrite path) pieces) (<[path := content]> fs)
    = (Ok tt, <[path := content ++ concat pieces]> fs).
Proof.
  induction pieces as [|d pieces IH]; intros content fs; simpl.
  - rewrite app_nil_r. reflexivity.
  - rewrite alter_insert_eq, IH, <- List.app_assoc. reflexivity.
Qed.



(** An execution that runs to its end leaves the whole document. *)
Lemma save_index_result (texts : list str) (embs : list vec)
    (chunks_metadata : list chunk) (output_path : str) (fs : gmap str str) :
  dirname output_path <> [] ->
  run (save_index texts embs chunks_metadata output_path) fs
  = (Ok tt,
     <[output_path := concat (json_chunks (index_data texts embs chunks_metadata))]> fs).
Proof.
  intros Hdir. unfold save_index. cbn [app run apply_op].
  rewrite (nonempty_truthy _ Hdir), run_app, run_writes. reflexivity.
Qed.

Lemma save_index_final_state (texts : list str) (embs : list vec)
    (chunks_metadata : list chunk) (output_path : str) (fs : gmap str str) :
  dirname output_path <> [] ->
  run_ops (save_index texts embs chunks_metadata output_path) fs
  = <[output_path := concat (json_chunks (index_data texts embs chunks_metadata))]> fs.
Proof.
  intros Hdir. unfold run_ops. rewrite save_index_result by exact Hdir. reflexivity.
Qed.

(** Without a directory part in the path, [os.makedirs] raises and no
    request reaches the files. *)
Lemma save_index_no_directory (texts : list str) (embs : list vec)
    (chunks_metadata : list chunk) (output_path : str) (fs : gmap str str) :
  dirname output_path = [] ->
  run (save_index texts embs chunks_metadata output_path) fs
  = (Err FileNotFoundError, fs) /\
  forall k, run_ops (firstn k (save_index texts embs chunks_metadata output_path)) fs
            = fs.
Proof.
  intros Hdir. unfold save_index. rewrite Hdir. split; [reflexivity|].
  intros [|k]; reflexivity.
Qed.

(** What [main] leaves at the output path is the document of the snapshot
    [persisted_snapshot] names, when the path has a directory part, and
    nothing is written otherwise, or when there is no snapshot. *)
Lemma main_writes_persisted_snapshot (chunks : list chunk) (batch_size : Z)
    (output_path : str) (fs : gmap str str) :
  main chunks batch_size output_path fs =
  match persisted_snapshot chunks batch_size with
  | Some snap =>
      if truthy (dirname output_path)
      then <[output_path := concat (json_chunks snap)]> fs
      else fs
  | None => fs
  end.
Proof.
  unfold main, persisted_snapshot.
  destruct (negb (truthy chunks)); [reflexivity|].
  destruct (create_embeddings_batch chunks batch_size []) as [[[t e]|e] calls];
    [|reflexivity].
  destruct (dirname output_path) as [|c d] eqn:Hdir.
  - unfold run_ops.
    rewrite (proj1 (save_index_no_directory t e chunks output_path fs Hdir)).
    reflexivity.
  - apply save_index_final_state. rewrite Hdir. discriminate.
Qed.



(** *** A batch size that is not positive *)

Lemma range0_negative (n bs : Z) : 0 < n -> bs < 0 -> range0 n bs = Ok [].
Proof.
  intros Hn Hbs. unfold range0.
  replace (bs =? 0) with false by (symmetry; apply Z.eqb_neq; lia).
  replace (bs >? 0) with false by (symmetry; rewrite Z.gtb_ltb; apply Z.ltb_ge; lia).
  assert (Hq : (- n + - bs - 1) / - bs <= 0).
  { destruct (Z_lt_le_dec (- n + - bs - 1) 0) as [Hneg|Hpos].
    - assert ((- n + - bs - 1) / - bs < 0) by (apply Z.div_lt_upper_bound; lia). lia.
    - rewrite Z.div_small by lia. lia. }
  replace (Z.to_nat ((- n + - bs - 1) / - bs)) with 0%nat by lia.
  reflexivity.
Qed.

(** X4.  For chunks that are not empty and a [batch_size] that is not
    positive, [create_embeddings_batch] never calls the provider: with
    [batch_size = 0] it raises [ZeroDivisionError], and with a negative
    [batch_size] it returns all the texts and no embedding at all. *)
Theorem create_embeddings_batch_nonpositive (chunks : list chunk) (batch_size : Z)
    (log : list (list str)) :
  chunks <> [] -> batch_size <= 0 ->
  create_embeddings_batch chunks batch_size log
  = (if batch_size =? 0 then Err ZeroDivisionError
     else Ok (map text chunks, []), log).
Proof.
  intros Hne Hbs. unfold create_embeddings_batch.
  destruct chunks as [|c chunks]; [congruence|].
  cbn [truthy negb]. unfold bind, lift, floordiv.
  destruct (Z.eqb_spec batch_size 0) as [E|E]; [reflexivity|].
  rewrite range0_negative; [reflexivity | unfold len; simpl; lia | lia].
Qed.

(** *** A provider that fails *)

Lemma embed_loop_raises (texts : list str) (batch_size : Z)
    (before after : list Z) (i : Z) (e : exn) :
  (forall j, In j before -> exists vs, encode (slice texts j (j + batch_size)) = Ok vs) ->
  encode (slice texts i (i + batch_size)) = Err e ->
  forall acc log,
    for_each (before ++ i :: after) (embed_batch texts batch_size) acc log
    = (Err e, log ++ map (fun j => slice texts j (j + batch_size)) (before ++ [i])).
Proof.
  intros Hbefore Hi. induction before as [|j before IH]; intros acc log; simpl.
  - unfold bind at 1, embed_batch at 1, bind at 1, call_encode.
    rewrite Hi. reflexivity.
  - unfold bind at 1, embed_batch at 1, bind at 1, call_encode.
    destruct (Hbefore j (or_introl eq_refl)) as [vs ->]. unfold ret at 1.
    rewrite IH by (intros; apply Hbefore; right; assumption).
    rewrite <- List.app_assoc. reflexivity.
Qed.

(** X5.  For a positive [batch_size]: when the provider answers batches
    [0 .. k-1] and raises on batch [k], [create_embeddings_batch] raises
    that exception; the provider was called on batches [0 .. k] and on no
    other (no retry, no later batch); [main] hands nothing to [save_index]
    and leaves every file as it was. *)
Theorem create_embeddings_batch_provider_failure (chunks : list chunk)
    (batch_size : Z) (k : nat) (e : exn) (output_path : str) (fs : gmap str str) :
  0 < batch_size ->
  (k < batch_count (len (map text chunks)) batch_size)%nat ->
  (forall j, (j < k)%nat ->
     exists vs, encode (batch_at (map text chunks) (Z.to_nat batch_size) j) = Ok vs) ->
  encode (batch_at (map text chunks) (Z.to_nat batch_size) k) = Err e ->
  create_embeddings_batch chunks batch_size []
  = (Err e, map (batch_at (map text chunks) (Z.to_nat batch_size)) (seq 0 (S k))) /\
  persisted_snapshot chunks batch_size = None /\
  main chunks batch_size output_path fs = fs.
Proof.
  intros Hbs Hk Hok Hfail.
  assert (Hne : chunks <> []).
  { intros ->. unfold batch_count, len in Hk. simpl in Hk.
    rewrite Z.div_small in Hk by lia. simpl in Hk. lia. }
  assert (Erun : create_embeddings_batch chunks batch_size []
                 = (Err e, map (batch_at (map text chunks) (Z.to_nat batch_size))
                             (seq 0 (S k)))).
  { rewrite create_embeddings_batch_unfold by assumption.
    set (texts := map text chunks) in *.
    set (n := batch_count (len texts) batch_size) in *.
    set (ix := fun j : nat => Z.of_nat j * batch_size).
    assert (Esplit : seq 0 n = seq 0 k ++ k :: seq (S k) (n - S k)).
    { replace n with (k + S (n - S k))%nat at 1 by lia.
      rewrite seq_app. reflexivity. }
    rewrite Esplit, map_app, List.map_cons.
    rewrite (embed_loop_raises texts batch_size (map ix (seq 0 k))
               (map ix (seq (S k) (n - S k))) (ix k) e).
    - rewrite app_nil_l.
      change (map ix (seq 0 k) ++ [ix k]) with (map ix (seq 0 k) ++ map ix [k]).
      rewrite <- map_app, map_map.
      replace (seq 0 k ++ [k]) with (seq 0 (S k)) by (rewrite seq_S; reflexivity).
      f_equal. apply map_ext. intros j. apply slice_batch, Hbs.
    - intros j Hj. apply in_map_iff in Hj as [j' [<- Hj']].
      apply in_seq in Hj'. unfold ix. rewrite slice_batch by exact Hbs.
      apply Hok. lia.
    - unfold ix. rewrite slice_batch by exact Hbs. exact Hfail. }
  split; [exact Erun|].
  unfold persisted_snapshot, main. rewrite Erun.
  destruct (negb (truthy chunks)); split; reflexivity.
Qed.

(** *** How many calls, and how full the batches are *)

Lemma create_embeddings_batch_calls (chunks : list chunk) (batch_size : Z)
    (texts' : list str) (embs : list vec) (calls : list (list str)) :
  0 < batch_size -> chunks <> [] ->
  create_embeddings_batch chunks batch_size [] = (Ok (texts', embs), calls) ->
  calls = map (batch_at (map text chunks) (Z.to_nat batch_size))
            (seq 0 (batch_count (len (map text chunks)) batch_size)).
Proof.
  intros Hbs Hne. rewrite create_embeddings_batch_unfold by assumption.
  match goal with
  | |- context [for_each ?l ?f ?a ?s] =>
      destruct (for_each l f a s) as [[all_embeddings|e] log'] eqn:Eloop
  end; [|discriminate].
  destruct (tolist_all all_embeddings); [|discriminate].
  intros [= _ _ <-].
  apply embed_loop_ok in Eloop as [answers [_ [_ ->]]].
  simpl. rewrite map_map. apply map_ext. intros j. apply slice_batch, Hbs.
Qed.

(** X6.  When [create_embeddings_batch] returns for a positive [batch_size]
    and chunks that are not empty, the provider was called once per batch,
    [(len(texts) + batch_size - 1) // batch_size] times in all, and every
    batch but the last holds exactly [batch_size] texts. *)
Theorem create_embeddings_batch_call_count (chunks : list chunk) (batch_size : Z)
    (texts' : list str) (embs : list vec) (calls : list (list str)) :
  0 < batch_size -> chunks <> [] ->
  create_embeddings_batch chunks batch_size [] = (Ok (texts', embs), calls) ->
  len calls = (len chunks + batch_size - 1) / batch_size /\
  (forall (k : nat) (batch : list str),
     (S k < length calls)%nat -> calls !! k = Some batch -> len batch = batch_size).
Proof.
  intros Hbs Hne Hrun.
  pose proof (create_embeddings_batch_calls _ _ _ _ _ Hbs Hne Hrun) as Ecalls.
  set (texts := map text chunks) in *.
  assert (Hlen : length calls = batch_count (len texts) batch_size)
    by (rewrite Ecalls, length_map, length_seq; reflexivity).
  assert (Hn : len texts = len chunks)
    by (unfold len, texts; rewrite length_map; reflexivity).
  split.
  - unfold len at 1. rewrite Hlen. unfold batch_count. rewrite Hn.
    apply Z2Nat.id, Z.div_pos; unfold len; lia.
  - intros k batch Hk Hb. rewrite Hlen in Hk.
    rewrite Ecalls in Hb. rewrite list_lookup_fmap in Hb.
    rewrite lookup_seq_lt in Hb by lia. simpl in Hb. injection Hb as <-.
    pose proof (batch_count_inside (len texts) batch_size (S k)
                  ltac:(unfold len; lia) Hbs Hk) as Hin.
    unfold batch_at, len in *. rewrite length_firstn, length_skipn. nia.
Qed.

(** *** The statistics of a snapshot *)

Lemma occurrences_nonneg (s : str) (l : list chunk) : 0 <= occurrences s l.
Proof. unfold occurrences, len. lia. Qed.

Lemma occurrences_pos (s : str) (l : list chunk) :
  0 < occurrences s l <-> In s (map source l).
Proof.
  unfold occurrences, len. induction l as [|c l IH]; simpl; [split; [lia | intros []]|].
  destruct (decide (source c = s)) as [E|E].
  - rewrite bool_decide_eq_true_2 by exact E. simpl. split; [left; exact E | lia].
  - rewrite bool_decide_eq_false_2 by exact E. rewrite IH.
    split; [right; assumption | intros [?|?]; [contradiction | assumption]].
Qed.

Lemma count_sources_fold (l : list chunk) :
  forall (m : gmap str Z) (s : str),
    default 0
      (fold_left
         (fun sources chunk =>
            <[source chunk := default 0 (sources !! source chunk) + 1]> sources)
         l m !! s)
    = default 0 (m !! s) + occurrences s l.
Proof.
  unfold occurrences, len.
  induction l as [|c l IH]; intros m s; simpl; [lia|].
  rewrite IH. destruct (decide (source c = s)) as [E|E].
  - rewrite bool_decide_eq_true_2 by exact E. subst s.
    rewrite lookup_insert_eq. simpl. lia.
  - rewrite bool_decide_eq_false_2 by exact E.
    rewrite lookup_insert_ne by exact E. reflexivity.
Qed.

Lemma count_sources_keys (l : list chunk) :
  forall (m : gmap str Z) (s : str),
    is_Some
      (fold_left
         (fun sources chunk =>
            <[source chunk := default 0 (sources !! source chunk) + 1]> sources)
         l m !! s)
    <-> is_Some (m !! s) \/ In s (map source l).
Proof.
  induction l as [|c l IH]; intros m s; simpl.
  - split; [left; assumption | intros [?|[]]; assumption].
  - rewrite IH. destruct (decide (source c = s)) as [E|E].
    + subst s. rewrite lookup_insert_eq. split; [right; left; reflexivity|].
      intros _. left. eexists. reflexivity.
    + rewrite lookup_insert_ne by exact E.
      split; intros [H|H]; auto. destruct H as [H|H]; [contradiction | auto].
Qed.

(** X7.  The [sources] table [save_index] builds has an entry for exactly
    the sources that occur among the chunk records, and the entry of a
    source is the number of records that come from it. *)
Theorem count_sources_counts (chunks_metadata : list chunk) (s : str) :
  (In s (map source chunks_metadata) ->
   count_sources chunks_metadata !! s = Some (occurrences s chunks_metadata) /\
   0 < occurrences s chunks_metadata) /\
  (~ In s (map source chunks_metadata) ->
   count_sources chunks_metadata !! s = None).
Proof.
  unfold count_sources.
  pose proof (count_sources_fold chunks_metadata ∅ s) as Hval.
  pose proof (count_sources_keys chunks_metadata ∅ s) as Hkey.
  rewrite lookup_empty in Hval, Hkey. simpl in Hval.
  split.
  - intros Hin. split; [|apply occurrences_pos, Hin].
    destruct (proj2 Hkey (or_intror Hin)) as [n Hn].
    rewrite Hn in Hval |- *. simpl in Hval. f_equal. lia.
  - intros Hout.
    match goal with |- ?m !! s = None => destruct (m !! s) as [n|] eqn:Hn end;
      [|reflexivity].
    exfalso. destruct (proj1 Hkey (ex_intro _ n eq_refl)) as [[x Hx]|Hin];
      [discriminate | contradiction].
Qed.

Lemma fold_min_le (l : list Z) :
  forall x, fold_left Z.min l x <= x /\
            List.Forall (fun y => fold_left Z.min l x <= y) l /\
            In (fold_left Z.min l x) (x :: l).
Proof.
  induction l as [|y l IH]; intros x; simpl.
  - repeat split; [lia | constructor | left; reflexivity].
  - destruct (IH (Z.min x y)) as [H1 [H2 H3]]. repeat split.
    + lia.
    + constructor; [lia | exact H2].
    + destruct H3 as [H3|H3]; [|right; right; exact H3].
      rewrite <- H3. destruct (Z.min_spec x y) as [[_ ->]|[_ ->]]; auto.
Qed.

Lemma fold_max_ge (l : list Z) :
  forall x, x <= fold_left Z.max l x /\
            List.Forall (fun y => y <= fold_left Z.max l x) l /\
            In (fold_left Z.max l x) (x :: l).
Proof.
  induction l as [|y l IH]; intros x; simpl.
  - repeat split; [lia | constructor | left; reflexivity].
  - destruct (IH (Z.max x y)) as [H1 [H2 H3]]. repeat split.
    + lia.
    + constructor; [lia | exact H2].
    + destruct H3 as [H3|H3]; [|right; right; exact H3].
      rewrite <- H3. destruct (Z.max_spec x y) as [[_ ->]|[_ ->]]; auto.
Qed.

(** X8.  In the document [save_index] builds, [total_chunks] is the number
    of texts, every text's length lies between [min_chunk_length] and
    [max_chunk_length], both of which are the length of some text when there
    is one (and are 0 when there is none), and [embedding_dim] is the length
    of the first embedding (0 without embeddings). *)
Theorem index_data_statistics (texts : list str) (embeddings : list vec)
    (chunks_metadata : list chunk) :
  let md := metadata (index_data texts embeddings chunks_metadata) in
  total_chunks md = len texts /\
  List.Forall (fun t => min_chunk_length (stats md) <= len t <= max_chunk_length (stats md))
    texts /\
  (texts = [] -> min_chunk_length (stats md) = 0 /\ max_chunk_length (stats md) = 0) /\
  (texts <> [] ->
   (exists t, In t texts /\ len t = min_chunk_length (stats md)) /\
   (exists t, In t texts /\ len t = max_chunk_length (stats md))) /\
  embedding_dim md = match embeddings with e :: _ => len e | [] => 0 end.
Proof.
  simpl. split; [reflexivity|].
  destruct texts as [|t0 texts]; simpl.
  { repeat split; try reflexivity; [constructor | congruence | congruence]. }
  destruct (fold_min_le (map len texts) (len t0)) as [Hm1 [Hm2 Hm3]].
  destruct (fold_max_ge (map len texts) (len t0)) as [HM1 [HM2 HM3]].
  split; [|split; [discriminate | split; [|reflexivity]]].
  - constructor; [lia|].
    rewrite List.Forall_forall in *. intros t Ht.
    pose proof (Hm2 (len t) (in_map _ _ _ Ht)).
    pose proof (HM2 (len t) (in_map _ _ _ Ht)). lia.
  - intros _. split.
    + change (len t0 :: map len texts) with (map len (t0 :: texts)) in Hm3.
      apply in_map_iff in Hm3 as [t [E Ht]]. exists t. split; [exact Ht | exact E].
    + change (len t0 :: map len texts) with (map len (t0 :: texts)) in HM3.
      apply in_map_iff in HM3 as [t [E Ht]]. exists t. split; [exact Ht | exact E].
Qed.

(** X9.  A snapshot is a full replacement: writing a second snapshot to the
    same path over a first one leaves the files exactly as writing the
    second alone does. *)
Theorem save_index_replaces (texts1 texts2 : list str) (embs1 embs2 : list vec)
    (chunks1 chunks2 : list chunk) (output_path : str) (fs : gmap str str) :
  run_ops (save_index texts2 embs2 chunks2 output_path)
    (run_ops (save_index texts1 embs1 chunks1 output_path) fs)
  = run_ops (save_index texts2 embs2 chunks2 output_path) fs.
Proof.
  destruct (dirname output_path) as [|c d] eqn:Hdir.
  - unfold run_ops.
    rewrite !(proj1 (save_index_no_directory _ _ _ output_path _ Hdir)).
    reflexivity.
  - rewrite !save_index_final_state by (rewrite Hdir; discriminate).
    apply insert_insert_eq.
Qed.

(** *** From the files to the snapshot *)

(** X12.  For a positive [batch_size] and a provider that returns one vector
    per text: the snapshot a run over the files of an existing content
    directory writes has, as texts, the chunks of the first file, then those
    of the second, and so on, in the order of the files (sequential or
    parallel), the records of [process_file] as chunk metadata, and one
    embedding per text. *)
Theorem snapshot_of_files (all_files : list file) (parallel pdf : bool)
    (min_length max_length batch_size : Z) (snap : IndexSnapshot) :
  0 < batch_size ->
  (forall batch vs, encode batch = Ok vs -> length vs = length batch) ->
  persisted_snapshot
    (read_content_files true all_files parallel pdf min_length max_length)
    batch_size = Some snap ->
  texts snap = flat_map (fun f => file_chunks pdf f min_length max_length) all_files /\
  chunks_metadata snap
  = flat_map (fun f => snd (process_file pdf f min_length max_length)) all_files /\
  length (embeddings snap) = length (texts snap).
Proof.
  intros Hbs Hprov. rewrite read_content_files_flat_map.
  set (chunks := flat_map _ all_files).
  unfold persisted_snapshot.
  destruct (negb (truthy chunks)); [discriminate|].
  destruct (create_embeddings_batch chunks batch_size [])
    as [[[texts' embs]|e] calls] eqn:Erun; [|discriminate].
  intros [= <-]. simpl.
  destruct (create_embeddings_batch_ok _ _ _ _ _ Hbs Erun)
    as [-> [_ [_ [Hconcat [answers [HF ->]]]]]].
  split; [|split; [reflexivity|]].
  - subst chunks. clear. induction all_files as [|f fs IH]; simpl; [reflexivity|].
    rewrite map_app, IH, process_file_objects. simpl.
    rewrite map_text_chunk_objects. reflexivity.
  - rewrite <- Hconcat.
    clear -HF Hprov. induction HF as [|b vs bs vss E _ IH]; simpl; [reflexivity|].
    pose proof (Hprov _ _ E) as Hl. rewrite length_map in Hl.
    rewrite !length_app, IH, Hl. reflexivity.
Qed.

End Provider.

(** *** Two stand-ins for the provider *)

(** [MockModel.encode] of [tests/test_chunk_and_embed.py]: the plain list
    [[0.1, 0.2, 0.3]] for every text. *)
Definition mock_encode (batch : list str) : result (list (embedding Q)) :=
  Ok (map (fun _ => PyList Q [1 # 10; 2 # 10; 3 # 10]%Q) batch).

(** A provider that answers as the model does, with an array: the row
    [[0.1, 0.2, 0.3]] for every text. *)
Definition array_encode (batch : list str) : result (list (embedding Q)) :=
  Ok (map (Array Q) (map (fun _ => [1 # 10; 2 # 10; 3 # 10]%Q) batch)).

Definition sample_chunk (t : string) (i : Z) : chunk :=
  {| text := py t; source := py "test.txt"; chunk_id := py "test";
     chunk_length := len (py t); file_type := py "txt"; chunk_index := i |}.

Definition sample_chunks : list chunk :=
  [sample_chunk "First test chunk" 0; sample_chunk "Second test chunk" 1;
   sample_chunk "Third test chunk" 2].

(** A provider that fails on the batch holding the third sample text. *)
Definition flaky_encode (batch : list str) : result (list (embedding Q)) :=
  if bool_decide (py "Third test chunk" ∈ batch) then Err ProviderError
  else array_encode batch.

Definition sample_files : list file :=
  [ {| file_name := py "test1.txt"; file_stem := py "test1"; file_suffix := py ".txt";
       file_content := Ok (py ("First document content." ++ Chunker.nl ++ Chunker.nl ++
                                "Second paragraph in first document.")) |};
    {| file_name := py "notes.md"; file_stem := py "notes"; file_suffix := py ".md";
       file_content := Ok (py "Not a supported type, whatever it holds.") |};
    {| file_name := py "test2.txt"; file_stem := py "test2"; file_suffix := py ".txt";
       file_content := Ok (py "Another paragraph in second document.") |} ].

(** A stand-in for the JSON encoder: a brace, the texts, a brace. *)
Definition brace_chunks (snap : IndexSnapshot Q) : list str :=
  [py "{"] ++ texts Q snap ++ [py "}"].


Lemma array_encode_lengths (batch : list str) (es : list (embedding Q)) :
  array_encode batch = Ok es -> length es = length batch.
Proof. intros [= <-]. rewrite !length_map. reflexivity. Defined.

Example dirname_examples :
  dirname (py "embeddings/index.json") = py "embeddings" /\
  dirname (py "index.json") = [] /\
  dirname (py "/index.json") = py "/" /\
  dirname (py "out//index.json") = py "out" /\
  dirname (py "a/b/index.json") = py "a/b".
Proof. repeat split; reflexivity. Qed.

(** With the mock of the repository's test the call does not return: both
    batches are encoded, and the conversion of the first plain list raises. *)
Example test_create_embeddings_batch_structure :
  create_embeddings_batch Q mock_encode sample_chunks 2 []
  = (Err AttributeError,
     [[py "First test chunk"; py "Second test chunk"]; [py "Third test chunk"]]).
Proof. vm_compute. reflexivity. Qed.

Example create_embeddings_batch_arrays :
  create_embeddings_batch Q array_encode sample_chunks 2 []
  = (Ok (map text sample_chunks,
         [[1 # 10; 2 # 10; 3 # 10]; [1 # 10; 2 # 10; 3 # 10]; [1 # 10; 2 # 10; 3 # 10]]%Q),
     [[py "First test chunk"; py "Second test chunk"]; [py "Third test chunk"]]).
Proof. vm_compute. reflexivity. Qed.

Example test_create_embeddings_empty_chunks :
  create_embeddings_batch Q (fun _ => Ok []) [] 2 [] = (Ok ([], []), []).
Proof. reflexivity. Qed.


Lemma persisted_snapshot_aligned_witness :
  persisted_snapshot Q array_encode sample_chunks 2
    = Some (index_data Q (map text sample_chunks)
              (map (fun _ => [1 # 10; 2 # 10; 3 # 10]%Q) sample_chunks)
              sample_chunks) /\
  length (texts Q (index_data Q (map text sample_chunks)
              (map (fun _ => [1 # 10; 2 # 10; 3 # 10]%Q) sample_chunks)
              sample_chunks)) = 3%nat /\
  length (embeddings Q (index_data Q (map text sample_chunks)
              (map (fun _ => [1 # 10; 2 # 10; 3 # 10]%Q) sample_chunks)
              sample_chunks)) = 3%nat.
Proof.
  assert (E : persisted_snapshot Q array_encode sample_chunks 2
              = Some (index_data Q (map text sample_chunks)
                        (map (fun _ => [1 # 10; 2 # 10; 3 # 10]%Q) sample_chunks)
                        sample_chunks))
    by (vm_compute; reflexivity).
  split; [exact E|].
  destruct (persisted_snapshot_aligned Q array_encode sample_chunks 2 _
              ltac:(lia) array_encode_lengths E) as [H1 H2].
  split; [rewrite H1, H2 | rewrite H2]; reflexivity.
Defined.

(** The batch size is not checked: a run with [--batch-size -1] encodes
    nothing, hands three texts and no embedding to [save_index], and that
    is the snapshot it leaves at the output path. *)
Lemma persisted_snapshot_aligned_counterexample :
  let path := py "embeddings/index.json" in
  let snap := index_data Q (map text sample_chunks) [] sample_chunks in
  persisted_snapshot Q array_encode sample_chunks (-1) = Some snap /\
  len (texts Q snap) = 3 /\
  len (embeddings Q snap) = 0 /\
  len (chunks_metadata Q snap) = 3 /\
  main Q array_encode brace_chunks sample_chunks (-1) path ∅ !! path
  = Some (concat (brace_chunks snap)).
Proof. cbv zeta. repeat split; vm_compute; reflexivity. Qed.



(** An output path without a directory part: [os.makedirs('')] raises, the
    file is not opened, and a prior snapshot stays as it is. *)
Example save_index_without_directory :
  let path := py "index.json" in
  let fs : gmap str str := {[ path := py "{ the prior snapshot }" ]} in
  let chunks := [sample_chunk "First test chunk" 0] in
  run (save_index Q brace_chunks (map text chunks) [[1 # 10]]%Q chunks path) fs
  = (Err FileNotFoundError, fs) /\
  main Q array_encode brace_chunks chunks 2 path fs = fs.
Proof. split; reflexivity. Qed.

(** With a negative [batch_size] the loop has no turn, and the texts come
    back with no embeddings, whatever the provider. *)
Example negative_batch_size :
  create_embeddings_batch Q mock_encode sample_chunks (-1) []
  = (Ok (map text sample_chunks, []), []).
Proof. vm_compute. reflexivity. Qed.

(** A provider that raises ends the run: nothing is handed to [save_index]. *)
Example provider_failure :
  persisted_snapshot Q (fun _ => Err ProviderError) sample_chunks 2 = None.
Proof. reflexivity. Qed.

Example zero_batch_size :
  create_embeddings_batch Q mock_encode sample_chunks 0 []
  = (Err ZeroDivisionError, []).
Proof. vm_compute. reflexivity. Qed.

(** *** More runs of the indexer *)

Lemma create_embeddings_batch_nonpositive_witness :
  create_embeddings_batch Q mock_encode sample_chunks (-1) []
  = (Ok (map text sample_chunks, []), []) /\
  create_embeddings_batch Q mock_encode sample_chunks 0 []
  = (Err ZeroDivisionError, []).
Proof.
  split.
  - exact (create_embeddings_batch_nonpositive Q mock_encode sample_chunks (-1) []
             ltac:(discriminate) ltac:(lia)).
  - exact (create_embeddings_batch_nonpositive Q mock_encode sample_chunks 0 []
             ltac:(discriminate) ltac:(lia)).
Defined.

Lemma create_embeddings_batch_provider_failure_witness :
  let fs : gmap str str := {[ py "embeddings/index.json" := py "{ the prior snapshot }" ]} in
  create_embeddings_batch Q flaky_encode sample_chunks 2 []
  = (Err ProviderError,
     map (batch_at (map text sample_chunks) (Z.to_nat 2)) (seq 0 2)) /\
  persisted_snapshot Q flaky_encode sample_chunks 2 = None /\
  main Q flaky_encode brace_chunks sample_chunks 2 (py "embeddings/index.json") fs = fs.
Proof.
  refine (create_embeddings_batch_provider_failure Q flaky_encode brace_chunks
            sample_chunks 2 1 ProviderError (py "embeddings/index.json") _
            ltac:(lia) _ _ _).
  - vm_compute. lia.
  - intros j Hj. assert (j = 0%nat) as -> by lia. eexists. vm_compute. reflexivity.
  - vm_compute. reflexivity.
Defined.

Lemma create_embeddings_batch_call_count_witness :
  let calls := [[py "First test chunk"; py "Second test chunk"]; [py "Third test chunk"]] in
  len calls = (len sample_chunks + 2 - 1) / 2 /\
  (forall (k : nat) (batch : list str),
     (S k < length calls)%nat -> calls !! k = Some batch -> len batch = 2).
Proof.
  exact (create_embeddings_batch_call_count Q array_encode sample_chunks 2 _ _ _
           ltac:(lia) ltac:(discriminate) create_embeddings_batch_arrays).
Defined.

Lemma snapshot_of_files_witness :
  exists snap,
    persisted_snapshot Q array_encode
      (read_content_files true sample_files false true 10 200) 2 = Some snap /\
    texts Q snap
    = [py "First document content."; py "Second paragraph in first document.";
       py "Another paragraph in second document."] /\
    map chunk_id (chunks_metadata Q snap) = [py "test1_0"; py "test1_1"; py "test2_0"] /\
    length (embeddings Q snap) = length (texts Q snap).
Proof.
  destruct (persisted_snapshot Q array_encode
              (read_content_files true sample_files false true 10 200) 2)
    as [snap|] eqn:E; [|vm_compute in E; discriminate].
  exists snap. split; [reflexivity|].
  destruct (snapshot_of_files Q array_encode sample_files false true 10 200 2 snap
              ltac:(lia) array_encode_lengths E) as [Ht [Hc Hl]].
  split; [rewrite Ht; vm_compute; reflexivity|].
  split; [rewrite Hc; vm_compute; reflexivity | exact Hl].
Defined.

End Indexer.

(** * The topic filter ([vector_temas_manager.py], [VectorTemasManager]) *)

Module Manager.

(** What a chunk record of [enhanced_chunks.json] holds under a key: a
    string, a float, or the metadata object (strings under string keys). *)
Inductive value :=
| VStr (s : str)
| VFloat (x : Q)
| VDict (d : gmap string str).

(** The dict objects, by identity.  [self.chunks] and every list a filter
    returns are lists of references into this store, so a write through one
    of them is seen through all. *)
Abbreviation store := (gmap nat (gmap string value)).

(** The dict behind a reference (a reference the store does not know stands
    for a dict without keys). *)
Definition deref (chunk : nat) : M store (gmap string value) :=
  fun h => (Ok (default ∅ (h !! chunk)), h).

(** [d[key]] *)
Definition getitem (d : gmap string value) (key : string) : result value :=
  match d !! key with
  | Some v => Ok v
  | None => Err (KeyError key)
  end.

(** [chunk[key] = v] *)
Definition setitem (chunk : nat) (key : string) (v : value) : M store unit :=
  fun h => (Ok tt, <[chunk := <[key := v]> (default ∅ (h !! chunk))]> h).

(** [chunk['metadata'][field]]: subscripting anything but a dict raises. *)
Definition metadata_field (d : gmap string value) (field : string) : result str :=
  match getitem d "metadata" with
  | Err e => Err e
  | Ok (VDict md) =>
      match md !! field with
      | Some s => Ok s
      | None => Err (KeyError field)
      end
  | Ok _ => Err TypeError
  end.

(** [chunk['text']], which the provider needs to be a string. *)
Definition text_field (d : gmap string value) : result str :=
  match getitem d "text" with
  | Err e => Err e
  | Ok (VStr t) => Ok t
  | Ok _ => Err TypeError
  end.

(** [x['similarity_score']] as a sort key. *)
Definition score_field (d : gmap string value) : result Q :=
  match getitem d "similarity_score" with
  | Err e => Err e
  | Ok (VFloat x) => Ok x
  | Ok _ => Err TypeError
  end.

(** [s == v] for a string [s] and an argument [v] that may be [None]. *)
Definition eq_arg (s : str) (v : option str) : bool :=
  match v with
  | Some s' => bool_decide (s = s')
  | None => false
  end.

(** Truthiness of an optional argument: [None] and the empty sequence are
    false. *)
Definition truthy_arg {A} (v : option (list A)) : bool :=
  match v with
  | Some l => truthy l
  | None => false
  end.

(** [' '.join(l)] *)
Fixpoint join_space (l : list str) : str :=
  match l with
  | [] => []
  | [s] => s
  | s :: l' => s ++ space :: join_space l'
  end.

Definition Qltb (x y : Q) : bool := negb (Qle_bool y x).

(** [l.sort(key=..., reverse=True)] on the keyed list: the sort is stable,
    and stays so under [reverse=True]; of two entries with equal keys the
    one that came first stays first. *)
Fixpoint insert_desc {A} (x : Q * A) (l : list (Q * A)) : list (Q * A) :=
  match l with
  | [] => [x]
  | y :: l' => if Qltb (fst x) (fst y) then y :: insert_desc x l' else x :: l
  end.

Fixpoint sort_desc {A} (l : list (Q * A)) : list (Q * A) :=
  match l with
  | [] => []
  | x :: l' => insert_desc x (sort_desc l')
  end.

(** The float [0.3], exactly. *)
Definition default_threshold : Q := 5404319552844595 # 18014398509481984.

Section Model.

(** [self.model.encode([t])[0]] and [cosine_similarity(a, b)[0][0]], a
    numpy float of the precision of the model's vectors ([float32] for
    this model), by its value. *)
Variable vec : Type.
Variable encode1 : str -> vec.
Variable cosine_similarity : vec -> vec -> Q.

(** The threshold is a Python float, and NumPy converts it for the
    comparison [similarity > threshold]: NumPy 2 to the type of the
    similarity, rounding it to the nearest [float32]; NumPy 1 to
    [float64], which leaves its value as it is.  [as_compared threshold]
    is the value the threshold has when it is compared. *)
Variable as_compared : Q -> Q.

(** [self.chunks], as loaded. *)
Variable self_chunks : list nat.

(** One turn of [for chunk in self.chunks]. *)
Definition score_chunk (temas_embedding : vec) (threshold : Q)
    (filtered_chunks : list nat) (chunk : nat) : M store (list nat) :=
  let* d := deref chunk in
  let* t := lift (text_field d) in
  let chunk_embedding := encode1 t in
  let similarity := cosine_similarity temas_embedding chunk_embedding in
  if Qltb (as_compared threshold) similarity then
    let* _ := setitem chunk "similarity_score" (VFloat similarity) in
    ret (filtered_chunks ++ [chunk])
  else ret filtered_chunks.

(** The key of each entry, read when the sort starts. *)
Definition sort_key (keyed : list (Q * nat)) (chunk : nat) : M store (list (Q * nat)) :=
  let* d := deref chunk in
  let* k := lift (score_field d) in
  ret (keyed ++ [(k, chunk)]).

Definition sort_by_score (filtered_chunks : list nat) : M store (list nat) :=
  let* keyed := for_each filtered_chunks sort_key [] in
  ret (map snd (sort_desc keyed)).

Definition filter_by_vector_temas (vector_temas : option (list str)) (threshold : Q)
  : M store (list nat) :=
  if negb (truthy_arg vector_temas) || negb (truthy self_chunks) then ret self_chunks
  else
    let temas_text := join_space (default [] vector_temas) in
    let temas_embedding := encode1 temas_text in
    let* filtered_chunks :=
      for_each self_chunks (score_chunk temas_embedding threshold) [] in
    sort_by_score filtered_chunks.

(** [[c for c in chunks if c['metadata'][field] == wanted]] *)
Definition keep_if_field (field : string) (wanted : option str)
    (kept : list nat) (c : nat) : M store (list nat) :=
  let* d := deref c in
  let* s := lift (metadata_field d field) in
  ret (if eq_arg s wanted then kept ++ [c] else kept).

Definition filter_by_eje (chunks : list nat) (eje_activo : option str)
  : M store (list nat) :=
  if negb (truthy_arg eje_activo) then ret chunks
  else for_each chunks (keep_if_field "eje" eje_activo) [].

Definition filter_by_mode (chunks : list nat) (mode : option str)
  : M store (list nat) :=
  for_each chunks (keep_if_field "type" mode) [].

Definition get_filtered_chunks (vector_temas : option (list str))
    (eje_activo : option str) (mode : option str) (max_chunks : Z)
  : M store (list nat) :=
  let chunks := self_chunks (* [.copy()]: a new list of the same references *) in
  let* chunks :=
    if truthy_arg eje_activo then filter_by_eje chunks eje_activo else ret chunks in
  let* chunks :=
    if truthy_arg vector_temas
    then filter_by_vector_temas vector_temas default_threshold
    else ret chunks in
  let* chunks := filter_by_mode chunks mode in
  ret (slice chunks 0 max_chunks).

(** [load_chunks]: the records of the chunks file, in order, or no chunk at
    all when the file is not found ([None]). *)
Definition load_chunks (chunks_file : option (list nat)) : list nat :=
  match chunks_file with
  | Some chunks => chunks
  | None => []
  end.

(** The one suggestion returned when no chunk passes the filters. *)
Definition placeholder : str :=
  py "No se encontraron chunks relevantes para los temas especificados".

(** [text.split('.')[0]]: what comes before the first full stop (all of the
    text when it has none; the list [split] returns is never empty). *)
Fixpoint first_sentence (text : str) : str :=
  match text with
  | [] => []
  | c :: text' => if (c =? 46)%N then [] else c :: first_sentence text'
  end.

(** The first sentence, trimmed, and cut to 100 characters and an ellipsis
    when longer. *)
Definition suggestion_of (text : str) : str :=
  let suggestion := strip (first_sentence text) in
  if len suggestion >? 100 then slice suggestion 0 100 ++ py "..." else suggestion.

(** What [generate_suggestions] can raise: the exceptions of the filters
    and of the subscripts, and [AttributeError] for a text that is not a
    string and so has no [split]. *)
Inductive suggestion_exn :=
| Raised (e : exn)
| AttributeError.

(** One turn of [for i, chunk in enumerate(filtered_chunks[:5])]: the text
    is read and split first, the axis tag when the line is formatted. *)
Definition suggest (h : store) (chunk : nat) : suggestion_exn + str :=
  let d := default ∅ (h !! chunk) in
  match getitem d "text" with
  | Err e => inl (Raised e)
  | Ok (VStr text) =>
      let suggestion := suggestion_of text in
      match metadata_field d "eje" with
      | Ok eje => inr (eje ++ py ": " ++ suggestion)
      | Err e => inl (Raised e)
      end
  | Ok _ => inl AttributeError
  end.

Fixpoint suggest_loop (h : store) (chunks : list nat) (suggestions : list str)
  : suggestion_exn + list str :=
  match chunks with
  | [] => inr suggestions
  | chunk :: chunks' =>
      match suggest h chunk with
      | inr s => suggest_loop h chunks' (suggestions ++ [s])
      | inl e => inl e
      end
  end.

Definition generate_suggestions (vector_temas : option (list str))
    (mode : option str) (eje_activo : option str)
  : store -> (suggestion_exn + list str) * store :=
  fun h =>
    match get_filtered_chunks vector_temas eje_activo mode 20 h with
    | (Err e, h') => (inl (Raised e), h')
    | (Ok filtered_chunks, h') =>
        if negb (truthy filtered_chunks) then (inr [placeholder], h')
        else (suggest_loop h' (slice filtered_chunks 0 5) [], h')
    end.

(** *** Specification vocabulary *)

(** [chunk['metadata'][field]] and [chunk['text']] for a reference, in a
    given store. *)
Definition field_of (h : store) (field : string) (c : nat) : result str :=
  metadata_field (default ∅ (h !! c)) field.

Definition text_of (h : store) (c : nat) : result str :=
  text_field (default ∅ (h !! c)).

(** The chunk carries the field, and with the wanted value. *)
Definition has_field (h : store) (field : string) (c : nat) : Prop :=
  exists s, field_of h field c = Ok s.

Definition field_is (h : store) (field : string) (wanted : option str) (c : nat) : bool :=
  match field_of h field c with
  | Ok s => eq_arg s wanted
  | Err _ => false
  end.

(** The similarity of a chunk to the joined topics. *)
Definition score_in (h : store) (temas : list str) (c : nat) : Q :=
  match text_of h c with
  | Ok t => cosine_similarity (encode1 (join_space temas)) (encode1 t)
  | Err _ => 0
  end.

(** The store after a write of [similarity_score] into one record. *)
Definition set_score (h : store) (c : nat) (x : Q) : store :=
  <[c := <["similarity_score" := VFloat x]> (default ∅ (h !! c))]> h.

(** [h'] is [h] up to the [similarity_score] of some of its records. *)
Definition same_but_score (h h' : store) : Prop :=
  forall c,
    h' !! c = h !! c \/
    exists d x, h !! c = Some d /\
                h' !! c = Some (<["similarity_score" := VFloat x]> d).

(** The references of a list with their positions, from [start] on. *)
Fixpoint indexed_from {A} (start : nat) (l : list A) : list (nat * A) :=
  match l with
  | [] => []
  | x :: l' => (start, x) :: indexed_from (S start) l'
  end.

(** The stable descending sort, on a bare list with a key function. *)
Fixpoint insert_by {A} (key : A -> Q) (x : A) (l : list A) : list A :=
  match l with
  | [] => [x]
  | y :: l' => if Qltb (key x) (key y) then y :: insert_by key x l' else x :: l
  end.

Fixpoint sort_by {A} (key : A -> Q) (l : list A) : list A :=
  match l with
  | [] => []
  | x :: l' => insert_by key x (sort_by key l')
  end.

(** A call of one of the two filtering entry points, and what a sequence of
    calls leaves in the store. *)
Inductive call :=
| CallFilterByVectorTemas (vector_temas : option (list str)) (threshold : Q)
| CallGetFilteredChunks (vector_temas : option (list str)) (eje_activo : option str)
    (mode : option str) (max_chunks : Z).

Definition run_call (h : store) (c : call) : store :=
  match c with
  | CallFilterByVectorTemas vector_temas threshold =>
      snd (filter_by_vector_temas vector_temas threshold h)
  | CallGetFilteredChunks vector_temas eje_activo mode max_chunks =>
      snd (get_filtered_chunks vector_temas eje_activo mode max_chunks h)
  end.

Definition run_calls (calls : list call) (h : store) : store :=
  fold_left run_call calls h.

(** A computation keeps the relation [R] when the store it leaves is
    related to the store it started in, whether it returns or raises. *)
Definition keeps {A} (R : store -> store -> Prop) (c : M store A) : Prop :=
  forall h, R h (snd (c h)).

(** [a] is ranked before [b]: a greater key, or the same key and an earlier
    position. *)
Definition ranked_before {A} (key : A -> Q) (idx : A -> nat) (a b : A) : Prop :=
  (key b < key a)%Q \/ (key a == key b /\ (idx a < idx b)%nat).

(** The chunks that pass the three filters, before the cap. *)
Definition matching_chunks (vector_temas : option (list str))
    (eje_activo : option str) (mode : option str) : M store (list nat) :=
  let* chunks :=
    if truthy_arg eje_activo then filter_by_eje self_chunks eje_activo
    else ret self_chunks in
  let* chunks :=
    if truthy_arg vector_temas
    then filter_by_vector_temas vector_temas default_threshold
    else ret chunks in
  filter_by_mode chunks mode.

(** The store after [similarity_score] was written into the given records. *)
Definition write_scores (score : nat -> Q) (retained : list nat) (h : store) : store :=
  fold_left (fun h c => set_score h c (score c)) retained h.

(** *** Computations that keep a relation on the store *)

Lemma keeps_ret {A} (R : store -> store -> Prop) (a : A) :
  (forall h, R h h) -> keeps R (ret a).
Proof. intros Hrefl h. apply Hrefl. Qed.

Lemma keeps_lift {A} (R : store -> store -> Prop) (r : result A) :
  (forall h, R h h) -> keeps R (lift r).
Proof. intros Hrefl h. apply Hrefl. Qed.

Lemma keeps_bind {A B} (R : store -> store -> Prop) (c : M store A) (k : A -> M store B) :
  (forall h1 h2 h3, R h1 h2 -> R h2 h3 -> R h1 h3) ->
  keeps R c -> (forall a, keeps R (k a)) -> keeps R (bind c k).
Proof.
  intros Htrans Hc Hk h. unfold bind.
  pose proof (Hc h) as H1. destruct (c h) as [[a|e] h1]; simpl in *.
  - eapply Htrans; [exact H1 | apply Hk].
  - exact H1.
Qed.

Lemma keeps_for_each {A B} (R : store -> store -> Prop) (l : list A)
    (body : B -> A -> M store B) :
  (forall h, R h h) ->
  (forall h1 h2 h3, R h1 h2 -> R h2 h3 -> R h1 h3) ->
  (forall acc x, keeps R (body acc x)) ->
  forall acc, keeps R (for_each l body acc).
Proof.
  intros Hrefl Htrans Hbody. induction l as [|x l IH]; intros acc; simpl.
  - apply keeps_ret, Hrefl.
  - apply keeps_bind; [exact Htrans | apply Hbody | apply IH].
Qed.

Lemma keeps_deref (R : store -> store -> Prop) (c : nat) :
  (forall h, R h h) -> keeps R (deref c).
Proof. intros Hrefl h. apply Hrefl. Qed.

Lemma eq_trans_store (h1 h2 h3 : store) : h1 = h2 -> h2 = h3 -> h1 = h3.
Proof. congruence. Qed.

(** The two metadata filters only read the store. *)
Lemma keep_if_field_reads (field : string) (wanted : option str)
    (kept : list nat) (c : nat) :
  keeps eq (keep_if_field field wanted kept c).
Proof.
  unfold keep_if_field.
  apply keeps_bind; [exact eq_trans_store | apply keeps_deref; reflexivity|].
  intros d. apply keeps_bind; [exact eq_trans_store | apply keeps_lift; reflexivity|].
  intros s. apply keeps_ret. reflexivity.
Qed.

Lemma filter_by_mode_reads (chunks : list nat) (mode : option str) :
  keeps eq (filter_by_mode chunks mode).
Proof.
  apply keeps_for_each; [reflexivity | exact eq_trans_store|].
  intros; apply keep_if_field_reads.
Qed.

Lemma filter_by_eje_reads (chunks : list nat) (eje_activo : option str) :
  keeps eq (filter_by_eje chunks eje_activo).
Proof.
  unfold filter_by_eje. destruct (negb (truthy_arg eje_activo)).
  - apply keeps_ret. reflexivity.
  - apply keeps_for_each; [reflexivity | exact eq_trans_store|].
    intros; apply keep_if_field_reads.
Qed.

(** *** The metadata filters *)

(** What the comprehension of a metadata filter returns: the chunks with
    the wanted value when every chunk has the field, and the exception of
    the first chunk that lacks it otherwise. *)
Lemma keep_loop_all (field : string) (wanted : option str) (h : store)
    (chunks : list nat) :
  Forall (has_field h field) chunks ->
  forall kept,
    for_each chunks (keep_if_field field wanted) kept h
    = (Ok (kept ++ List.filter (field_is h field wanted) chunks), h).
Proof.
  induction 1 as [|c chunks [s Hs] _ IH]; intros kept; simpl.
  - rewrite app_nil_r. reflexivity.
  - unfold bind at 1, keep_if_field at 1, bind at 1, deref, bind at 1, lift, ret at 1.
    unfold field_is at 1. unfold field_of in Hs. rewrite Hs.
    unfold field_of. rewrite Hs.
    destruct (eq_arg s wanted); rewrite IH; [|reflexivity].
    rewrite <- List.app_assoc. reflexivity.
Qed.

Lemma keep_loop_raises (field : string) (wanted : option str) (h : store)
    (before after : list nat) (c : nat) (e : exn) :
  Forall (has_field h field) before ->
  field_of h field c = Err e ->
  forall kept,
    for_each (before ++ c :: after) (keep_if_field field wanted) kept h = (Err e, h).
Proof.
  intros Hbefore Hc. induction Hbefore as [|b before [s Hs] _ IH]; intros kept; simpl.
  - unfold bind at 1, keep_if_field at 1, bind at 1, deref, bind at 1, lift.
    unfold field_of in Hc. rewrite Hc. reflexivity.
  - unfold bind at 1, keep_if_field at 1, bind at 1, deref, bind at 1, lift, ret at 1.
    unfold field_of in Hs. rewrite Hs. apply IH.
Qed.

(** C9 (as amended).  The axis filter (with a tag requested) and the mode
    filter do not skip a chunk that lacks the field they read: when every
    chunk of the input has it they return the chunks whose value is the
    requested one, in order, and when some chunk lacks it they raise the
    exception of the first such chunk, which ends the whole call: a
    [KeyError] for a record without ['metadata'], or whose metadata is
    without the field.  With no tag requested ([None] or the empty string)
    the axis filter returns its input, whatever the records hold.  The
    exception of a filter ends [get_filtered_chunks] too: that of the axis
    filter whatever the other arguments are, that of the mode filter on
    whatever list the earlier stages hand to it (which is [self.chunks]
    when neither topics nor an axis tag are given).  Neither filter writes
    to the store. *)
Theorem metadata_filters_raise (chunks : list nat) (h : store) (eje_activo : str)
    (mode : option str) :
  eje_activo <> [] ->
  (Forall (has_field h "eje") chunks ->
   filter_by_eje chunks (Some eje_activo) h
   = (Ok (List.filter (field_is h "eje" (Some eje_activo)) chunks), h)) /\
  (forall before c after e,
     chunks = before ++ c :: after ->
     Forall (has_field h "eje") before -> field_of h "eje" c = Err e ->
     filter_by_eje chunks (Some eje_activo) h = (Err e, h)) /\
  (Forall (has_field h "type") chunks ->
   filter_by_mode chunks mode h
   = (Ok (List.filter (field_is h "type" mode) chunks), h)) /\
  (forall before c after e,
     chunks = before ++ c :: after ->
     Forall (has_field h "type") before -> field_of h "type" c = Err e ->
     filter_by_mode chunks mode h = (Err e, h)) /\
  (forall c d field,
     h !! c = Some d -> d !! "metadata" = None ->
     field_of h field c = Err (KeyError "metadata")) /\
  (forall c d md field,
     h !! c = Some d -> d !! "metadata" = Some (VDict md) -> md !! field = None ->
     field_of h field c = Err (KeyError field)) /\
  (forall no_tag : option str,
     truthy_arg no_tag = false -> filter_by_eje chunks no_tag h = (Ok chunks, h)) /\
  (forall vector_temas max_chunks before c after e,
     self_chunks = before ++ c :: after ->
     Forall (has_field h "eje") before -> field_of h "eje" c = Err e ->
     get_filtered_chunks vector_temas (Some eje_activo) mode max_chunks h
     = (Err e, h)) /\
  (forall (vector_temas : option (list str)) (no_tag : option str)
          max_chunks before c after e,
     truthy_arg vector_temas = false -> truthy_arg no_tag = false ->
     self_chunks = before ++ c :: after ->
     Forall (has_field h "type") before -> field_of h "type" c = Err e ->
     get_filtered_chunks vector_temas no_tag mode max_chunks h = (Err e, h)) /\
  (forall (vector_temas : option (list str)) (eje : option str) max_chunks
          chunks1 h1 chunks2 h2 e h3,
     (if truthy_arg eje then filter_by_eje self_chunks eje else ret self_chunks) h
     = (Ok chunks1, h1) ->
     (if truthy_arg vector_temas
      then filter_by_vector_temas vector_temas default_threshold
      else ret chunks1) h1 = (Ok chunks2, h2) ->
     filter_by_mode chunks2 mode h2 = (Err e, h3) ->
     get_filtered_chunks vector_temas eje mode max_chunks h = (Err e, h3)).
Proof.
  intros Heje.
  assert (Ht : truthy_arg (Some eje_activo) = true).
  { simpl. destruct eje_activo; [congruence | reflexivity]. }
  split; [|split; [|split; [|split; [|split; [|split; [|split; [|split; [|split]]]]]]]].
  - intros H. unfold filter_by_eje. rewrite Ht.
    apply (keep_loop_all "eje" _ h chunks H []).
  - intros before c after e -> Hb Hc. unfold filter_by_eje. rewrite Ht.
    apply keep_loop_raises; assumption.
  - intros H. apply (keep_loop_all "type" _ h chunks H []).
  - intros before c after e -> Hb Hc. apply keep_loop_raises; assumption.
  - intros c d field Hc Hd. unfold field_of, metadata_field, getitem.
    rewrite Hc. simpl. rewrite Hd. reflexivity.
  - intros c d md field Hc Hd Hmd. unfold field_of, metadata_field, getitem.
    rewrite Hc. simpl. rewrite Hd, Hmd. reflexivity.
  - intros no_tag Hno. unfold filter_by_eje. rewrite Hno. reflexivity.
  - intros vector_temas max_chunks before c after e Hself Hb Hc.
    unfold get_filtered_chunks. rewrite Ht. unfold bind at 1.
    unfold filter_by_eje. rewrite Ht. cbn [negb]. rewrite Hself.
    rewrite (keep_loop_raises "eje" (Some eje_activo) h before after c e Hb Hc []).
    reflexivity.
  - intros vector_temas no_tag max_chunks before c after e Hvt Hno Hself Hb Hc.
    unfold get_filtered_chunks. rewrite Hno, Hvt.
    unfold bind at 1, ret at 1. unfold bind at 1, ret at 1.
    unfold bind, filter_by_mode. rewrite Hself.
    rewrite (keep_loop_raises "type" mode h before after c e Hb Hc []).
    reflexivity.
  - intros vector_temas eje max_chunks chunks1 h1 chunks2 h2 e h3 E1 E2 E3.
    unfold get_filtered_chunks. unfold bind at 1. rewrite E1.
    unfold bind at 1. rewrite E2. unfold bind. rewrite E3. reflexivity.
Qed.

(** C6 (as amended).  With no topics and no axis tag, [get_filtered_chunks]
    returns, for a [max_chunks] that is not negative and chunks that all
    carry a type, the chunks whose type is [mode], in snapshot order, cut to
    the first [max_chunks]; the mode filter always applies.  The store is
    left as it was. *)
Theorem get_filtered_chunks_no_topics (vector_temas : option (list str))
    (eje_activo : option str) (mode : option str) (max_chunks : Z) (h : store) :
  truthy_arg vector_temas = false ->
  truthy_arg eje_activo = false ->
  0 <= max_chunks ->
  Forall (has_field h "type") self_chunks ->
  get_filtered_chunks vector_temas eje_activo mode max_chunks h
  = (Ok (firstn (Z.to_nat max_chunks)
           (List.filter (field_is h "type" mode) self_chunks)), h).
Proof.
  intros Ht He Hmax Hall. unfold get_filtered_chunks.
  rewrite Ht, He. unfold bind at 1, ret at 1. unfold bind at 1, ret at 1.
  unfold bind, filter_by_mode.
  rewrite (keep_loop_all "type" mode h self_chunks Hall []). simpl app.
  unfold ret. rewrite Indexer.slice_nonneg by lia.
  rewrite Z2Nat.inj_0, Nat.sub_0_r. reflexivity.
Qed.

(** *** What filtering writes *)

Lemma same_but_score_refl (h : store) : same_but_score h h.
Proof. intros c. left. reflexivity. Qed.

Lemma same_but_score_trans (h1 h2 h3 : store) :
  same_but_score h1 h2 -> same_but_score h2 h3 -> same_but_score h1 h3.
Proof.
  intros H12 H23 c.
  destruct (H23 c) as [E23 | [d2 [x2 [E2 E3]]]];
    destruct (H12 c) as [E12 | [d1 [x1 [E1 E2']]]].
  - left. congruence.
  - right. exists d1, x1. split; congruence.
  - right. exists d2, x2. split; congruence.
  - right. exists d1, x2. split; [exact E1|].
    rewrite E3. f_equal.
    assert (d2 = <["similarity_score" := VFloat x1]> d1) as -> by congruence.
    apply insert_insert_eq.
Qed.

Lemma keeps_eq_any {A} (R : store -> store -> Prop) (c : M store A) :
  (forall h, R h h) -> keeps eq c -> keeps R c.
Proof. intros Hrefl Hc h. rewrite <- (Hc h). apply Hrefl. Qed.

Lemma text_field_empty : text_field ∅ = Err (KeyError "text").
Proof. reflexivity. Qed.

Lemma score_chunk_writes_score (temas_embedding : vec) (threshold : Q)
    (filtered_chunks : list nat) (chunk : nat) :
  keeps same_but_score (score_chunk temas_embedding threshold filtered_chunks chunk).
Proof.
  intros h. unfold score_chunk, bind, deref, lift.
  destruct (h !! chunk) as [d|] eqn:Hd; simpl.
  2:{ apply same_but_score_refl. }
  destruct (text_field d) as [t|e]; simpl; [|apply same_but_score_refl].
  destruct (Qltb (as_compared threshold) _); simpl; [|apply same_but_score_refl].
  unfold setitem. rewrite Hd. simpl. intros c.
  destruct (decide (c = chunk)) as [->|Hne].
  - right. eexists d, _. split; [exact Hd | apply lookup_insert_eq].
  - left. apply lookup_insert_ne. congruence.
Qed.

Lemma sort_by_score_reads (filtered_chunks : list nat) :
  keeps eq (sort_by_score filtered_chunks).
Proof.
  unfold sort_by_score.
  apply keeps_bind; [exact eq_trans_store | | intros; apply keeps_ret; reflexivity].
  apply keeps_for_each; [reflexivity | exact eq_trans_store|].
  intros keyed c. unfold sort_key.
  apply keeps_bind; [exact eq_trans_store | apply keeps_deref; reflexivity|].
  intros d. apply keeps_bind; [exact eq_trans_store | apply keeps_lift; reflexivity|].
  intros k. apply keeps_ret. reflexivity.
Qed.

Lemma filter_by_vector_temas_writes_score (vector_temas : option (list str))
    (threshold : Q) :
  keeps same_but_score (filter_by_vector_temas vector_temas threshold).
Proof.
  unfold filter_by_vector_temas.
  destruct (negb (truthy_arg vector_temas) || negb (truthy self_chunks)).
  - apply keeps_ret, same_but_score_refl.
  - apply keeps_bind; [exact same_but_score_trans | |].
    + apply keeps_for_each;
        [exact same_but_score_refl | exact same_but_score_trans|].
      intros; apply score_chunk_writes_score.
    + intros l. apply keeps_eq_any; [exact same_but_score_refl|].
      apply sort_by_score_reads.
Qed.

Lemma get_filtered_chunks_writes_score (vector_temas : option (list str))
    (eje_activo : option str) (mode : option str) (max_chunks : Z) :
  keeps same_but_score (get_filtered_chunks vector_temas eje_activo mode max_chunks).
Proof.
  unfold get_filtered_chunks.
  apply keeps_bind; [exact same_but_score_trans | |].
  { destruct (truthy_arg eje_activo).
    - apply keeps_eq_any; [exact same_but_score_refl | apply filter_by_eje_reads].
    - apply keeps_ret, same_but_score_refl. }
  intros chunks. apply keeps_bind; [exact same_but_score_trans | |].
  { destruct (truthy_arg vector_temas).
    - apply filter_by_vector_temas_writes_score.
    - apply keeps_ret, same_but_score_refl. }
  intros chunks'. apply keeps_bind; [exact same_but_score_trans | |].
  { apply keeps_eq_any; [exact same_but_score_refl | apply filter_by_mode_reads]. }
  intros chunks''. apply keeps_ret, same_but_score_refl.
Qed.

(** Without topics nothing is written at all. *)
Lemma get_filtered_chunks_no_topics_reads (vector_temas : option (list str))
    (eje_activo : option str) (mode : option str) (max_chunks : Z) :
  truthy_arg vector_temas = false ->
  keeps eq (get_filtered_chunks vector_temas eje_activo mode max_chunks).
Proof.
  intros Ht. unfold get_filtered_chunks. rewrite Ht.
  apply keeps_bind; [exact eq_trans_store | |].
  { destruct (truthy_arg eje_activo).
    - apply filter_by_eje_reads.
    - apply keeps_ret. reflexivity. }
  intros chunks. apply keeps_bind; [exact eq_trans_store | apply keeps_ret; reflexivity|].
  intros chunks'. apply keeps_bind; [exact eq_trans_store | apply filter_by_mode_reads|].
  intros chunks''. apply keeps_ret. reflexivity.
Qed.

(** C8 (as amended).  After any sequence of calls of [filter_by_vector_temas]
    and [get_filtered_chunks], every stored record is the record it was
    before, except that its [similarity_score] may have been set: the score
    is written into the loaded records themselves, and it is the only thing
    filtering writes.  ([self.chunks] itself is never assigned.) *)
Theorem filtering_writes_only_scores (calls : list call) (h : store) :
  same_but_score h (run_calls calls h).
Proof.
  unfold run_calls. revert h.
  induction calls as [|c calls IH]; intros h; simpl.
  - apply same_but_score_refl.
  - eapply same_but_score_trans; [|apply IH].
    destruct c as [vt thr | vt eje mode mx]; simpl.
    + apply filter_by_vector_temas_writes_score.
    + apply get_filtered_chunks_writes_score.
Qed.

(** *** The stable descending sort *)

Lemma Qltb_lt (x y : Q) : Qltb x y = true <-> (x < y)%Q.
Proof.
  unfold Qltb. rewrite negb_true_iff. split.
  - intros H. apply Qnot_le_lt. intros Hle.
    apply Qle_bool_iff in Hle. congruence.
  - intros H. destruct (Qle_bool y x) eqn:E; [|reflexivity].
    apply Qle_bool_iff in E. exfalso. exact (Qlt_not_le _ _ H E).
Qed.

Lemma Qltb_ge (x y : Q) : Qltb x y = false <-> (y <= x)%Q.
Proof.
  unfold Qltb. rewrite negb_false_iff. apply Qle_bool_iff.
Qed.

Lemma insert_by_perm {A} (key : A -> Q) (x : A) (l : list A) :
  Permutation (insert_by key x l) (x :: l).
Proof.
  induction l as [|y l IH]; simpl; [reflexivity|].
  destruct (Qltb (key x) (key y)); [|reflexivity].
  rewrite IH. apply perm_swap.
Qed.

Lemma sort_by_perm {A} (key : A -> Q) (l : list A) :
  Permutation (sort_by key l) l.
Proof.
  induction l as [|x l IH]; simpl; [reflexivity|].
  rewrite insert_by_perm, IH. reflexivity.
Qed.

Lemma insert_by_sorted {A} (key : A -> Q) (idx : A -> nat) (x : A) (l : list A) :
  StronglySorted (ranked_before key idx) l ->
  List.Forall (fun y => (idx x < idx y)%nat) l ->
  StronglySorted (ranked_before key idx) (insert_by key x l).
Proof.
  induction l as [|y l IH]; intros Hs Hidx; simpl.
  - constructor; constructor.
  - apply StronglySorted_inv in Hs as [Hs Hy].
    apply List.Forall_cons_iff in Hidx as [Hxy Hidx].
    destruct (Qltb (key x) (key y)) eqn:E.
    + apply Qltb_lt in E. constructor; [apply IH; assumption|].
      apply (Permutation_Forall (Permutation_sym (insert_by_perm key x l))).
      constructor; [left; exact E | exact Hy].
    + apply Qltb_ge in E.
      constructor; [constructor; assumption|].
      assert (Hle : List.Forall (fun z => (key z <= key x)%Q /\ (idx x < idx z)%nat) (y :: l)).
      { constructor; [split; assumption|].
        rewrite List.Forall_forall in *. intros z Hz. split; [|apply Hidx, Hz].
        destruct (Hy z Hz) as [Hlt | [Heq _]].
        - apply Qlt_le_weak. eapply Qlt_le_trans; eassumption.
        - rewrite <- Heq. exact E. }
      eapply List.Forall_impl; [|exact Hle]. intros z [Hz Hi].
      destruct (Qlt_le_dec (key z) (key x)) as [Hlt|Hge]; [left; exact Hlt|].
      right. split; [apply Qle_antisym; assumption | exact Hi].
Qed.

Lemma sort_by_sorted {A} (key : A -> Q) (idx : A -> nat) (l : list A) :
  StronglySorted (fun a b => (idx a < idx b)%nat) l ->
  StronglySorted (ranked_before key idx) (sort_by key l).
Proof.
  induction 1 as [|x l _ IH Hx]; simpl; [constructor|].
  apply insert_by_sorted; [exact IH|].
  apply (Permutation_Forall (Permutation_sym (sort_by_perm key l))). exact Hx.
Qed.

Lemma insert_desc_decorate {A} (key : A -> Q) (x : A) (l : list A) :
  insert_desc (key x, x) (map (fun a => (key a, a)) l)
  = map (fun a => (key a, a)) (insert_by key x l).
Proof.
  induction l as [|y l IH]; simpl; [reflexivity|].
  destruct (Qltb (key x) (key y)); simpl; [rewrite IH|]; reflexivity.
Qed.

Lemma sort_desc_decorate {A} (key : A -> Q) (l : list A) :
  sort_desc (map (fun a => (key a, a)) l)
  = map (fun a => (key a, a)) (sort_by key l).
Proof.
  induction l as [|x l IH]; simpl; [reflexivity|].
  rewrite IH. apply insert_desc_decorate.
Qed.

Lemma insert_by_map {A B} (f : A -> B) (key : B -> Q) (x : A) (l : list A) :
  insert_by key (f x) (map f l) = map f (insert_by (fun a => key (f a)) x l).
Proof.
  induction l as [|y l IH]; simpl; [reflexivity|].
  destruct (Qltb (key (f x)) (key (f y))); simpl; [rewrite IH|]; reflexivity.
Qed.

Lemma sort_by_map {A B} (f : A -> B) (key : B -> Q) (l : list A) :
  sort_by key (map f l) = map f (sort_by (fun a => key (f a)) l).
Proof.
  induction l as [|x l IH]; simpl; [reflexivity|].
  rewrite IH. apply insert_by_map.
Qed.

(** *** Positions *)

Lemma map_snd_indexed_from {A} (l : list A) :
  forall start, map snd (indexed_from start l) = l.
Proof. induction l as [|x l IH]; intros start; simpl; [|rewrite IH]; reflexivity. Qed.

Lemma in_indexed_from {A} (l : list A) :
  forall start i x,
    In (i, x) (indexed_from start l) <->
    (start <= i)%nat /\ l !! (i - start)%nat = Some x.
Proof.
  induction l as [|y l IH]; intros start i x; simpl.
  - rewrite lookup_nil. split; [intros [] | intros [_ [=]]].
  - rewrite IH. split.
    + intros [[= <- <-] | [Hle Hl]].
      * rewrite Nat.sub_diag. split; [lia | reflexivity].
      * split; [lia|]. replace (i - start)%nat with (S (i - S start)) by lia.
        exact Hl.
    + intros [Hle Hl]. destruct (decide (i = start)) as [->|Hne].
      * rewrite Nat.sub_diag in Hl. simpl in Hl. left. congruence.
      * right. split; [lia|].
        replace (i - start)%nat with (S (i - S start)) in Hl by lia. exact Hl.
Qed.

Lemma indexed_from_sorted {A} (l : list A) :
  forall start,
    StronglySorted (fun a b : nat * A => (fst a < fst b)%nat) (indexed_from start l).
Proof.
  induction l as [|x l IH]; intros start; simpl; constructor; [apply IH|].
  apply List.Forall_forall. intros [i y] Hin.
  apply in_indexed_from in Hin as [Hle _]. simpl. lia.
Qed.

Lemma StronglySorted_filter {A} (R : A -> A -> Prop) (f : A -> bool) (l : list A) :
  StronglySorted R l -> StronglySorted R (List.filter f l).
Proof.
  induction 1 as [|x l _ IH Hx]; simpl; [constructor|].
  destruct (f x); [|exact IH].
  constructor; [exact IH|].
  rewrite List.Forall_forall in *. intros y Hy.
  apply List.filter_In in Hy as [Hy _]. apply Hx, Hy.
Qed.

Lemma StronglySorted_lt_NoDup {A} (idx : A -> nat) (l : list A) :
  StronglySorted (fun a b => (idx a < idx b)%nat) l -> List.NoDup (map idx l).
Proof.
  induction 1 as [|x l _ IH Hx]; simpl; constructor; [|exact IH].
  rewrite in_map_iff. intros [y [E Hy]].
  rewrite List.Forall_forall in Hx. specialize (Hx y Hy). lia.
Qed.

Lemma filter_map_snd {A B} (f : B -> bool) (l : list (A * B)) :
  List.filter f (map snd l) = map snd (List.filter (fun p => f (snd p)) l).
Proof.
  induction l as [|[a b] l IH]; simpl; [reflexivity|].
  destruct (f b); simpl; rewrite IH; reflexivity.
Qed.

(** *** The scoring loop on a snapshot whose chunks all have a text *)

Lemma text_of_set_score (h : store) (c : nat) (x : Q) (c' : nat) :
  text_of (set_score h c x) c' = text_of h c'.
Proof.
  unfold text_of, set_score.
  destruct (decide (c' = c)) as [->|Hne].
  - rewrite lookup_insert_eq. simpl. unfold text_field, getitem.
    rewrite lookup_insert_ne by discriminate. reflexivity.
  - rewrite lookup_insert_ne by congruence. reflexivity.
Qed.

Lemma score_loop (temas : list str) (threshold : Q) (h0 : store) (chunks : list nat) :
  (forall c, In c chunks -> exists t, text_of h0 c = Ok t) ->
  forall (acc : list nat) (h : store),
    (forall c, text_of h c = text_of h0 c) ->
    for_each chunks (score_chunk (encode1 (join_space temas)) threshold) acc h
    = (Ok (acc ++ List.filter (fun c => Qltb (as_compared threshold) (score_in h0 temas c)) chunks),
       write_scores (score_in h0 temas)
         (List.filter (fun c => Qltb (as_compared threshold) (score_in h0 temas c)) chunks) h).
Proof.
  induction chunks as [|c chunks IH]; intros Htext acc h Hh; simpl.
  - rewrite app_nil_r. reflexivity.
  - destruct (Htext c (or_introl eq_refl)) as [t Ht].
    assert (Htext' : forall c', In c' chunks -> exists t', text_of h0 c' = Ok t')
      by (intros; apply Htext; right; assumption).
    unfold bind at 1, score_chunk at 1, bind at 1, deref, bind at 1, lift.
    pose proof (Hh c) as Hc. unfold text_of in Hc, Ht. rewrite Hc, Ht.
    assert (Es : score_in h0 temas c
                 = cosine_similarity (encode1 (join_space temas)) (encode1 t)).
    { unfold score_in, text_of. rewrite Ht. reflexivity. }
    rewrite <- Es.
    destruct (Qltb (as_compared threshold) (score_in h0 temas c)); simpl.
    + fold (set_score h c (score_in h0 temas c)).
      rewrite IH; trivial.
      * rewrite <- List.app_assoc. reflexivity.
      * intros c'. rewrite text_of_set_score. apply Hh.
    + apply IH; trivial.
Qed.

Lemma write_scores_lookup (score : nat -> Q) (retained : list nat) (h : store) (c : nat) :
  In c retained ->
  exists d, write_scores score retained h !! c = Some d /\
            d !! "similarity_score" = Some (VFloat (score c)).
Proof.
  unfold write_scores. revert h.
  induction retained as [|r retained IH] using rev_ind; intros h; [intros []|].
  rewrite fold_left_app. simpl. intros Hin.
  destruct (decide (c = r)) as [->|Hne].
  - eexists. unfold set_score. rewrite lookup_insert_eq.
    split; [reflexivity | apply lookup_insert_eq].
  - apply in_app_or in Hin as [Hin | [Hin | []]]; [|congruence].
    unfold set_score. rewrite lookup_insert_ne by congruence. apply IH, Hin.
Qed.

Lemma sort_key_loop (score : nat -> Q) (h : store) (filtered : list nat) :
  (forall c, In c filtered ->
     exists d, h !! c = Some d /\ d !! "similarity_score" = Some (VFloat (score c))) ->
  forall keyed,
    for_each filtered sort_key keyed h
    = (Ok (keyed ++ map (fun c => (score c, c)) filtered), h).
Proof.
  induction filtered as [|c filtered IH]; intros Hall keyed; simpl.
  - rewrite app_nil_r. reflexivity.
  - destruct (Hall c (or_introl eq_refl)) as [d [Hd Hs]].
    unfold bind at 1, sort_key at 1, bind at 1, deref, bind at 1, lift.
    rewrite Hd. simpl. unfold score_field, getitem. rewrite Hs.
    unfold ret at 1. rewrite IH by (intros; apply Hall; right; assumption).
    rewrite <- List.app_assoc. reflexivity.
Qed.

(** The run of [filter_by_vector_temas] with topics, in one equation. *)
Lemma filter_by_vector_temas_run (temas : list str) (threshold : Q) (h : store) :
  temas <> [] ->
  (forall c, In c self_chunks -> exists t, text_of h c = Ok t) ->
  let keep := fun c => Qltb (as_compared threshold) (score_in h temas c) in
  filter_by_vector_temas (Some temas) threshold h
  = (Ok (sort_by (score_in h temas) (List.filter keep self_chunks)),
     write_scores (score_in h temas) (List.filter keep self_chunks) h).
Proof.
  intros Htemas Htext keep. unfold filter_by_vector_temas.
  assert (Ht : truthy_arg (Some temas) = true)
    by (simpl; destruct temas; [congruence | reflexivity]).
  rewrite Ht. cbn [negb orb].
  destruct (truthy self_chunks) eqn:Echunks; cbn [negb].
  2:{ apply Chunker.truthy_false in Echunks. subst keep.
      rewrite Echunks. reflexivity. }
  change (default [] (Some temas)) with temas. unfold bind at 1.
  rewrite (score_loop temas threshold h self_chunks Htext [] h (fun _ => eq_refl)).
  simpl app. fold keep.
  unfold sort_by_score, bind.
  rewrite (sort_key_loop (score_in h temas)
             (write_scores (score_in h temas) (List.filter keep self_chunks) h)
             (List.filter keep self_chunks)
             (fun c Hc => write_scores_lookup _ _ _ c Hc) []).
  simpl app. unfold ret. rewrite sort_desc_decorate, map_map. simpl.
  rewrite map_id. reflexivity.
Qed.

(** C7 (as amended).  For a non-empty list of topics, on a snapshot whose
    chunks all have a text: [filter_by_vector_temas] returns the chunks of
    [self.chunks] whose similarity to the one query vector of the joined
    topics is strictly greater than the threshold as NumPy converts it for
    the comparison ([as_compared threshold]: the threshold itself under
    NumPy 1, the nearest [float32] under NumPy 2), each position once and no
    other; they come by decreasing similarity, chunks of equal similarity in
    the order of their positions in [self.chunks]; and after the call the
    record of every returned chunk holds its similarity as
    [similarity_score].  [ranked] pairs every returned chunk with its
    position. *)
Theorem filter_by_vector_temas_ranked (temas : list str) (threshold : Q) (h : store) :
  temas <> [] ->
  (forall c, In c self_chunks -> exists t, text_of h c = Ok t) ->
  exists (ranked : list (nat * nat)) (h' : store),
    filter_by_vector_temas (Some temas) threshold h = (Ok (map snd ranked), h') /\
    (forall i c, In (i, c) ranked <->
                 self_chunks !! i = Some c /\ (as_compared threshold < score_in h temas c)%Q) /\
    List.NoDup (map fst ranked) /\
    StronglySorted
      (fun p1 p2 : nat * nat =>
         (score_in h temas (snd p2) < score_in h temas (snd p1))%Q \/
         (score_in h temas (snd p1) == score_in h temas (snd p2) /\
          (fst p1 < fst p2)%nat))
      ranked /\
    (forall c, In c (map snd ranked) ->
       exists d, h' !! c = Some d /\
                 d !! "similarity_score" = Some (VFloat (score_in h temas c))).
Proof.
  intros Htemas Htext.
  set (score := score_in h temas).
  set (keep := fun c => Qltb (as_compared threshold) (score c)).
  set (candidates := List.filter (fun p : nat * nat => keep (snd p))
                       (indexed_from 0 self_chunks)).
  set (ranked := sort_by (fun p : nat * nat => score (snd p)) candidates).
  assert (Hperm : Permutation ranked candidates) by apply sort_by_perm.
  assert (Eres : map snd ranked = sort_by score (List.filter keep self_chunks)).
  { subst ranked candidates. rewrite <- sort_by_map, <- filter_map_snd.
    rewrite map_snd_indexed_from. reflexivity. }
  exists ranked, (write_scores score (List.filter keep self_chunks) h).
  split; [|split; [|split; [|split]]].
  - rewrite Eres. apply filter_by_vector_temas_run; assumption.
  - intros i c. split.
    + intros Hin. apply (Permutation_in _ Hperm) in Hin.
      apply List.filter_In in Hin as [Hin Hk].
      apply in_indexed_from in Hin as [_ Hl]. rewrite Nat.sub_0_r in Hl.
      split; [exact Hl | apply Qltb_lt, Hk].
    + intros [Hl Hk]. apply (Permutation_in _ (Permutation_sym Hperm)).
      apply List.filter_In. split; [|apply Qltb_lt, Hk].
      apply in_indexed_from. rewrite Nat.sub_0_r. split; [lia | exact Hl].
  - apply (Permutation_NoDup (Permutation_map fst (Permutation_sym Hperm))).
    apply StronglySorted_lt_NoDup, StronglySorted_filter, indexed_from_sorted.
  - apply (sort_by_sorted (fun p : nat * nat => score (snd p)) fst).
    apply StronglySorted_filter, indexed_from_sorted.
  - intros c Hc. apply write_scores_lookup.
    rewrite Eres in Hc. apply (Permutation_in _ (sort_by_perm _ _)) in Hc.
    exact Hc.
Qed.

(** With topics given, the axis tag asked for changes nothing in what
    [get_filtered_chunks] returns: the semantic filter starts again from
    [self.chunks]. *)
Lemma axis_filter_has_no_effect (vector_temas : option (list str))
    (eje_activo : option str) (mode : option str) (max_chunks : Z) (h : store) :
  truthy_arg vector_temas = true ->
  Forall (has_field h "eje") self_chunks ->
  get_filtered_chunks vector_temas eje_activo mode max_chunks h
  = get_filtered_chunks vector_temas None mode max_chunks h.
Proof.
  intros Ht Hall. unfold get_filtered_chunks. rewrite Ht. simpl truthy_arg.
  destruct (truthy_arg eje_activo) eqn:He; [|reflexivity].
  unfold bind at 1. unfold filter_by_eje. rewrite He. cbn [negb].
  rewrite (keep_loop_all "eje" eje_activo h self_chunks Hall []).
  reflexivity.
Qed.

(** *** The whole pipeline with topics *)

Lemma field_of_set_score (h : store) (c : nat) (x : Q) (field : string) (c' : nat) :
  field_of (set_score h c x) field c' = field_of h field c'.
Proof.
  unfold field_of, set_score.
  destruct (decide (c' = c)) as [->|Hne].
  - rewrite lookup_insert_eq. simpl. unfold metadata_field, getitem.
    rewrite lookup_insert_ne by discriminate. reflexivity.
  - rewrite lookup_insert_ne by congruence. reflexivity.
Qed.

Lemma field_of_write_scores (score : nat -> Q) (retained : list nat) (field : string)
    (c : nat) :
  forall h, field_of (write_scores score retained h) field c = field_of h field c.
Proof.
  unfold write_scores. induction retained as [|r retained IH]; intros h; simpl.
  - reflexivity.
  - rewrite IH. apply field_of_set_score.
Qed.

Lemma text_of_write_scores (score : nat -> Q) (retained : list nat) (c : nat) :
  forall h, text_of (write_scores score retained h) c = text_of h c.
Proof.
  unfold write_scores. induction retained as [|r retained IH]; intros h; simpl.
  - reflexivity.
  - rewrite IH. apply text_of_set_score.
Qed.

Lemma slice_from_start {A} (l : list A) (k : Z) :
  slice l 0 k
  = if k <? 0 then firstn (length l - Z.to_nat (- k)) l else firstn (Z.to_nat k) l.
Proof.
  destruct (Z.ltb_spec k 0) as [Hneg|Hpos].
  - unfold slice, clamp_index, len.
    replace (0 <? 0) with false by reflexivity.
    replace (k <? 0) with true by (symmetry; apply Z.ltb_lt; lia).
    replace (Z.to_nat (Z.min 0 (Z.of_nat (length l)))) with 0%nat by lia.
    simpl skipn. f_equal. lia.
  - rewrite Indexer.slice_nonneg by lia. simpl. f_equal. lia.
Qed.

(** X13.  With topics, on a snapshot whose chunks all have a text, an axis
    and a type: [get_filtered_chunks] returns the chunks of ALL of
    [self.chunks] that score above the threshold 0.3 as NumPy converts it
    for the comparison (0.3 itself under NumPy 1, [float32(0.3)] under
    NumPy 2), by decreasing score (ties in snapshot order), then those of
    type [mode] among them, then the slice [[:max_chunks]]; the axis tag
    asked for plays no part.  The store is left with the scores written
    into the retained records. *)
Theorem get_filtered_chunks_with_topics (temas : list str) (eje_activo : option str)
    (mode : option str) (max_chunks : Z) (h : store) :
  temas <> [] ->
  (forall c, In c self_chunks -> exists t, text_of h c = Ok t) ->
  Forall (has_field h "eje") self_chunks ->
  Forall (has_field h "type") self_chunks ->
  let score := score_in h temas in
  let retained :=
    List.filter (fun c => Qltb (as_compared default_threshold) (score c))
      self_chunks in
  get_filtered_chunks (Some temas) eje_activo mode max_chunks h
  = (Ok (slice (List.filter (field_is h "type" mode) (sort_by score retained))
           0 max_chunks),
     write_scores score retained h).
Proof.
  intros Htemas Htext Heje Htype score retained.
  assert (Ht : truthy_arg (Some temas) = true)
    by (simpl; destruct temas; [congruence | reflexivity]).
  rewrite axis_filter_has_no_effect by assumption.
  unfold get_filtered_chunks. rewrite Ht. simpl truthy_arg. cbv iota.
  unfold bind at 1, ret at 1. unfold bind at 1.
  rewrite (filter_by_vector_temas_run temas default_threshold h Htemas Htext).
  fold score. fold retained.
  set (h' := write_scores score retained h).
  set (ranked := sort_by score retained).
  assert (Hsub : forall c, In c ranked -> In c self_chunks).
  { intros c Hc. apply (Permutation_in _ (sort_by_perm _ _)) in Hc.
    apply List.filter_In in Hc as [Hc _]. exact Hc. }
  assert (Hall : Forall (has_field h' "type") ranked).
  { apply Forall_forall. intros c Hc. apply list_elem_of_In in Hc.
    rewrite Forall_forall in Htype.
    destruct (Htype c) as [s Hs]; [apply list_elem_of_In, Hsub, Hc|].
    exists s. subst h'. rewrite field_of_write_scores. exact Hs. }
  unfold bind, filter_by_mode.
  rewrite (keep_loop_all "type" mode h' ranked Hall []). simpl app. unfold ret.
  f_equal. f_equal. f_equal. apply List.filter_ext. intros c.
  unfold field_is. subst h'. rewrite field_of_write_scores. reflexivity.
Qed.

(** X14.  With no topics and no axis tag, on chunks that all carry a type,
    a negative [max_chunks] does not empty the result: [get_filtered_chunks]
    returns the chunks of type [mode] without the last [-max_chunks] of
    them. *)
Theorem get_filtered_chunks_negative_cap (vector_temas : option (list str))
    (eje_activo : option str) (mode : option str) (max_chunks : Z) (h : store) :
  truthy_arg vector_temas = false ->
  truthy_arg eje_activo = false ->
  max_chunks < 0 ->
  Forall (has_field h "type") self_chunks ->
  let of_mode := List.filter (field_is h "type" mode) self_chunks in
  get_filtered_chunks vector_temas eje_activo mode max_chunks h
  = (Ok (firstn (length of_mode - Z.to_nat (- max_chunks)) of_mode), h).
Proof.
  intros Ht He Hmax Hall of_mode. unfold get_filtered_chunks.
  rewrite Ht, He. unfold bind at 1, ret at 1. unfold bind at 1, ret at 1.
  unfold bind, filter_by_mode.
  rewrite (keep_loop_all "type" mode h self_chunks Hall []). simpl app.
  unfold ret. rewrite slice_from_start.
  replace (max_chunks <? 0) with true by (symmetry; apply Z.ltb_lt; lia).
  reflexivity.
Qed.

(** *** Modes split the chunks *)

Lemma field_is_true (h : store) (field : string) (m : str) (c : nat) :
  field_is h field (Some m) c = true <-> field_of h field c = Ok m.
Proof.
  unfold field_is. destruct (field_of h field c) as [s|e]; simpl.
  - rewrite bool_decide_eq_true. split; congruence.
  - split; discriminate.
Qed.

Lemma filter_split_permutation {A} (f g : A -> bool) (l : list A) :
  (forall x, In x l -> f x = negb (g x)) ->
  Permutation (List.filter f l ++ List.filter g l) l.
Proof.
  induction l as [|x l IH]; intros H; simpl; [constructor|].
  rewrite (H x (or_introl eq_refl)).
  assert (IH' := IH (fun y Hy => H y (or_intror Hy))).
  destruct (g x); simpl.
  - apply Permutation_sym, Permutation_cons_app, Permutation_sym, IH'.
  - constructor. exact IH'.
Qed.

(** X15.  On chunks that all carry a type, the mode filter for one mode and
    the mode filter for a different mode return lists with no chunk in
    common; when every chunk has one of the two types, the two lists
    together hold every chunk of the input exactly as often as the input
    does. *)
Theorem filter_by_mode_partition (chunks : list nat) (h : store) (m1 m2 : str) :
  m1 <> m2 ->
  Forall (has_field h "type") chunks ->
  exists r1 r2,
    filter_by_mode chunks (Some m1) h = (Ok r1, h) /\
    filter_by_mode chunks (Some m2) h = (Ok r2, h) /\
    (forall c, In c r1 -> ~ In c r2) /\
    ((forall c, In c chunks ->
        field_of h "type" c = Ok m1 \/ field_of h "type" c = Ok m2) ->
     Permutation (r1 ++ r2) chunks).
Proof.
  intros Hne Hall.
  exists (List.filter (field_is h "type" (Some m1)) chunks),
         (List.filter (field_is h "type" (Some m2)) chunks).
  unfold filter_by_mode.
  rewrite !(keep_loop_all "type" _ h chunks Hall []). simpl app.
  split; [reflexivity|]. split; [reflexivity|]. split.
  - intros c H1 H2.
    apply List.filter_In in H1 as [_ H1]. apply List.filter_In in H2 as [_ H2].
    apply field_is_true in H1, H2. congruence.
  - intros Htypes. apply filter_split_permutation. intros c Hc.
    destruct (field_is h "type" (Some m2) c) eqn:E2; simpl.
    + apply field_is_true in E2.
      destruct (field_is h "type" (Some m1) c) eqn:E1; [|reflexivity].
      apply field_is_true in E1. congruence.
    + apply field_is_true. destruct (Htypes c Hc) as [H|H]; [exact H|].
      apply field_is_true in H. congruence.
Qed.

(** *** What any successful call returns *)

Lemma keep_loop_ok (field : string) (wanted : option str) (h : store)
    (chunks : list nat) :
  forall kept r h',
    for_each chunks (keep_if_field field wanted) kept h = (Ok r, h') ->
    h' = h /\ r = kept ++ List.filter (field_is h field wanted) chunks.
Proof.
  induction chunks as [|c chunks IH]; intros kept r h'; simpl.
  - unfold ret. intros [= <- <-]. rewrite app_nil_r. auto.
  - unfold bind at 1, keep_if_field at 1, bind at 1, deref, bind at 1, lift, ret at 1.
    unfold field_is at 1, field_of.
    destruct (metadata_field (default ∅ (h !! c)) field) as [s|e]; [|discriminate].
    intros H. apply IH in H as [-> ->]. split; [reflexivity|].
    destruct (eq_arg s wanted); [|reflexivity].
    rewrite <- List.app_assoc. reflexivity.
Qed.

Lemma score_loop_ok (temas_embedding : vec) (threshold : Q) (chunks : list nat) :
  forall acc h r h',
    for_each chunks (score_chunk temas_embedding threshold) acc h = (Ok r, h') ->
    exists kept, r = acc ++ kept /\ forall c, In c kept -> In c chunks.
Proof.
  induction chunks as [|c chunks IH]; intros acc h r h'; simpl.
  - unfold ret. intros [= <- <-]. exists []. rewrite app_nil_r. split; [reflexivity|].
    intros c [].
  - unfold bind at 1, score_chunk at 1, bind at 1, deref, bind at 1, lift.
    destruct (text_field (default ∅ (h !! c))) as [t|e]; [|discriminate].
    destruct (Qltb (as_compared threshold) (cosine_similarity temas_embedding (encode1 t))).
    + unfold bind at 1, setitem, ret at 1. intros H.
      apply IH in H as [kept [-> Hk]]. exists (c :: kept).
      rewrite <- List.app_assoc. split; [reflexivity|].
      intros c' [<-|Hc]; [left; reflexivity | right; apply Hk, Hc].
    + unfold ret at 1. intros H. apply IH in H as [kept [-> Hk]].
      exists kept. split; [reflexivity|]. intros c' Hc. right. apply Hk, Hc.
Qed.

Lemma sort_key_loop_ok (filtered : list nat) :
  forall keyed r h h',
    for_each filtered sort_key keyed h = (Ok r, h') ->
    h' = h /\ map snd r = map snd keyed ++ filtered.
Proof.
  induction filtered as [|c filtered IH]; intros keyed r h h'; simpl.
  - unfold ret. intros [= <- <-]. rewrite app_nil_r. auto.
  - unfold bind at 1, sort_key at 1, bind at 1, deref, bind at 1, lift, ret at 1.
    destruct (score_field (default ∅ (h !! c))) as [k|e]; [|discriminate].
    intros H. apply IH in H as [-> ->]. split; [reflexivity|].
    rewrite map_app, <- List.app_assoc. reflexivity.
Qed.

Lemma insert_desc_perm {A} (x : Q * A) (l : list (Q * A)) :
  Permutation (insert_desc x l) (x :: l).
Proof.
  induction l as [|y l IH]; simpl; [reflexivity|].
  destruct (Qltb (fst x) (fst y)); [|reflexivity].
  rewrite IH. apply perm_swap.
Qed.

Lemma sort_desc_perm {A} (l : list (Q * A)) : Permutation (sort_desc l) l.
Proof.
  induction l as [|x l IH]; simpl; [reflexivity|].
  rewrite insert_desc_perm, IH. reflexivity.
Qed.

Lemma sort_by_score_ok (filtered r : list nat) (h h' : store) :
  sort_by_score filtered h = (Ok r, h') -> h' = h /\ Permutation r filtered.
Proof.
  unfold sort_by_score, bind.
  destruct (for_each filtered sort_key [] h) as [[keyed|e] h1] eqn:E; [|discriminate].
  apply sort_key_loop_ok in E as [-> E]. unfold ret. intros [= <- <-].
  split; [reflexivity|]. simpl in E. rewrite <- E.
  apply Permutation_map, sort_desc_perm.
Qed.

Lemma filter_by_vector_temas_ok (vector_temas : option (list str)) (threshold : Q)
    (h h' : store) (r : list nat) :
  filter_by_vector_temas vector_temas threshold h = (Ok r, h') ->
  forall c, In c r -> In c self_chunks.
Proof.
  unfold filter_by_vector_temas.
  destruct (negb (truthy_arg vector_temas) || negb (truthy self_chunks)).
  - unfold ret. intros [= <- <-] c Hc. exact Hc.
  - unfold bind.
    destruct (for_each self_chunks _ [] h) as [[filtered|e] h1] eqn:E; [|discriminate].
    apply score_loop_ok in E as [kept [-> Hk]]. simpl app.
    intros H c Hc. apply sort_by_score_ok in H as [_ Hperm].
    apply Hk, (Permutation_in _ Hperm), Hc.
Qed.

Lemma slice_from_start_incl {A} (l : list A) (k : Z) (x : A) :
  In x (slice l 0 k) -> In x l.
Proof.
  rewrite slice_from_start.
  assert (Hf : forall n, In x (firstn n l) -> In x l).
  { intros n H. rewrite <- (firstn_skipn n l). apply in_or_app. left. exact H. }
  destruct (k <? 0); apply Hf.
Qed.

Lemma slice_from_start_length {A} (l : list A) (k : Z) :
  0 <= k -> len (slice l 0 k) <= k.
Proof.
  intros Hk. rewrite slice_from_start.
  replace (k <? 0) with false by (symmetry; apply Z.ltb_ge; lia).
  unfold len. rewrite length_firstn. lia.
Qed.

Lemma get_filtered_chunks_cap (vector_temas : option (list str))
    (eje_activo : option str) (mode : option str) (max_chunks : Z) (h : store) :
  get_filtered_chunks vector_temas eje_activo mode max_chunks h
  = match matching_chunks vector_temas eje_activo mode h with
    | (Ok chunks, h') => (Ok (slice chunks 0 max_chunks), h')
    | (Err e, h') => (Err e, h')
    end.
Proof.
  unfold get_filtered_chunks, matching_chunks, bind.
  destruct ((if truthy_arg eje_activo then filter_by_eje self_chunks eje_activo
             else ret self_chunks) h) as [[chunks1|e] h1]; [|reflexivity].
  destruct ((if truthy_arg vector_temas
             then filter_by_vector_temas vector_temas default_threshold
             else ret chunks1) h1) as [[chunks2|e] h2]; [|reflexivity].
  destruct (filter_by_mode chunks2 mode h2) as [[chunks3|e] h3]; reflexivity.
Qed.

Lemma matching_chunks_ok (vector_temas : option (list str))
    (eje_activo : option str) (mode : option str) (h h' : store) (chunks : list nat) :
  matching_chunks vector_temas eje_activo mode h = (Ok chunks, h') ->
  forall c, In c chunks ->
    In c self_chunks /\
    field_is h' "type" mode c = true /\
    (truthy_arg eje_activo = true -> truthy_arg vector_temas = false ->
     field_is h' "eje" eje_activo c = true).
Proof.
  unfold matching_chunks. unfold bind at 1.
  destruct ((if truthy_arg eje_activo then filter_by_eje self_chunks eje_activo
             else ret self_chunks) h) as [[chunks1|e] h1] eqn:E1; [|discriminate].
  assert (H1 : h1 = h /\
               (forall c, In c chunks1 ->
                  In c self_chunks /\
                  (truthy_arg eje_activo = true ->
                   field_is h "eje" eje_activo c = true))).
  { destruct (truthy_arg eje_activo) eqn:He.
    - unfold filter_by_eje in E1. rewrite He in E1. cbn [negb] in E1.
      apply keep_loop_ok in E1 as [-> ->]. split; [reflexivity|].
      simpl app. intros c Hc. apply List.filter_In in Hc as [Hc Hf]. auto.
    - unfold ret in E1. injection E1 as <- <-. split; [reflexivity|].
      intros c Hc. split; [exact Hc | discriminate]. }
  destruct H1 as [-> H1]. unfold bind at 1.
  destruct ((if truthy_arg vector_temas
             then filter_by_vector_temas vector_temas default_threshold
             else ret chunks1) h) as [[chunks2|e] h2] eqn:E2; [|discriminate].
  assert (H2 : forall c, In c chunks2 ->
                 In c self_chunks /\
                 (truthy_arg eje_activo = true -> truthy_arg vector_temas = false ->
                  h2 = h /\ field_is h "eje" eje_activo c = true)).
  { destruct (truthy_arg vector_temas) eqn:Ht.
    - intros c Hc. split; [|discriminate].
      apply (filter_by_vector_temas_ok _ _ _ _ _ E2 c Hc).
    - unfold ret in E2. injection E2 as <- <-. intros c Hc.
      destruct (H1 c Hc) as [Hin He]. auto. }
  unfold filter_by_mode. intros E3.
  apply keep_loop_ok in E3 as [-> ->]. simpl app.
  intros c Hc. apply List.filter_In in Hc as [Hc Hm].
  destruct (H2 c Hc) as [Hin He]. split; [exact Hin|]. split; [exact Hm|].
  intros Hea Hvt. destruct (He Hea Hvt) as [-> Hf]. exact Hf.
Qed.

(** X16.  Whatever the snapshot and the arguments, when a call of
    [get_filtered_chunks] returns, every chunk of the result is one of
    [self.chunks] and has the type [mode]; it has the axis tag asked for
    when one was asked for and no topics were given; and for a
    [max_chunks] that is not negative the result has at most [max_chunks]
    chunks. *)
Theorem get_filtered_chunks_sound (vector_temas : option (list str))
    (eje_activo : option str) (mode : option str) (max_chunks : Z)
    (h h' : store) (chunks : list nat) :
  get_filtered_chunks vector_temas eje_activo mode max_chunks h = (Ok chunks, h') ->
  (forall c, In c chunks ->
     In c self_chunks /\
     field_is h' "type" mode c = true /\
     (truthy_arg eje_activo = true -> truthy_arg vector_temas = false ->
      field_is h' "eje" eje_activo c = true)) /\
  (0 <= max_chunks -> len chunks <= max_chunks).
Proof.
  rewrite get_filtered_chunks_cap.
  destruct (matching_chunks vector_temas eje_activo mode h) as [[l|e] h1] eqn:E;
    [|discriminate].
  intros [= <- <-]. split; [|apply slice_from_start_length].
  intros c Hc. apply slice_from_start_incl in Hc.
  apply (matching_chunks_ok _ _ _ _ _ _ E c Hc).
Qed.

(** *** Filtering a second time *)

Lemma write_scores_lookup_all (score : nat -> Q) (retained : list nat) (h : store)
    (c : nat) :
  write_scores score retained h !! c
  = if decide (c ∈ retained)
    then Some (<["similarity_score" := VFloat (score c)]> (default ∅ (h !! c)))
    else h !! c.
Proof.
  unfold write_scores. revert h.
  induction retained as [|r retained IH] using rev_ind; intros h.
  - simpl. destruct (decide (c ∈ [])) as [Hin|_]; [|reflexivity].
    apply elem_of_nil in Hin as [].
  - rewrite fold_left_app. simpl. unfold set_score.
    destruct (decide (c = r)) as [->|Hne].
    + rewrite lookup_insert_eq.
      destruct (decide (r ∈ retained ++ [r])) as [_|Hn].
      2:{ exfalso. apply Hn, elem_of_app. right. apply list_elem_of_singleton.
          reflexivity. }
      rewrite IH. destruct (decide (r ∈ retained)); simpl; [|reflexivity].
      rewrite insert_insert_eq. reflexivity.
    + rewrite lookup_insert_ne by congruence. rewrite IH.
      destruct (decide (c ∈ retained)) as [Hin|Hn];
        destruct (decide (c ∈ retained ++ [r])) as [Hin'|Hn'];
        try reflexivity; exfalso.
      * apply Hn', elem_of_app. left. exact Hin.
      * apply elem_of_app in Hin' as [Hin'|Hr]; [contradiction|].
        apply list_elem_of_singleton in Hr. contradiction.
Qed.

Lemma write_scores_twice (score : nat -> Q) (retained : list nat) (h : store) :
  write_scores score retained (write_scores score retained h)
  = write_scores score retained h.
Proof.
  apply map_eq. intros c. rewrite (write_scores_lookup_all _ _ (write_scores _ _ _)).
  destruct (decide (c ∈ retained)) as [Hin|Hn]; [|reflexivity].
  rewrite write_scores_lookup_all. destruct (decide (c ∈ retained)); [|contradiction].
  simpl. rewrite insert_insert_eq. reflexivity.
Qed.

Lemma sort_by_ext {A} (key key' : A -> Q) (l : list A) :
  (forall x, key x = key' x) -> sort_by key l = sort_by key' l.
Proof.
  intros E. induction l as [|x l IH]; simpl; [reflexivity|]. rewrite IH.
  generalize (sort_by key' l). intros s.
  induction s as [|y s IHs]; simpl; [reflexivity|].
  rewrite !E, IHs. reflexivity.
Qed.

Lemma write_scores_ext (score score' : nat -> Q) (retained : list nat) :
  (forall c, score c = score' c) ->
  forall h, write_scores score retained h = write_scores score' retained h.
Proof.
  intros E. unfold write_scores.
  induction retained as [|r retained IH]; intros h; simpl; [reflexivity|].
  rewrite E. apply IH.
Qed.

(** X17.  [filter_by_vector_temas] can be called again: on a snapshot whose
    chunks all have a text, a second call with the same topics and threshold,
    made on the records the first call has written its scores into, returns
    the same list and leaves the records as the first call left them. *)
Theorem filter_by_vector_temas_again (temas : list str) (threshold : Q) (h : store) :
  temas <> [] ->
  (forall c, In c self_chunks -> exists t, text_of h c = Ok t) ->
  let run := filter_by_vector_temas (Some temas) threshold in
  run (snd (run h)) = run h.
Proof.
  intros Htemas Htext run. subst run.
  rewrite (filter_by_vector_temas_run temas threshold h Htemas Htext). simpl snd.
  set (score := score_in h temas).
  set (retained := List.filter (fun c => Qltb (as_compared threshold) (score c)) self_chunks).
  set (h1 := write_scores score retained h).
  assert (Htext1 : forall c, In c self_chunks -> exists t, text_of h1 c = Ok t).
  { intros c Hc. subst h1. rewrite text_of_write_scores. apply Htext, Hc. }
  assert (Escore : forall c, score_in h1 temas c = score c).
  { intros c. unfold score, score_in. subst h1.
    rewrite text_of_write_scores. reflexivity. }
  rewrite (filter_by_vector_temas_run temas threshold h1 Htemas Htext1).
  assert (Eret : List.filter (fun c => Qltb (as_compared threshold) (score_in h1 temas c)) self_chunks
                 = retained).
  { apply List.filter_ext. intros c. rewrite Escore. reflexivity. }
  rewrite Eret, (sort_by_ext _ score _ Escore).
  rewrite (write_scores_ext _ score retained Escore).
  subst h1. rewrite write_scores_twice. reflexivity.
Qed.

(** *** Suggestions *)

Lemma suggestion_of_length (text : str) : len (suggestion_of text) <= 103.
Proof.
  unfold suggestion_of.
  destruct (len (strip (first_sentence text)) >? 100) eqn:E.
  - pose proof (slice_from_start_length (strip (first_sentence text)) 100
                  ltac:(lia)) as H.
    unfold len in *. rewrite length_app. simpl length. lia.
  - rewrite Z.gtb_ltb in E. apply Z.ltb_ge in E. lia.
Qed.

Lemma suggest_loop_ok (h : store) (chunks : list nat) :
  forall acc r,
    suggest_loop h chunks acc = inr r ->
    exists new,
      r = acc ++ new /\
      Forall2 (fun c s =>
                 exists text eje,
                   text_of h c = Ok text /\ field_of h "eje" c = Ok eje /\
                   s = eje ++ py ": " ++ suggestion_of text)
        chunks new.
Proof.
  induction chunks as [|c chunks IH]; intros acc r; simpl.
  - intros [= <-]. exists []. rewrite app_nil_r. split; [reflexivity | constructor].
  - destruct (suggest h c) as [e|s] eqn:Es; [discriminate|].
    intros H. apply IH in H as [new [-> Hnew]].
    exists (s :: new). rewrite <- List.app_assoc. split; [reflexivity|].
    constructor; [|exact Hnew].
    unfold suggest in Es. unfold text_of, text_field, field_of.
    destruct (getitem (default ∅ (h !! c)) "text") as [[text| |]|e]; try discriminate.
    destruct (metadata_field (default ∅ (h !! c)) "eje") as [eje|e]; [|discriminate].
    injection Es as <-. exists text, eje. auto.
Qed.

Lemma slice_of_slice {A} (l : list A) :
  slice (slice l 0 20) 0 5 = slice l 0 5.
Proof.
  rewrite !Indexer.slice_nonneg by lia.
  change (Z.to_nat 0) with 0%nat. rewrite !skipn_O.
  rewrite List.firstn_firstn. reflexivity.
Qed.

Lemma truthy_slice {A} (l : list A) (k : Z) :
  0 < k -> truthy (slice l 0 k) = truthy l.
Proof.
  intros Hk. rewrite Indexer.slice_nonneg by lia.
  change (Z.to_nat 0) with 0%nat. rewrite skipn_O.
  destruct (Z.to_nat k - 0)%nat as [|n] eqn:E; [lia|].
  destruct l; reflexivity.
Qed.

(** X18.  [generate_suggestions] asks for 20 chunks and uses the first 5:
    whatever the snapshot, it returns, or raises, what comes of the chunks
    that [get_filtered_chunks] returns for [max_chunks=5], with the
    records as that call leaves them; the placeholder line is returned
    exactly when no chunk passes the filters. *)
Theorem generate_suggestions_top_five (vector_temas : option (list str))
    (mode : option str) (eje_activo : option str) (h : store) :
  generate_suggestions vector_temas mode eje_activo h
  = match get_filtered_chunks vector_temas eje_activo mode 5 h with
    | (Err e, h') => (inl (Raised e), h')
    | (Ok top, h') =>
        (if truthy top then suggest_loop h' top [] else inr [placeholder], h')
    end.
Proof.
  unfold generate_suggestions. rewrite !get_filtered_chunks_cap.
  destruct (matching_chunks vector_temas eje_activo mode h) as [[l|e] h'];
    [|reflexivity].
  rewrite slice_of_slice, !truthy_slice by lia.
  destruct (truthy l); reflexivity.
Qed.

(** X19.  When [generate_suggestions] returns, the list is not empty and
    has at most 5 lines; it is the placeholder line alone, or it has one
    line for each of at most 5 chunks of [self.chunks] of type [mode], in
    order: the axis tag of the chunk, a colon and a space, and the trimmed
    first sentence of its text, cut to 100 characters and an ellipsis. *)
Theorem generate_suggestions_lines (vector_temas : option (list str))
    (mode : option str) (eje_activo : option str) (h h' : store)
    (suggestions : list str) :
  generate_suggestions vector_temas mode eje_activo h = (inr suggestions, h') ->
  suggestions <> [] /\
  len suggestions <= 5 /\
  (suggestions = [placeholder] \/
   exists top,
     (forall c, In c top -> In c self_chunks /\ field_is h' "type" mode c = true) /\
     Forall2 (fun c s =>
                exists text eje,
                  text_of h' c = Ok text /\ field_of h' "eje" c = Ok eje /\
                  s = eje ++ py ": " ++ suggestion_of text /\
                  len (suggestion_of text) <= 103)
       top suggestions).
Proof.
  unfold generate_suggestions. rewrite get_filtered_chunks_cap.
  destruct (matching_chunks vector_temas eje_activo mode h) as [[l|e] h1] eqn:E;
    [|discriminate].
  rewrite truthy_slice by lia.
  destruct l as [|c0 l]; simpl truthy; cbn [negb].
  - intros [= <- <-]. split; [discriminate|]. split; [unfold len; simpl; lia|].
    left. reflexivity.
  - rewrite slice_of_slice. intros H. injection H as H <-.
    apply suggest_loop_ok in H as [new [-> Hnew]]. simpl app.
    pose proof (Forall2_length _ _ _ Hnew) as Hlen.
    pose proof (slice_from_start_length (c0 :: l) 5 ltac:(lia)) as Hcap.
    assert (Hne : slice (c0 :: l) 0 5 <> []).
    { intros E0. pose proof (truthy_slice (c0 :: l) 5 ltac:(lia)) as Ht.
      rewrite E0 in Ht. discriminate. }
    split; [|split].
    + intros ->. destruct (slice (c0 :: l) 0 5); [congruence | discriminate].
    + unfold len in *.
      apply (Z.le_trans _ _ _ (Z.eq_le_incl _ _ (f_equal Z.of_nat (eq_sym Hlen))) Hcap).
    + right. exists (slice (c0 :: l) 0 5). split.
      * intros c Hc. apply slice_from_start_incl in Hc.
        destruct (matching_chunks_ok _ _ _ _ _ _ E c Hc) as [Hin [Hm _]]. auto.
      * eapply Forall2_impl; [exact Hnew|].
        intros c s [text [eje [Ht [He Hs]]]]. exists text, eje.
        repeat split; try assumption. apply suggestion_of_length.
Qed.

(** *** Without a chunks file *)

Lemma slice_nil {A} (lo hi : Z) : slice (@nil A) lo hi = [].
Proof. unfold slice. rewrite skipn_nil. apply firstn_nil. Qed.

(** X20.  When the chunks file was not found the manager holds no chunk,
    and no query raises or writes: the semantic filter and
    [get_filtered_chunks] return the empty list whatever their arguments,
    and [generate_suggestions] returns the placeholder line alone. *)
Theorem queries_without_chunks (vector_temas : option (list str))
    (eje_activo : option str) (mode : option str) (threshold : Q)
    (max_chunks : Z) (h : store) :
  self_chunks = load_chunks None ->
  filter_by_vector_temas vector_temas threshold h = (Ok [], h) /\
  get_filtered_chunks vector_temas eje_activo mode max_chunks h = (Ok [], h) /\
  generate_suggestions vector_temas mode eje_activo h = (inr [placeholder], h).
Proof.
  simpl load_chunks. intros Hnone.
  assert (Hv : forall thr, filter_by_vector_temas vector_temas thr h = (Ok [], h)).
  { intros thr. unfold filter_by_vector_temas. rewrite Hnone. simpl.
    rewrite orb_true_r. reflexivity. }
  assert (Hg : forall k,
             get_filtered_chunks vector_temas eje_activo mode k h = (Ok [], h)).
  { intros k. unfold get_filtered_chunks. unfold bind at 1.
    assert (E1 : (if truthy_arg eje_activo
                  then filter_by_eje self_chunks eje_activo
                  else ret self_chunks) h = (Ok [], h)).
    { unfold filter_by_eje. rewrite Hnone.
      destruct (truthy_arg eje_activo); reflexivity. }
    rewrite E1. unfold bind at 1.
    assert (E2 : (if truthy_arg vector_temas
                  then filter_by_vector_temas vector_temas default_threshold
                  else ret []) h = (Ok [], h)).
    { destruct (truthy_arg vector_temas); [apply Hv | reflexivity]. }
    rewrite E2. unfold bind, filter_by_mode. simpl. unfold ret.
    rewrite slice_nil. reflexivity. }
  split; [apply Hv|]. split; [apply Hg|].
  unfold generate_suggestions. rewrite Hg. reflexivity.
Qed.

(** *** Snapshots on which no call raises *)

Lemma matching_chunks_returns (vector_temas : option (list str))
    (eje_activo : option str) (mode : option str) (h : store) :
  (forall c, In c self_chunks -> exists t, text_of h c = Ok t) ->
  Forall (has_field h "eje") self_chunks ->
  Forall (has_field h "type") self_chunks ->
  exists r h',
    matching_chunks vector_temas eje_activo mode h = (Ok r, h') /\
    (forall c, text_of h' c = text_of h c) /\
    (forall field c, field_of h' field c = field_of h field c).
Proof.
  intros Htext Heje Htype. unfold matching_chunks. unfold bind at 1.
  assert (E1 : exists chunks1,
             (if truthy_arg eje_activo then filter_by_eje self_chunks eje_activo
              else ret self_chunks) h = (Ok chunks1, h) /\
             forall c, In c chunks1 -> In c self_chunks).
  { destruct (truthy_arg eje_activo) eqn:He.
    - unfold filter_by_eje. rewrite He. cbn [negb].
      rewrite (keep_loop_all "eje" eje_activo h self_chunks Heje []).
      eexists. split; [reflexivity|]. simpl app. intros c Hc.
      apply List.filter_In in Hc as [Hc _]. exact Hc.
    - exists self_chunks. split; [reflexivity | auto]. }
  destruct E1 as [chunks1 [E1 Hsub1]]. rewrite E1. unfold bind at 1.
  rewrite Forall_forall in Htype.
  destruct (truthy_arg vector_temas) eqn:Ht.
  - destruct vector_temas as [temas|]; [|discriminate].
    assert (Htemas : temas <> []) by (intros ->; discriminate).
    rewrite (filter_by_vector_temas_run temas default_threshold h Htemas Htext).
    set (score := score_in h temas).
    set (retained := List.filter (fun c => Qltb (as_compared default_threshold) (score c))
                       self_chunks).
    set (h' := write_scores score retained h).
    set (ranked := sort_by score retained).
    assert (Hall : Forall (has_field h' "type") ranked).
    { apply Forall_forall. intros c Hc. apply list_elem_of_In in Hc.
      apply (Permutation_in _ (sort_by_perm _ _)) in Hc.
      apply List.filter_In in Hc as [Hc _].
      destruct (Htype c) as [s Hs]; [apply list_elem_of_In, Hc|].
      exists s. subst h'. rewrite field_of_write_scores. exact Hs. }
    unfold filter_by_mode.
    rewrite (keep_loop_all "type" mode h' ranked Hall []).
    eexists. exists h'. split; [reflexivity|]. split.
    + intros c. apply text_of_write_scores.
    + intros field c. apply field_of_write_scores.
  - unfold ret at 1. unfold filter_by_mode.
    assert (Hall : Forall (has_field h "type") chunks1).
    { apply Forall_forall. intros c Hc. apply Htype.
      apply list_elem_of_In, Hsub1, list_elem_of_In, Hc. }
    rewrite (keep_loop_all "type" mode h chunks1 Hall []).
    eexists. exists h. split; [reflexivity | auto].
Qed.

Lemma suggest_loop_returns (h : store) (chunks : list nat) :
  (forall c, In c chunks -> (exists t, text_of h c = Ok t) /\ has_field h "eje" c) ->
  forall acc, exists lines, suggest_loop h chunks acc = inr lines.
Proof.
  induction chunks as [|c chunks IH]; intros Hall acc; simpl.
  - exists acc. reflexivity.
  - destruct (Hall c (or_introl eq_refl)) as [[t Ht] [eje He]].
    unfold suggest. unfold text_of, text_field in Ht. unfold field_of in He.
    destruct (getitem (default ∅ (h !! c)) "text") as [[text| |]|e];
      try discriminate.
    rewrite He. apply IH. intros c' Hc'. apply Hall. right. exact Hc'.
Qed.

Lemma queries_return (vector_temas : option (list str))
    (eje_activo : option str) (mode : option str) (max_chunks : Z) (h : store) :
  (forall c, In c self_chunks -> exists t, text_of h c = Ok t) ->
  Forall (has_field h "eje") self_chunks ->
  Forall (has_field h "type") self_chunks ->
  (exists r h',
     get_filtered_chunks vector_temas eje_activo mode max_chunks h = (Ok r, h')) /\
  (exists lines h',
     generate_suggestions vector_temas mode eje_activo h = (inr lines, h')).
Proof.
  intros Htext Heje Htype.
  destruct (matching_chunks_returns vector_temas eje_activo mode h Htext Heje Htype)
    as [r [h' [E [Ht Hf]]]].
  split.
  - rewrite get_filtered_chunks_cap, E. eauto.
  - unfold generate_suggestions. rewrite get_filtered_chunks_cap, E.
    destruct (negb (truthy (slice r 0 20))); [eauto|].
    destruct (suggest_loop_returns h' (slice (slice r 0 20) 0 5)) with (acc := @nil str)
      as [lines Hl].
    + intros c Hc. apply slice_from_start_incl, slice_from_start_incl in Hc.
      destruct (matching_chunks_ok _ _ _ _ _ _ E c Hc) as [Hin _].
      split.
      * rewrite Ht. apply Htext, Hin.
      * rewrite Forall_forall in Heje.
        destruct (Heje c) as [s Hs]; [apply list_elem_of_In, Hin|].
        exists s. rewrite Hf. exact Hs.
    + rewrite Hl. eauto.
Qed.

End Model.

(** *** A small snapshot *)

Definition chunk_record (t eje type : string) : gmap string value :=
  {[ "text" := VStr (py t);
     "metadata" := VDict {[ "eje" := py eje; "type" := py type ]} ]}.

(** Four well-formed records, one without an [eje], one without metadata. *)
Definition example_store : store :=
  {[ 0%nat := chunk_record "Una funcion devuelve un valor" "U8-Funciones" "theory";
     1%nat := chunk_record "Un arreglo guarda varios datos" "U4-Arreglos" "theory";
     2%nat := chunk_record "Resolver el ejercicio de suma" "U8-Funciones" "practice";
     3%nat := chunk_record "Vector" "U4-Arreglos" "theory";
     4%nat := {[ "text" := VStr (py "Sin eje");
                 "metadata" := VDict {[ "type" := py "theory" ]} ]};
     5%nat := {[ "text" := VStr (py "Sin metadatos") ]} ]}.

(** The integer nearest to [n / d], ties to the even one ([0 <= n], [0 < d]). *)
Definition round_half_even (n d : Z) : Z :=
  let q := n / d in
  let r := n mod d in
  if 2 * r <? d then q
  else if d <? 2 * r then q + 1
  else if Z.even q then q else q + 1.

(** The conversion of NumPy 2: the [float32] nearest to a value, ties to
    even, for a value whose size is in the normal range of [float32] (as
    every threshold used below is), and 0 for 0.  With [2^e <= |x| < 2^(e+1)]
    the result is a multiple of [2^(e-23)]. *)
Definition round_float32 (x : Q) : Q :=
  let n := Z.abs (Qnum x) in
  let d := Zpos (Qden x) in
  if n =? 0 then 0%Q
  else
    let e0 := Z.log2 n - Z.log2 d in
    let e :=
      if (if 0 <=? e0 then d * 2 ^ e0 <=? n else d <=? n * 2 ^ (- e0))
      then e0 else e0 - 1 in
    let s := e - 23 in
    let m :=
      if 0 <=? s then round_half_even n (d * 2 ^ s)
      else round_half_even (n * 2 ^ (- s)) d in
    let sign := if Qnum x <? 0 then -1 else 1 in
    Qred (if 0 <=? s then inject_Z (sign * m * 2 ^ s)
          else Qmake (sign * m) (Z.to_pos (2 ^ (- s)))).

(** [float32(0.3)], which is above the Python float [0.3]. *)
Definition float32_03 : Q := 10066330 # 33554432.

(** A stand-in for the model: a text is its own vector, and the similarity
    of a chunk is the length of its text over 40. *)
Definition length_score (temas_embedding chunk_embedding : str) : Q :=
  len chunk_embedding # 40.

Definition theory : option str := Some (py "theory").

(** Records for the suggestions: a text of two sentences with blanks around
    the first, a text of 120 characters without a full stop, a text that is
    a number, and a record without metadata. *)
Definition suggestion_store : store :=
  {[ 0%nat := chunk_record "  Resolver la suma . Luego imprimir." "U8-Funciones"
                "practice";
     1%nat := {[ "text" := VStr (Chunker.repeat_str (py "a") 120);
                 "metadata" := VDict {[ "eje" := py "U4-Arreglos";
                                        "type" := py "practice" ]} ]};
     2%nat := {[ "text" := VFloat 1;
                 "metadata" := VDict {[ "eje" := py "U4-Arreglos";
                                        "type" := py "practice" ]} ]};
     3%nat := {[ "text" := VStr (py "Sin eje");
                 "metadata" := VDict {[ "type" := py "practice" ]} ]} ]}.

Definition practice : option str := Some (py "practice").

Example scores :
  map (score_in str id length_score example_store [py "Funcion"]) [0; 1; 2; 3]%nat
  = [29 # 40; 30 # 40; 29 # 40; 6 # 40]%Q.
Proof. reflexivity. Qed.

(** [filter_by_vector_temas]: the one chunk at or below the threshold is
    dropped; of the two chunks of similarity 29/40 the earlier comes first. *)
Example filter_by_vector_temas_example :
  fst (filter_by_vector_temas str id length_score round_float32 [0; 1; 2; 3]%nat
         (Some [py "Funcion"; py "Vector"]) default_threshold example_store)
  = Ok [1; 0; 2]%nat.
Proof. reflexivity. Qed.

Lemma example_texts (c : nat) :
  In c [0; 1; 2; 3]%nat -> exists t, text_of example_store c = Ok t.
Proof.
  intros [<-|[<-|[<-|[<-|[]]]]]; eexists; vm_compute; reflexivity.
Defined.

Lemma filter_by_vector_temas_ranked_witness :
  let temas := [py "Funcion"; py "Vector"] in
  let score := score_in str id length_score example_store temas in
  exists (ranked : list (nat * nat)) (h' : store),
    filter_by_vector_temas str id length_score round_float32 [0; 1; 2; 3]%nat
      (Some temas) default_threshold example_store = (Ok (map snd ranked), h') /\
    (forall i c, In (i, c) ranked <->
                 [0; 1; 2; 3]%nat !! i = Some c /\ (round_float32 default_threshold < score c)%Q) /\
    List.NoDup (map fst ranked) /\
    StronglySorted
      (fun p1 p2 : nat * nat =>
         (score (snd p2) < score (snd p1))%Q \/
         (score (snd p1) == score (snd p2) /\ (fst p1 < fst p2)%nat))
      ranked /\
    (forall c, In c (map snd ranked) ->
       exists d, h' !! c = Some d /\
                 d !! "similarity_score" = Some (VFloat (score c))).
Proof.
  exact (filter_by_vector_temas_ranked str id length_score round_float32 [0; 1; 2; 3]%nat
           [py "Funcion"; py "Vector"] default_threshold example_store
           ltac:(discriminate) example_texts).
Defined.

(** The float [0.3] and the [float32] next to it. *)
Example float32_of_threshold :
  (round_float32 default_threshold == float32_03)%Q /\
  (default_threshold < float32_03)%Q.
Proof. split; reflexivity. Qed.

(** Under NumPy 2 a chunk whose similarity is [float32(0.3)] is dropped,
    although that value is strictly greater than the threshold 0.3: the
    threshold is rounded to [float32(0.3)] before the comparison.  Under
    NumPy 1 the same call keeps the chunk. *)
Lemma filter_by_vector_temas_ranked_counterexample :
  let boundary := fun _ _ : str => float32_03 in
  let score := score_in str id boundary example_store [py "Funcion"] in
  score 0%nat = float32_03 /\
  (default_threshold < score 0%nat)%Q /\
  filter_by_vector_temas str id boundary round_float32 [0%nat]
    (Some [py "Funcion"]) default_threshold example_store
  = (Ok [], example_store) /\
  fst (filter_by_vector_temas str id boundary id [0%nat]
         (Some [py "Funcion"]) default_threshold example_store)
  = Ok [0%nat].
Proof. cbv zeta. repeat split; reflexivity. Qed.

(** C3.  The code does not do what the claim says: with the axis tag
    [U8-Funciones] and a topic, the axis filter keeps chunks 0 and 2, but the
    semantic filter starts again from all of [self.chunks], and the result
    has chunk 1, whose axis is [U4-Arreglos]. *)
Theorem get_filtered_chunks_ignores_axis_filter :
  let eje := Some (py "U8-Funciones") in
  fst (filter_by_eje [0; 1; 2; 3]%nat eje example_store) = Ok [0; 2]%nat /\
  fst (get_filtered_chunks str id length_score round_float32 [0; 1; 2; 3]%nat
         (Some [py "Funcion"]) eje theory 10 example_store)
  = Ok [1; 0]%nat /\
  field_of example_store "eje" 1%nat = Ok (py "U4-Arreglos").
Proof. repeat split; reflexivity. Qed.

(** There is no call without a mode constraint: under the default mode the
    practice chunk is left out, and under [None] every chunk is. *)
Lemma get_filtered_chunks_no_topics_counterexample :
  slice [0; 1; 2; 3]%nat 0 10 = [0; 1; 2; 3]%nat /\
  get_filtered_chunks str id length_score round_float32 [0; 1; 2; 3]%nat None None theory 10
    example_store = (Ok [0; 1; 3]%nat, example_store) /\
  get_filtered_chunks str id length_score round_float32 [0; 1; 2; 3]%nat None None None 10
    example_store = (Ok [], example_store).
Proof. repeat split; reflexivity. Qed.

Lemma example_types :
  Forall (has_field example_store "type") [0; 1; 2; 3]%nat.
Proof. repeat constructor; eexists; vm_compute; reflexivity. Defined.

Lemma get_filtered_chunks_no_topics_witness :
  get_filtered_chunks str id length_score round_float32 [0; 1; 2; 3]%nat None None theory 2
    example_store
  = (Ok (firstn 2 (List.filter (field_is example_store "type" theory)
                     [0; 1; 2; 3]%nat)), example_store).
Proof.
  exact (get_filtered_chunks_no_topics str id length_score round_float32 [0; 1; 2; 3]%nat
           None None theory 2 example_store eq_refl eq_refl ltac:(lia) example_types).
Defined.

(** A chunk without the field is not skipped: the call raises. *)
Lemma metadata_filters_counterexample :
  filter_by_eje [0; 4; 1]%nat (Some (py "U8-Funciones")) example_store
  = (Err (KeyError "eje"), example_store) /\
  filter_by_mode [0; 5; 1]%nat theory example_store
  = (Err (KeyError "metadata"), example_store) /\
  fst (get_filtered_chunks str id length_score round_float32 [0; 5; 1]%nat None None theory 10
         example_store)
  = Err (KeyError "metadata").
Proof. repeat split; reflexivity. Qed.

Lemma metadata_filters_raise_witness :
  filter_by_eje [0; 1; 2]%nat (Some (py "U8-Funciones")) example_store
  = (Ok (List.filter (field_is example_store "eje" (Some (py "U8-Funciones")))
           [0; 1; 2]%nat), example_store) /\
  filter_by_mode [0; 5; 1]%nat theory example_store
  = (Err (KeyError "metadata"), example_store) /\
  filter_by_eje [0; 5; 1]%nat None example_store = (Ok [0; 5; 1]%nat, example_store) /\
  get_filtered_chunks str id length_score round_float32 [0; 5; 1]%nat
    (Some [py "Funcion"]) (Some (py "U8-Funciones")) theory 10 example_store
  = (Err (KeyError "metadata"), example_store) /\
  get_filtered_chunks str id length_score round_float32 [0; 5; 1]%nat
    None None theory 10 example_store
  = (Err (KeyError "metadata"), example_store).
Proof.
  split; [|split; [|split; [|split]]].
  - apply (metadata_filters_raise str id length_score round_float32 [0; 5; 1]%nat
             [0; 1; 2]%nat example_store (py "U8-Funciones") theory
             ltac:(discriminate)).
    repeat constructor; eexists; vm_compute; reflexivity.
  - destruct (metadata_filters_raise str id length_score round_float32 [0; 5; 1]%nat
                [0; 5; 1]%nat example_store (py "U8-Funciones") theory
                ltac:(discriminate))
      as [_ [_ [_ [H _]]]].
    apply (H [0%nat] 5%nat [1%nat]); [reflexivity | | vm_compute; reflexivity].
    repeat constructor; eexists; vm_compute; reflexivity.
  - destruct (metadata_filters_raise str id length_score round_float32 [0; 5; 1]%nat
                [0; 5; 1]%nat example_store (py "U8-Funciones") theory
                ltac:(discriminate))
      as [_ [_ [_ [_ [_ [_ [H _]]]]]]].
    apply (H None). reflexivity.
  - destruct (metadata_filters_raise str id length_score round_float32 [0; 5; 1]%nat
                [0; 5; 1]%nat example_store (py "U8-Funciones") theory
                ltac:(discriminate))
      as [_ [_ [_ [_ [_ [_ [_ [H _]]]]]]]].
    apply (H (Some [py "Funcion"]) 10 [0%nat] 5%nat [1%nat]);
      [reflexivity | | vm_compute; reflexivity].
    repeat constructor; eexists; vm_compute; reflexivity.
  - destruct (metadata_filters_raise str id length_score round_float32 [0; 5; 1]%nat
                [0; 5; 1]%nat example_store (py "U8-Funciones") theory
                ltac:(discriminate))
      as [_ [_ [_ [_ [_ [_ [_ [_ [H _]]]]]]]]].
    apply (H None None 10 [0%nat] 5%nat [1%nat]);
      [reflexivity | reflexivity | reflexivity | | vm_compute; reflexivity].
    repeat constructor; eexists; vm_compute; reflexivity.
Defined.

(** The stored record of a retained chunk has no [similarity_score] before
    the call and has one after it; a later call without topics hands out
    the record with that score still on it. *)
Lemma filtering_mutates_counterexample :
  let h := example_store in
  let h' := run_calls str id length_score round_float32 [0; 1; 2; 3]%nat
              [CallFilterByVectorTemas (Some [py "Funcion"]) default_threshold] h in
  (exists d, h !! 0%nat = Some d /\ d !! "similarity_score" = None) /\
  (exists d', h' !! 0%nat = Some d' /\
              d' !! "similarity_score" = Some (VFloat (29 # 40))) /\
  h' <> h /\
  get_filtered_chunks str id length_score round_float32 [0; 1; 2; 3]%nat None None theory 1 h'
  = (Ok [0%nat], h').
Proof.
  cbv zeta. split; [|split; [|split]].
  - eexists. split; reflexivity.
  - eexists. split; reflexivity.
  - intros E. apply (f_equal (fun m : store => m !! 0%nat ≫= (.!! "similarity_score"))) in E.
    vm_compute in E. discriminate.
  - reflexivity.
Qed.

(** *** The further properties, on the small snapshot *)

Lemma example_ejes :
  Forall (has_field example_store "eje") [0; 1; 2; 3]%nat.
Proof. repeat constructor; eexists; vm_compute; reflexivity. Defined.

Lemma get_filtered_chunks_with_topics_witness :
  let temas := [py "Funcion"] in
  let score := score_in str id length_score example_store temas in
  let retained :=
    List.filter (fun c => Qltb (round_float32 default_threshold) (score c)) [0; 1; 2; 3]%nat in
  get_filtered_chunks str id length_score round_float32 [0; 1; 2; 3]%nat
    (Some temas) (Some (py "U8-Funciones")) theory 10 example_store
  = (Ok (slice (List.filter (field_is example_store "type" theory)
                  (sort_by score retained)) 0 10),
     write_scores score retained example_store).
Proof.
  exact (get_filtered_chunks_with_topics str id length_score round_float32 [0; 1; 2; 3]%nat
           [py "Funcion"] (Some (py "U8-Funciones")) theory 10 example_store
           ltac:(discriminate) example_texts example_ejes example_types).
Defined.

Lemma get_filtered_chunks_negative_cap_witness :
  let of_mode :=
    List.filter (field_is example_store "type" theory) [0; 1; 2; 3]%nat in
  get_filtered_chunks str id length_score round_float32 [0; 1; 2; 3]%nat None None theory (-1)
    example_store
  = (Ok (firstn (length of_mode - Z.to_nat (- -1)) of_mode), example_store).
Proof.
  exact (get_filtered_chunks_negative_cap str id length_score round_float32 [0; 1; 2; 3]%nat
           None None theory (-1) example_store eq_refl eq_refl ltac:(lia)
           example_types).
Defined.

(** With [max_chunks=-1] the last of the three theory chunks is left out. *)
Example negative_cap :
  get_filtered_chunks str id length_score round_float32 [0; 1; 2; 3]%nat None None theory (-1)
    example_store
  = (Ok [0; 1]%nat, example_store).
Proof. reflexivity. Qed.

Lemma theory_is_not_practice : py "theory" <> py "practice".
Proof. intros H. vm_compute in H. discriminate. Defined.

Lemma filter_by_mode_partition_witness :
  exists r1 r2,
    filter_by_mode [0; 1; 2; 3]%nat (Some (py "theory")) example_store
    = (Ok r1, example_store) /\
    filter_by_mode [0; 1; 2; 3]%nat (Some (py "practice")) example_store
    = (Ok r2, example_store) /\
    (forall c, In c r1 -> ~ In c r2) /\
    ((forall c, In c [0; 1; 2; 3]%nat ->
        field_of example_store "type" c = Ok (py "theory") \/
        field_of example_store "type" c = Ok (py "practice")) ->
     Permutation (r1 ++ r2) [0; 1; 2; 3]%nat).
Proof.
  exact (filter_by_mode_partition [0; 1; 2; 3]%nat example_store
           (py "theory") (py "practice") theory_is_not_practice example_types).
Defined.

Lemma get_filtered_chunks_sound_witness :
  let eje := Some (py "U8-Funciones") in
  (forall c, In c [0%nat] ->
     In c [0; 1; 2; 3]%nat /\
     field_is example_store "type" theory c = true /\
     (truthy_arg eje = true -> truthy_arg (@None (list str)) = false ->
      field_is example_store "eje" eje c = true)) /\
  (0 <= 10 -> len [0%nat] <= 10).
Proof.
  apply (get_filtered_chunks_sound str id length_score round_float32 [0; 1; 2; 3]%nat
           None (Some (py "U8-Funciones")) theory 10 example_store example_store
           [0%nat]).
  reflexivity.
Defined.

Lemma filter_by_vector_temas_again_witness :
  let run :=
    filter_by_vector_temas str id length_score round_float32 [0; 1; 2; 3]%nat
      (Some [py "Funcion"; py "Vector"]) default_threshold in
  run (snd (run example_store)) = run example_store.
Proof.
  exact (filter_by_vector_temas_again str id length_score round_float32 [0; 1; 2; 3]%nat
           [py "Funcion"; py "Vector"] default_threshold example_store
           ltac:(discriminate) example_texts).
Defined.

Example generate_suggestions_example :
  generate_suggestions str id length_score round_float32 [0; 1]%nat None practice None
    suggestion_store
  = (inr [py "U8-Funciones: Resolver la suma";
          py "U4-Arreglos: " ++ Chunker.repeat_str (py "a") 100 ++ py "..."],
     suggestion_store).
Proof. reflexivity. Qed.

(** No chunk of the mode: the placeholder line.  A text that is not a
    string, or a chunk without an axis tag: the call raises, also when
    other chunks have given their lines before. *)
Example generate_suggestions_edge_cases :
  fst (generate_suggestions str id length_score round_float32 [0; 1]%nat None theory None
         suggestion_store) = inr [placeholder] /\
  fst (generate_suggestions str id length_score round_float32 [0; 2]%nat None practice None
         suggestion_store) = inl AttributeError /\
  fst (generate_suggestions str id length_score round_float32 [0; 3]%nat None practice None
         suggestion_store) = inl (Raised (KeyError "eje")).
Proof. repeat split; reflexivity. Qed.

Lemma generate_suggestions_lines_witness :
  let suggestions := [py "U8-Funciones: Resolver el ejercicio de suma"] in
  suggestions <> [] /\
  len suggestions <= 5 /\
  (suggestions = [placeholder] \/
   exists top,
     (forall c, In c top ->
        In c [0; 1; 2; 3]%nat /\ field_is example_store "type" practice c = true) /\
     Forall2 (fun c s =>
                exists text eje,
                  text_of example_store c = Ok text /\
                  field_of example_store "eje" c = Ok eje /\
                  s = eje ++ py ": " ++ suggestion_of text /\
                  len (suggestion_of text) <= 103)
       top suggestions).
Proof.
  apply (generate_suggestions_lines str id length_score round_float32 [0; 1; 2; 3]%nat
           None practice None example_store example_store).
  reflexivity.
Defined.

Lemma queries_without_chunks_witness :
  filter_by_vector_temas str id length_score round_float32 [] (Some [py "Funcion"])
    default_threshold example_store = (Ok [], example_store) /\
  get_filtered_chunks str id length_score round_float32 [] (Some [py "Funcion"])
    (Some (py "U8-Funciones")) theory (-3) example_store = (Ok [], example_store) /\
  generate_suggestions str id length_score round_float32 [] (Some [py "Funcion"]) theory
    (Some (py "U8-Funciones")) example_store = (inr [placeholder], example_store).
Proof.
  exact (queries_without_chunks str id length_score round_float32 [] (Some [py "Funcion"])
           (Some (py "U8-Funciones")) theory default_threshold (-3) example_store
           eq_refl).
Defined.

End Manager.

(** * The enhanced chunker ([enhanced_chunking.py]), which writes the
      records the manager loads *)

Module EnhancedChunker.

Import Manager.

(** A chunk record, as [json.dump] writes it and [json.load] gives it back. *)
Abbreviation record := (gmap string value).

(** [self.unidades] *)
Definition unidades : list str :=
  [py "U1-Res. de Problemas"; py "U2-Alg. Computacionales"; py "U3-Est. de Control";
   py "U4-Arreglos"; py "U5-Intro Prog."; py "U6-Intro C++"; py "U7-Est. de Control";
   py "U8-Funciones"; py "U9-Arreglos y Structs"].

Definition exercise_keywords : list str :=
  [py "ejercicio"; py "problema"; py "resolver"; py "calcular"; py "implementar";
   py "programar"].

(** [content.split()]: the maximal runs without whitespace. *)
Fixpoint split_aux (s word : str) : list str :=
  match s with
  | [] => if truthy word then [word] else []
  | c :: s' =>
      if isspace c then
        if truthy word then word :: split_aux s' [] else split_aux s' []
      else split_aux s' (word ++ [c])
  end.

Definition split (content : str) : list str := split_aux content [].

(** [np.argmax]: the first index of the greatest value. *)
Fixpoint argmax (l : list Q) : nat :=
  match l with
  | [] => 0
  | x :: l' =>
      match l' with
      | [] => 0
      | _ :: _ => if Qltb x (nth (argmax l') l' 0%Q) then S (argmax l') else 0
      end
  end.

(** [s.replace(c, '')] for a single character [c]. *)
Definition remove_char (c : char) (s : str) : str :=
  List.filter (fun x => negb (x =? c)%N) s.

(** The label of chunk number [n] of a document. *)
Definition label_of (eje : str) (n : nat) : str :=
  remove_char 45%N (remove_char 32%N eje) ++ py "_chunk_" ++ Indexer.str_of_nat n.

(** The dict literal of [chunk_document]. *)
Definition chunk_dict (chunk_text eje chunk_type label source_file : str) : record :=
  {[ "text" := VStr chunk_text;
     "metadata" := VDict {[ "eje" := eje; "type" := chunk_type; "label" := label;
                            "source_file" := source_file ]} ]}.

(** A file of the content directory: the base name of its path, its
    suffix, and what reading it gives. *)
Record document := Document {
  doc_name : str;
  doc_suffix : str;
  doc_content : result str
}.

(** [sum(1 for c in chunks if c['metadata']['type'] == type)] *)
Definition count_type (chunks : list record) (type : str) : result Z :=
  fold_left
    (fun acc c =>
       match acc with
       | Err e => Err e
       | Ok n =>
           match metadata_field c "type" with
           | Err e => Err e
           | Ok s => Ok (if bool_decide (s = type) then n + 1 else n)
           end
       end)
    chunks (Ok 0).

(** The store of a manager that has loaded the records, and its
    [self.chunks]: record number [i] is behind reference [i]. *)
Fixpoint load_from (i : nat) (chunks : list record) : store :=
  match chunks with
  | [] => ∅
  | r :: rest => <[i := r]> (load_from (S i) rest)
  end.

Definition loaded (chunks : list record) : store := load_from 0 chunks.
Definition references (chunks : list record) : list nat := seq 0 (length chunks).

Section Model.

(** [self.model.encode] on one text and [cosine_similarity] on two vectors;
    [text.lower()]; and [len(re.findall(rf'\b{keyword}\b', text))]. *)
Variable vec : Type.
Variable encode1 : str -> vec.
Variable cosine_similarity : vec -> vec -> Q.
Variable lower : str -> str.
Variable findall_count : str -> str -> Z.

Definition similarity (text unit : str) : Q :=
  cosine_similarity (encode1 text) (encode1 unit).

Definition assign_eje (text : str) : str :=
  let similarities := map (similarity text) unidades in
  let best_unit_idx := argmax similarities in
  nth best_unit_idx unidades [].

Definition assign_type (text : str) : str :=
  let text_lower := lower text in
  let exercise_count :=
    fold_left Z.add
      (map (fun keyword => findall_count keyword text_lower) exercise_keywords) 0 in
  if exercise_count >? 5 then py "practice" else py "theory".

(** One turn of [for i in range(0, len(words), chunk_size - overlap)]. *)
Definition chunk_step (file_name : str) (chunk_size : Z) (words : list str)
    (chunks : list record) (i : Z) : list record :=
  let chunk_words := slice words i (i + chunk_size) in
  let chunk_text := join_space chunk_words in
  if len (strip chunk_text) <? 50 then chunks
  else
    let eje := assign_eje chunk_text in
    let chunk_type := assign_type chunk_text in
    let label := label_of eje (length chunks + 1) in
    chunks ++ [chunk_dict chunk_text eje chunk_type label file_name].

(** [chunk_document], from the content read and the base name of the path. *)
Definition chunk_document (content file_name : str) (chunk_size overlap : Z)
  : result (list record) :=
  let words := split content in
  match range0 (len words) (chunk_size - overlap) with
  | Err e => Err e
  | Ok starts => Ok (fold_left (chunk_step file_name chunk_size words) starts [])
  end.

(** [process_content_directory], from whether the directory exists and the
    regular files in it.  Nothing is caught: a file that cannot be read
    ends the run. *)
Definition process_content_directory (dir_exists : bool) (files : list document)
  : result (list record) :=
  if negb dir_exists then Ok []
  else
    fold_left
      (fun acc f =>
         match acc with
         | Err e => Err e
         | Ok all_chunks =>
             if bool_decide (doc_suffix f ∈ [py ".txt"; py ".md"]) then
               match doc_content f with
               | Err e => Err e
               | Ok content =>
                   match chunk_document content (doc_name f) 500 50 with
                   | Err e => Err e
                   | Ok chunks => Ok (all_chunks ++ chunks)
                   end
               end
             else Ok all_chunks
         end)
      files (Ok []).

(** *** Specification vocabulary *)

(** The record [chunk_document] builds for a text, as number [k] of its
    result. *)
Definition chunk_of (file_name : str) (k : nat) (t : str) : record :=
  chunk_dict t (assign_eje t) (assign_type t) (label_of (assign_eje t) (k + 1))
    file_name.

(** The record has the given type. *)
Definition has_type (type : str) (r : record) : bool :=
  match metadata_field r "type" with
  | Ok s => bool_decide (s = type)
  | Err _ => false
  end.

(** A record as [chunk_document] builds them. *)
Definition produced (r : record) : Prop :=
  exists t label file_name,
    50 <= len t /\
    r = chunk_dict t (assign_eje t) (assign_type t) label file_name.

(** *** The unit of a text *)

Lemma argmax_spec (l : list Q) (d : Q) :
  l <> [] ->
  (argmax l < length l)%nat /\
  (forall j, (j < length l)%nat -> (nth j l d <= nth (argmax l) l d)%Q) /\
  (forall j, (j < argmax l)%nat -> (nth j l d < nth (argmax l) l d)%Q).
Proof.
  induction l as [|x l IH]; intros Hne; [congruence|].
  destruct l as [|y l'].
  - simpl. split; [lia|]. split.
    + intros [|j] Hj; [apply Qle_refl | simpl in Hj; lia].
    + intros j Hj. lia.
  - destruct IH as [Hlt [Hmax Hfirst]]; [discriminate|].
    change (argmax (x :: y :: l'))
      with (if Qltb x (nth (argmax (y :: l')) (y :: l') 0%Q)
            then S (argmax (y :: l')) else 0%nat).
    remember (y :: l') as l eqn:El. clear El.
    rewrite (nth_indep l 0%Q d Hlt).
    destruct (Qltb x (nth (argmax l) l d)) eqn:E.
    + apply Qltb_lt in E. split; [simpl; lia|]. split.
      * intros [|j] Hj; simpl.
        -- apply Qlt_le_weak, E.
        -- apply Hmax. simpl in Hj. lia.
      * intros [|j] Hj; simpl; [exact E|]. apply Hfirst. lia.
    + apply Qltb_ge in E. split; [simpl; lia|]. split.
      * intros [|j] Hj; simpl; [apply Qle_refl|].
        apply Qle_trans with (nth (argmax l) l d); [|exact E].
        apply Hmax. simpl in Hj. lia.
      * intros j Hj. lia.
Qed.

(** X21.  [assign_eje] returns one of the nine units, one to which the text
    is at least as similar as to every unit, and of several such units the
    first of the list: every unit before it is strictly less similar. *)
Theorem assign_eje_best (text : str) :
  exists i,
    unidades !! i = Some (assign_eje text) /\
    (forall u, In u unidades ->
       (similarity text u <= similarity text (assign_eje text))%Q) /\
    (forall j u, (j < i)%nat -> unidades !! j = Some u ->
       (similarity text u < similarity text (assign_eje text))%Q).
Proof.
  set (sims := map (similarity text) unidades).
  assert (Hne : sims <> []) by discriminate.
  destruct (argmax_spec sims (similarity text []) Hne) as [Hlt [Hmax Hfirst]].
  assert (Hlen : length sims = length unidades) by apply length_map.
  assert (Hnth : forall j, nth j sims (similarity text [])
                           = similarity text (nth j unidades [])).
  { intros j. apply map_nth. }
  assert (Ea : assign_eje text = nth (argmax sims) unidades []) by reflexivity.
  exists (argmax sims). rewrite Ea. split; [|split].
  - destruct (lookup_lt_is_Some_2 unidades (argmax sims)) as [u Hu];
      [rewrite <- Hlen; exact Hlt|].
    transitivity (Some u); [exact Hu|].
    f_equal. symmetry. exact (nth_lookup_Some _ _ [] _ Hu).
  - intros u Hu. apply (In_nth _ _ []) in Hu as [j [Hj <-]].
    assert (Hj' : (j < length sims)%nat) by (rewrite Hlen; exact Hj).
    pose proof (Hmax j Hj') as H. rewrite !Hnth in H. exact H.
  - intros j u Hj Hu.
    assert (Eu : u = nth j unidades [])
      by (symmetry; exact (nth_lookup_Some _ _ [] _ Hu)).
    pose proof (Hfirst j Hj) as H. rewrite !Hnth in H. rewrite Eu. exact H.
Qed.

(** *** The records of a document *)

Lemma chunk_dict_fields (t eje ty label src : str) :
  text_field (chunk_dict t eje ty label src) = Ok t /\
  metadata_field (chunk_dict t eje ty label src) "eje" = Ok eje /\
  metadata_field (chunk_dict t eje ty label src) "type" = Ok ty /\
  metadata_field (chunk_dict t eje ty label src) "label" = Ok label /\
  metadata_field (chunk_dict t eje ty label src) "source_file" = Ok src.
Proof. repeat split; vm_compute; reflexivity. Qed.

Lemma assign_eje_unit (text : str) : In (assign_eje text) unidades.
Proof.
  unfold assign_eje. apply nth_In.
  destruct (argmax_spec (map (similarity text) unidades) 0%Q) as [Hlt _];
    [discriminate|].
  rewrite length_map in Hlt. exact Hlt.
Qed.

Lemma assign_type_cases (text : str) :
  assign_type text = py "theory" \/ assign_type text = py "practice".
Proof. unfold assign_type. destruct (_ >? 5); auto. Qed.

Lemma chunk_loop (file_name : str) (chunk_size : Z) (words : list str)
    (starts : list Z) :
  forall chunks,
    (forall k r, chunks !! k = Some r ->
       exists t i, 50 <= len t /\
                   t = join_space (slice words i (i + chunk_size)) /\
                   r = chunk_of file_name k t) ->
    forall k r,
      fold_left (chunk_step file_name chunk_size words) starts chunks !! k = Some r ->
      exists t i, 50 <= len t /\
                  t = join_space (slice words i (i + chunk_size)) /\
                  r = chunk_of file_name k t.
Proof.
  induction starts as [|i starts IH]; intros chunks Hinv; simpl; [exact Hinv|].
  apply IH. unfold chunk_step.
  set (t := join_space (slice words i (i + chunk_size))).
  destruct (Z.ltb_spec (len (strip t)) 50) as [Hshort|Hlong]; [exact Hinv|].
  intros k r Hk. apply lookup_app_Some in Hk as [Hk|[Hge Hk]]; [apply Hinv, Hk|].
  apply list_lookup_singleton_Some in Hk as [Hk <-].
  assert (k = length chunks) as -> by lia.
  exists t, i. split; [|split; reflexivity].
  pose proof (Chunker.len_strip t). lia.
Qed.

Lemma chunk_document_chunks (content file_name : str) (chunk_size overlap : Z)
    (chunks : list record) :
  chunk_document content file_name chunk_size overlap = Ok chunks ->
  forall k r, chunks !! k = Some r ->
    exists t i, 50 <= len t /\
                t = join_space (slice (split content) i (i + chunk_size)) /\
                r = chunk_of file_name k t.
Proof.
  unfold chunk_document.
  destruct (range0 (len (split content)) (chunk_size - overlap)) as [starts|e];
    [|discriminate].
  intros [= <-]. apply chunk_loop. intros k r Hk. discriminate.
Qed.

(** X22.  Every record [chunk_document] returns has a text of at least 50
    characters, which is a window of [chunk_size] words of the content
    joined by single spaces; one of the nine units as its axis; the type
    [theory] or [practice]; the name of the file as its source; and as its
    label the axis without spaces and hyphens, [_chunk_] and the position
    of the record in the result, counted from 1: the windows that were
    skipped take no number. *)
Theorem chunk_document_records (content file_name : str) (chunk_size overlap : Z)
    (chunks : list record) :
  chunk_document content file_name chunk_size overlap = Ok chunks ->
  forall k r, chunks !! k = Some r ->
    exists t eje i,
      text_field r = Ok t /\
      50 <= len t /\
      t = join_space (slice (split content) i (i + chunk_size)) /\
      metadata_field r "eje" = Ok eje /\
      In eje unidades /\
      (metadata_field r "type" = Ok (py "theory") \/
       metadata_field r "type" = Ok (py "practice")) /\
      metadata_field r "label" = Ok (label_of eje (k + 1)) /\
      metadata_field r "source_file" = Ok file_name.
Proof.
  intros Hdoc k r Hk.
  destruct (chunk_document_chunks _ _ _ _ _ Hdoc k r Hk) as [t [i [Hlen [Ht ->]]]].
  unfold chunk_of.
  destruct (chunk_dict_fields t (assign_eje t) (assign_type t)
              (label_of (assign_eje t) (k + 1)) file_name)
    as [Etext [Eeje [Etype [Elabel Esrc]]]].
  exists t, (assign_eje t), i. rewrite Etype.
  repeat split; try assumption.
  - apply assign_eje_unit.
  - destruct (assign_type_cases t) as [->| ->]; auto.
Qed.

(** *** A step that is not positive *)

Lemma range0_backwards (n step : Z) : 0 <= n -> step < 0 -> range0 n step = Ok [].
Proof.
  intros Hn Hstep. unfold range0.
  replace (step =? 0) with false by (symmetry; apply Z.eqb_neq; lia).
  replace (step >? 0) with false
    by (symmetry; rewrite Z.gtb_ltb; apply Z.ltb_ge; lia).
  assert (Hq : (- n + - step - 1) / - step <= 0).
  { destruct (Z_lt_le_dec (- n + - step - 1) 0) as [Hneg|Hpos].
    - assert ((- n + - step - 1) / - step < 0)
        by (apply Z.div_lt_upper_bound; lia).
      lia.
    - rewrite Z.div_small by lia. lia. }
  replace (Z.to_nat ((- n + - step - 1) / - step)) with 0%nat by lia.
  reflexivity.
Qed.

(** X23.  [chunk_document] does not check its step: with an overlap equal
    to the chunk size it raises [ValueError] (the step of the range is
    zero), and with a greater overlap it returns no chunk at all, whatever
    the content. *)
Theorem chunk_document_overlap (content file_name : str) (chunk_size overlap : Z) :
  chunk_size <= overlap ->
  chunk_document content file_name chunk_size overlap
  = if chunk_size =? overlap then Err ValueError else Ok [].
Proof.
  intros Hle. unfold chunk_document.
  destruct (Z.eqb_spec chunk_size overlap) as [->|Hne].
  - unfold range0. rewrite Z.sub_diag. reflexivity.
  - rewrite range0_backwards by (unfold len; lia). reflexivity.
Qed.

(** *** The records of a directory, and the manager that loads them *)

Lemma process_content_directory_produced (dir_exists : bool) (files : list document)
    (chunks : list record) :
  process_content_directory dir_exists files = Ok chunks ->
  List.Forall produced chunks.
Proof.
  unfold process_content_directory. destruct dir_exists; cbn [negb].
  2:{ intros [= <-]. constructor. }
  assert (Hloop : forall (l : list document) acc,
             match acc with Ok a => List.Forall produced a | Err _ => True end ->
             forall chunks',
               fold_left
                 (fun acc f =>
                    match acc with
                    | Err e => Err e
                    | Ok all_chunks =>
                        if bool_decide (doc_suffix f ∈ [py ".txt"; py ".md"]) then
                          match doc_content f with
                          | Err e => Err e
                          | Ok content =>
                              match chunk_document content (doc_name f) 500 50 with
                              | Err e => Err e
                              | Ok chunks => Ok (all_chunks ++ chunks)
                              end
                          end
                        else Ok all_chunks
                    end) l acc = Ok chunks' ->
               List.Forall produced chunks').
  { induction l as [|f l IH]; intros acc Hacc chunks'; cbn [fold_left].
    - intros ->. exact Hacc.
    - apply IH. destruct acc as [all_chunks|e]; [|exact I].
      destruct (bool_decide _); [|exact Hacc].
      destruct (doc_content f) as [content|e]; [|exact I].
      destruct (chunk_document content (doc_name f) 500 50) as [new|e] eqn:Edoc;
        [|exact I].
      apply List.Forall_app. split; [exact Hacc|].
      apply List.Forall_forall. intros r Hr.
      apply list_elem_of_In, list_elem_of_lookup in Hr as [k Hk].
      destruct (chunk_document_chunks _ _ _ _ _ Edoc k r Hk) as [t [i [Hlen [_ ->]]]].
      exists t, (label_of (assign_eje t) (k + 1)), (doc_name f). auto. }
  apply Hloop. constructor.
Qed.

Lemma load_from_lookup (chunks : list record) :
  forall i k, load_from i chunks !! (i + k)%nat = chunks !! k.
Proof.
  induction chunks as [|r chunks IH]; intros i k; simpl.
  - rewrite lookup_empty. reflexivity.
  - destruct k as [|k].
    + rewrite Nat.add_0_r, lookup_insert_eq. reflexivity.
    + rewrite lookup_insert_ne by lia.
      replace (i + S k)%nat with (S i + k)%nat by lia. apply IH.
Qed.

Lemma loaded_record (chunks : list record) (c : nat) :
  In c (references chunks) ->
  exists r, loaded chunks !! c = Some r /\ In r chunks.
Proof.
  unfold references, loaded. intros Hc. apply in_seq in Hc.
  destruct (lookup_lt_is_Some_2 chunks c) as [r Hr]; [lia|].
  exists r. split.
  - rewrite <- Hr. exact (load_from_lookup chunks 0 c).
  - apply list_elem_of_In, list_elem_of_lookup. exists c. exact Hr.
Qed.

Lemma has_type_chunk_dict (type t eje ty label src : str) :
  has_type type (chunk_dict t eje ty label src) = bool_decide (ty = type).
Proof.
  unfold has_type.
  destruct (chunk_dict_fields t eje ty label src) as [_ [_ [-> _]]]. reflexivity.
Qed.

Lemma count_type_loop (type : str) (chunks : list record) :
  List.Forall produced chunks ->
  forall n,
    fold_left
      (fun acc c =>
         match acc with
         | Err e => Err e
         | Ok n =>
             match metadata_field c "type" with
             | Err e => Err e
             | Ok s => Ok (if bool_decide (s = type) then n + 1 else n)
             end
         end) chunks (Ok n)
    = Ok (n + len (List.filter (has_type type) chunks)).
Proof.
  induction 1 as [|r chunks [t [label [name [_ ->]]]] _ IH]; intros n;
    cbn [fold_left List.filter].
  - unfold len. simpl. f_equal. lia.
  - destruct (chunk_dict_fields t (assign_eje t) (assign_type t) label name)
      as [_ [_ [Etype _]]].
    rewrite has_type_chunk_dict, Etype, IH.
    destruct (decide (assign_type t = type)) as [E|E].
    + rewrite !bool_decide_eq_true_2 by congruence.
      unfold len. simpl length. f_equal. lia.
    + rewrite !bool_decide_eq_false_2 by congruence. reflexivity.
Qed.

(** X24.  What [process_content_directory] returns is a snapshot on which
    the manager never raises: once loaded, every chunk has a text, one of
    the nine units as its axis and a type, and every call of
    [get_filtered_chunks] and of [generate_suggestions] returns, whatever
    the topics, the axis tag, the mode and the cap. *)
Theorem produced_snapshot_is_well_formed (dir_exists : bool) (files : list document)
    (chunks : list record) (model : Type) (encode : str -> model)
    (cosine : model -> model -> Q) (as_compared : Q -> Q)
    (vector_temas : option (list str))
    (eje_activo : option str) (mode : option str) (max_chunks : Z) :
  process_content_directory dir_exists files = Ok chunks ->
  let h := loaded chunks in
  let self_chunks := references chunks in
  (forall c, In c self_chunks ->
     (exists t, text_of h c = Ok t) /\
     (exists eje, field_of h "eje" c = Ok eje /\ In eje unidades) /\
     (field_of h "type" c = Ok (py "theory") \/
      field_of h "type" c = Ok (py "practice"))) /\
  (exists r h',
     get_filtered_chunks model encode cosine as_compared self_chunks
       vector_temas eje_activo mode max_chunks h = (Ok r, h')) /\
  (exists lines h',
     generate_suggestions model encode cosine as_compared self_chunks
       vector_temas mode eje_activo h = (inr lines, h')).
Proof.
  intros Hdir h self_chunks.
  apply process_content_directory_produced in Hdir.
  rewrite List.Forall_forall in Hdir.
  assert (Hwf : forall c, In c self_chunks ->
            (exists t, text_of h c = Ok t) /\
            (exists eje, field_of h "eje" c = Ok eje /\ In eje unidades) /\
            (field_of h "type" c = Ok (py "theory") \/
             field_of h "type" c = Ok (py "practice"))).
  { intros c Hc. destruct (loaded_record chunks c Hc) as [r [Hr Hin]].
    destruct (Hdir r Hin) as [t [label [name [_ ->]]]].
    destruct (chunk_dict_fields t (assign_eje t) (assign_type t) label name)
      as [Etext [Eeje [Etype _]]].
    unfold text_of, field_of. fold h in Hr. rewrite Hr. simpl default.
    split; [eauto|]. split.
    - exists (assign_eje t). split; [exact Eeje | apply assign_eje_unit].
    - rewrite Etype. destruct (assign_type_cases t) as [->| ->]; auto. }
  split; [exact Hwf|].
  apply queries_return.
  - intros c Hc. apply Hwf, Hc.
  - apply Forall_forall. intros c Hc. apply list_elem_of_In in Hc.
    destruct (Hwf c Hc) as [_ [[eje [He _]] _]]. exists eje. exact He.
  - apply Forall_forall. intros c Hc. apply list_elem_of_In in Hc.
    destruct (Hwf c Hc) as [_ [_ [Ht|Ht]]]; eexists; exact Ht.
Qed.

(** X25.  The statistics [main] prints add up: the theory chunks and the
    practice chunks it counts are all the chunks of the directory. *)
Theorem statistics_add_up (dir_exists : bool) (files : list document)
    (chunks : list record) :
  process_content_directory dir_exists files = Ok chunks ->
  exists theory_chunks practice_chunks,
    count_type chunks (py "theory") = Ok theory_chunks /\
    count_type chunks (py "practice") = Ok practice_chunks /\
    theory_chunks + practice_chunks = len chunks.
Proof.
  intros Hdir. apply process_content_directory_produced in Hdir.
  unfold count_type. rewrite !(count_type_loop _ chunks Hdir).
  eexists. eexists. split; [reflexivity|]. split; [reflexivity|].
  induction Hdir as [|r chunks [t [label [name [_ ->]]]] _ IH]; [reflexivity|].
  cbn [List.filter]. rewrite !has_type_chunk_dict.
  assert (Hne : py "theory" <> py "practice")
    by (intros H; vm_compute in H; discriminate).
  destruct (assign_type_cases t) as [E|E]; rewrite E.
  - rewrite (bool_decide_eq_true_2 (py "theory" = py "theory")) by reflexivity.
    rewrite (bool_decide_eq_false_2 (py "theory" = py "practice")) by congruence.
    unfold len in *. simpl length. lia.
  - rewrite (bool_decide_eq_false_2 (py "practice" = py "theory")) by congruence.
    rewrite (bool_decide_eq_true_2 (py "practice" = py "practice")) by reflexivity.
    unfold len in *. simpl length. lia.
Qed.

End Model.


(** *** A small document *)

(** Stand-ins for the model and for the keyword search: a text is its own
    vector and is similar to the units whose digit it contains; a keyword is
    counted where it stands as a word of its own. *)
Definition digit_similarity (text unit : str) : Q :=
  if bool_decide (nth 1 unit 0%N ∈ text) then 1 else 0.

Definition word_count (keyword text : str) : Z :=
  len (List.filter (fun w => bool_decide (w = keyword)) (split text)).

(** Fourteen words: with windows of 8 words and an overlap of 2 the windows
    start at the words 0, 6 and 12, and the last one, of two words, is too
    short to be kept. *)
Definition sample_content : str :=
  py "Resolver ejercicio 8 problema calcular implementar programar ejercicio resolver funciones 4 arreglos vectores indices".

Definition sample_records : list record :=
  [chunk_dict
     (py "Resolver ejercicio 8 problema calcular implementar programar ejercicio")
     (py "U8-Funciones") (py "practice") (py "U8Funciones_chunk_1") (py "unidad.txt");
   chunk_dict
     (py "programar ejercicio resolver funciones 4 arreglos vectores indices")
     (py "U4-Arreglos") (py "theory") (py "U4Arreglos_chunk_2") (py "unidad.txt")].

(** A directory with a short text file, whose words make one chunk of the
    default size, and a file of another kind, which is not read. *)
Definition sample_directory : list document :=
  [Document (py "unidad.txt") (py ".txt") (Ok sample_content);
   Document (py "notas.pdf") (py ".pdf") (Err TypeError)].

Definition sample_snapshot : list record :=
  [chunk_dict sample_content (py "U4-Arreglos") (py "practice")
     (py "U4Arreglos_chunk_1") (py "unidad.txt")].

Example chunk_document_example :
  chunk_document str id digit_similarity id word_count
    sample_content (py "unidad.txt") 8 2
  = Ok sample_records.
Proof. reflexivity. Qed.

(** Short windows take no number: the third window of this content is kept
    and is chunk 2, the second one being too short. *)
Example skipped_window_takes_no_number :
  let content :=
    py "1 primeramente ventanas palabras bastantes larguisimas a b c d e f 4 terceramente ventanas palabras igualmente larguisimas" in
  match chunk_document str id digit_similarity id word_count
          content (py "u.txt") 6 0 with
  | Ok chunks =>
      map (fun r => metadata_field r "label") chunks
      = [Ok (py "U1Res.deProblemas_chunk_1"); Ok (py "U4Arreglos_chunk_2")]
  | Err _ => False
  end.
Proof. reflexivity. Qed.

Lemma chunk_document_records_witness :
  let r := chunk_dict
             (py "programar ejercicio resolver funciones 4 arreglos vectores indices")
             (py "U4-Arreglos") (py "theory") (py "U4Arreglos_chunk_2")
             (py "unidad.txt") in
  exists t eje i,
    text_field r = Ok t /\
    50 <= len t /\
    t = join_space (slice (split sample_content) i (i + 8)) /\
    metadata_field r "eje" = Ok eje /\
    In eje unidades /\
    (metadata_field r "type" = Ok (py "theory") \/
     metadata_field r "type" = Ok (py "practice")) /\
    metadata_field r "label" = Ok (label_of eje (1 + 1)) /\
    metadata_field r "source_file" = Ok (py "unidad.txt").
Proof.
  apply (chunk_document_records str id digit_similarity id word_count
           sample_content (py "unidad.txt") 8 2 sample_records).
  - reflexivity.
  - reflexivity.
Defined.

Lemma chunk_document_overlap_witness :
  chunk_document str id digit_similarity id word_count
    sample_content (py "unidad.txt") 8 8 = Err ValueError /\
  chunk_document str id digit_similarity id word_count
    sample_content (py "unidad.txt") 8 10 = Ok [].
Proof.
  split.
  - exact (chunk_document_overlap str id digit_similarity id word_count
             sample_content (py "unidad.txt") 8 8 ltac:(lia)).
  - exact (chunk_document_overlap str id digit_similarity id word_count
             sample_content (py "unidad.txt") 8 10 ltac:(lia)).
Defined.

Example process_content_directory_example :
  process_content_directory str id digit_similarity id word_count true sample_directory
  = Ok sample_snapshot.
Proof. reflexivity. Qed.

Lemma produced_snapshot_is_well_formed_witness :
  let h := loaded sample_snapshot in
  let self_chunks := references sample_snapshot in
  (forall c, In c self_chunks ->
     (exists t, text_of h c = Ok t) /\
     (exists eje, field_of h "eje" c = Ok eje /\ In eje unidades) /\
     (field_of h "type" c = Ok (py "theory") \/
      field_of h "type" c = Ok (py "practice"))) /\
  (exists r h',
     get_filtered_chunks str id length_score round_float32 self_chunks
       (Some [py "Funcion"]) (Some (py "U4-Arreglos")) (Some (py "practice")) 10 h
     = (Ok r, h')) /\
  (exists lines h',
     generate_suggestions str id length_score round_float32 self_chunks
       (Some [py "Funcion"]) (Some (py "practice")) (Some (py "U4-Arreglos")) h
     = (inr lines, h')).
Proof.
  apply (produced_snapshot_is_well_formed str id digit_similarity id word_count
           true sample_directory sample_snapshot str id length_score round_float32
           (Some [py "Funcion"]) (Some (py "U4-Arreglos")) (Some (py "practice")) 10).
  reflexivity.
Defined.

Lemma statistics_add_up_witness :
  exists theory_chunks practice_chunks,
    count_type sample_snapshot (py "theory") = Ok theory_chunks /\
    count_type sample_snapshot (py "practice") = Ok practice_chunks /\
    theory_chunks + practice_chunks = len sample_snapshot.
Proof.
  apply (statistics_add_up str id digit_similarity id word_count true sample_directory
           sample_snapshot).
  reflexivity.
Defined.

End EnhancedChunker.
